(** * node-concurrent-worker-tasks: the worker pool, embedded and verified

    Three generations of the [WorkerPool] class are modelled:

    - [Index]: src/index.js, where [pool] is the list of workers that are
      free; a worker is taken out with [shift] while it runs a task and put
      back by the task's 'message' listener;
    - [Queued]: the first class of src/unnamed/part_001, where workers stay
      in [pool] with a [busy] flag and submissions wait in [taskQueue];
    - [RoundRobin]: the second class of src/unnamed/part_001, where every
      call takes the worker at [workerIndex] and workers are shared.

    [Earlier] holds the capacity check of the class of src/unnamed/part_000.

    JavaScript runs the class on one event loop, so every function body
    between two suspension points is one atomic step.  Each module gives the
    class's methods as functions on an explicit state and a [step] function
    that handles one event of the loop (a call by the host, a worker's
    'online', 'message' or 'error' event, the process 'exit' event, the
    resumption of a suspended call). *)

From Stdlib Require Import String List ZArith QArith Bool Lia Arith DecimalString.
From Equations Require Import Equations.
From Equations.Prop Require Import Logic.
Import ListNotations.
Close Scope Q_scope.

Set Implicit Arguments.

(** ** JavaScript values and numbers *)

(** JavaScript numbers.  The rounding of IEEE doubles is idealised: finite
    values are exact rationals; NaN and the infinities are kept, since a
    division by zero produces them instead of failing. *)
Inductive jsnum :=
| NaN
| Inf (negative : bool)
| Fin (q : Q).

(** The values exchanged with workers and returned to callers. *)
#[warnings="-register-all"]
Inductive jsval :=
| VUndefined
| VNull
| VBool (b : bool)
| VNum (n : jsnum)
| VStr (s : string)
| VObj (fields : list (string * jsval)).

(** [obj.key = v] on a plain object: an existing key keeps its place. *)
Fixpoint set_field (key : string) (v : jsval) (fields : list (string * jsval))
  : list (string * jsval) :=
  match fields with
  | [] => [(key, v)]
  | (k, x) :: rest =>
      if String.eqb k key then (k, v) :: rest else (k, x) :: set_field key v rest
  end.

Fixpoint get_field (key : string) (fields : list (string * jsval)) : jsval :=
  match fields with
  | [] => VUndefined
  | (k, x) :: rest => if String.eqb k key then x else get_field key rest
  end.

(** Modelled from the spec: the class CustomError of ./types/customError is
    not among the sources; the spec's error conditions carry a message and a
    status ("CapacityExceeded (status 503)"), the code builds them with
    [new CustomError(message, status)] and reads [err.status] and
    [err.message] of what it catches.  [Error] and [TypeError] are
    JavaScript's own. *)
Inductive exn :=
| CustomError (message : string) (status : Z)
| Error (message : string)
| TypeError (message : string).

(** [err.status]; None is undefined. *)
Definition err_status (e : exn) : option Z :=
  match e with
  | CustomError _ st => Some st
  | _ => None
  end.

Definition err_message (e : exn) : string :=
  match e with
  | CustomError m _ | Error m | TypeError m => m
  end.

(** A computation that returns or throws. *)
Inductive completion (A : Type) :=
| Return (a : A)
| Throw (e : exn).
Arguments Return {A} a.
Arguments Throw {A} e.

Definition dec (n : nat) : string := NilZero.string_of_uint (Nat.to_uint n).

Definition Qlt_bool (a b : Q) : bool := negb (Qle_bool b a).

Definition js_sub (a b : jsnum) : jsnum :=
  match a, b with
  | Fin x, Fin y => Fin (x - y)
  | NaN, _ | _, NaN => NaN
  | Inf s, Inf t => if Bool.eqb s t then NaN else Inf s
  | Inf s, Fin _ => Inf s
  | Fin _, Inf t => Inf (negb t)
  end.

Definition js_mul (a b : jsnum) : jsnum :=
  match a, b with
  | Fin x, Fin y => Fin (x * y)
  | NaN, _ | _, NaN => NaN
  | Inf s, Inf t => Inf (xorb s t)
  | Inf s, Fin y | Fin y, Inf s =>
      if Qeq_bool y 0 then NaN else Inf (xorb s (Qlt_bool y 0))
  end.

(** Division; the zeros this program divides by are positive zeros. *)
Definition js_div (a b : jsnum) : jsnum :=
  match a, b with
  | Fin x, Fin y =>
      if Qeq_bool y 0
      then if Qeq_bool x 0 then NaN else Inf (Qlt_bool x 0)
      else Fin (x / y)
  | NaN, _ | _, NaN => NaN
  | Inf _, Inf _ => NaN
  | Inf s, Fin y => Inf (xorb s (Qlt_bool y 0))
  | Fin _, Inf _ => Fin 0
  end.

Definition js_lt (a b : jsnum) : bool :=
  match a, b with
  | NaN, _ | _, NaN => false
  | Fin x, Fin y => Qlt_bool x y
  | Inf s, Inf t => s && negb t
  | Inf s, Fin _ => s
  | Fin _, Inf t => negb t
  end.

Definition js_gt (a b : jsnum) : bool := js_lt b a.

(** The string [x.toFixed(1)] produces: "NaN", "Infinity", "-Infinity", or a
    decimal with one fractional digit, kept as its number of tenths. *)
Inductive fixed1 :=
| FxNaN
| FxInf (negative : bool)
| FxDec (tenths : Z).

(** Nearest tenth, ties away from zero. *)
Definition round_tenths (q : Q) : Z :=
  let n := Qnum q in
  let d := Z.pos (Qden q) in
  (Z.sgn n * ((2 * 10 * Z.abs n + d) / (2 * d)))%Z.

Definition toFixed1 (x : jsnum) : fixed1 :=
  match x with
  | NaN => FxNaN
  | Inf s => FxInf s
  | Fin q => FxDec (round_tenths q)
  end.

(** ToNumber of such a string, as a comparison with a number applies it. *)
Definition fixed1_to_number (f : fixed1) : jsnum :=
  match f with
  | FxNaN => NaN
  | FxInf s => Inf s
  | FxDec t => Fin (t # 10)
  end.

Definition of_bytes (n : Z) : jsnum := Fin (n # 1).

(** [array.pop()]: the last element and the array without it. *)
Definition pop {A : Type} (l : list A) : option (A * list A) :=
  match rev l with
  | [] => None
  | x :: r => Some (x, rev r)
  end.


(** ** src/index.js *)

Module Index.

(** An element of [this.pool]: [{ id, worker }].  [worker] is the identity of
    the Worker object: the number of the [new Worker] evaluation that made
    it. *)
Record WorkerObject := { id : string; worker : nat }.

(** What the constructor stores and nothing reassigns, the module-level
    constant [freeMemoryAvailable], and the platform's behaviour at
    [new Worker]. *)
Record Config := {
  poolSize : nat;
  memThreshold : Q;
  returnLog : bool;
  freememAtLoad : Z;            (* os.freemem(), in bytes, when the module loads *)
  idleThreshold : Z;            (* new TaskManager(): 100 *)
  newWorker : nat -> option exn (* what the n-th [new Worker] throws, if it does *)
}.

(** The variables of one [run] call that its listeners and its continuation
    close over. *)
Record Execution := {
  x_call : nat;                 (* which call of [run] *)
  x_status : Z;
  x_worker : WorkerObject;      (* freeWorker / workerFromPool *)
  x_memStats : jsval
}.

(** Listeners registered on a Worker object. *)
Inductive Listener :=
| HandleError (workerId : string)        (* buildPool: on('error', handleError) *)
| OnlineOnce (workerItem : WorkerObject) (* addNewWorkerToPool: once('online', ...) *)
| CreationError                          (* addNewWorkerToPool: on('error', ...) *)
| MessageListener (x : Execution)        (* executeWorker: on('message', messageListener) *)
| ErrorListener (x : Execution).         (* executeWorker: on('error', errorListener) *)

Inductive LogLine :=
| LogWorkerError (workerId : string) (error : string)
| LogWorkerCreated (workerId : string)
| LogWorkerExecuted (workerId : string)
| LogTerminateExcess (poolLength : nat).

(** What the class does to the outside, in order. *)
Inductive Effect :=
| NewWorker (w : nat)
| PostMessage (w : nat) (task : jsval)
| Terminate (w : nat)
| Settle (call : nat) (value : jsval)    (* the promise of [run] resolves *)
| Unhandled (e : exn)                    (* a rejection nothing awaits *)
| Log (line : LogLine).

(** A [runTask] suspended at [await this.buildPool()]. *)
Record Suspended := { w_call : nat; w_status : Z; w_task : jsval }.

Record State := {
  pool : list WorkerObject;
  minWorkers : option nat;      (* this.minWorkers; None is undefined *)
  lastTaskTime : option Z;      (* taskManager.lastTaskTime; None is null *)
  tasks : list string;          (* the module-level [tasks] array *)
  workersMade : nat;            (* evaluations of [new Worker] so far *)
  listeners : list (nat * Listener);
  waiting : list Suspended;
  calls : nat;                  (* calls of [run] so far *)
  trace : list Effect
}.

Definition set_pool (p : list WorkerObject) (s : State) : State :=
  {| pool := p; minWorkers := minWorkers s; lastTaskTime := lastTaskTime s;
     tasks := tasks s; workersMade := workersMade s; listeners := listeners s;
     waiting := waiting s; calls := calls s; trace := trace s |}.

Definition set_lastTaskTime (t : option Z) (s : State) : State :=
  {| pool := pool s; minWorkers := minWorkers s; lastTaskTime := t;
     tasks := tasks s; workersMade := workersMade s; listeners := listeners s;
     waiting := waiting s; calls := calls s; trace := trace s |}.

Definition set_tasks (t : list string) (s : State) : State :=
  {| pool := pool s; minWorkers := minWorkers s; lastTaskTime := lastTaskTime s;
     tasks := t; workersMade := workersMade s; listeners := listeners s;
     waiting := waiting s; calls := calls s; trace := trace s |}.

Definition set_workersMade (n : nat) (s : State) : State :=
  {| pool := pool s; minWorkers := minWorkers s; lastTaskTime := lastTaskTime s;
     tasks := tasks s; workersMade := n; listeners := listeners s;
     waiting := waiting s; calls := calls s; trace := trace s |}.

Definition set_listeners (l : list (nat * Listener)) (s : State) : State :=
  {| pool := pool s; minWorkers := minWorkers s; lastTaskTime := lastTaskTime s;
     tasks := tasks s; workersMade := workersMade s; listeners := l;
     waiting := waiting s; calls := calls s; trace := trace s |}.

Definition set_waiting (l : list Suspended) (s : State) : State :=
  {| pool := pool s; minWorkers := minWorkers s; lastTaskTime := lastTaskTime s;
     tasks := tasks s; workersMade := workersMade s; listeners := listeners s;
     waiting := l; calls := calls s; trace := trace s |}.

Definition set_calls (n : nat) (s : State) : State :=
  {| pool := pool s; minWorkers := minWorkers s; lastTaskTime := lastTaskTime s;
     tasks := tasks s; workersMade := workersMade s; listeners := listeners s;
     waiting := waiting s; calls := n; trace := trace s |}.

Definition emit (e : Effect) (s : State) : State :=
  {| pool := pool s; minWorkers := minWorkers s; lastTaskTime := lastTaskTime s;
     tasks := tasks s; workersMade := workersMade s; listeners := listeners s;
     waiting := waiting s; calls := calls s; trace := trace s ++ [e] |}.

Definition push (w : WorkerObject) (s : State) : State :=
  set_pool (pool s ++ [w]) s.

Definition on (w : nat) (l : Listener) (s : State) : State :=
  set_listeners (listeners s ++ [(w, l)]) s.

(** Has the promise of call [c] been settled already? *)
Definition settled (c : nat) (s : State) : bool :=
  existsb (fun e => match e with Settle c' _ => Nat.eqb c' c | _ => false end)
          (trace s).

Section Methods.

Variable cfg : Config.

(** [TaskManager.canExecuteTask], with [Date.now()] as [now]. *)
Definition canExecuteTask (now : Z) (s : State) : bool * State :=
  match lastTaskTime s with
  | None => (true, set_lastTaskTime (Some now) s)
  | Some last =>
      let timeSinceLastTask := (now - last)%Z in
      let canExecute := (idleThreshold cfg <=? timeSinceLastTask)%Z in
      (canExecute, if canExecute then set_lastTaskTime (Some now) s else s)
  end.

(** [buildPool]: the loop [for (i = 0; i < poolSize; i++)], with [n] the
    iterations left.  The result tells whether [resolve()] was reached: a
    [new Worker] that throws rejects the executor's own promise, which
    nothing awaits, and leaves the promise of [buildPool] pending. *)
Fixpoint buildPool_loop (n i : nat) (s : State) : State * bool :=
  match n with
  | O => (s, true)
  | S n' =>
      let w := workersMade s in
      let s := set_workersMade (S w) s in
      match newWorker cfg w with
      | Some e => (emit (Unhandled e) s, false)
      | None =>
          let workerId := ("-" ++ dec (i + 1) ++ "-")%string in
          let s := on w (HandleError workerId) (emit (NewWorker w) s) in
          buildPool_loop n' (S i) (push {| id := workerId; worker := w |} s)
      end
  end.

Definition buildPool (s : State) : State * bool :=
  buildPool_loop (poolSize cfg) 0 s.

(** [addNewWorkerToPool], up to the registration of its listeners. *)
Definition addNewWorkerToPool (s : State) : State :=
  if poolSize cfg <=? length (pool s) then s
  else
    let w := workersMade s in
    let s := set_workersMade (S w) s in
    match newWorker cfg w with
    | Some e => s
    | None =>
        let workerId := ("-" ++ dec (length (pool s) + 1) ++ "-")%string in
        on w CreationError
           (on w (OnlineOnce {| id := workerId; worker := w |})
               (emit (NewWorker w) s))
    end.

(** The 'online' listener of [addNewWorkerToPool]. *)
Definition onlineListener (workerItem : WorkerObject) (s : State) : State :=
  let s := emit (Log (LogWorkerCreated (id workerItem))) s in
  if length (pool s) <? poolSize cfg then push workerItem s else s.

Definition freeMemoryAvailable : jsnum :=
  js_div (js_div (of_bytes (freememAtLoad cfg)) (Fin (inject_Z 1024)))
         (Fin (inject_Z 1024)).

(** The string [memPercent] of [getMemPercent], [freemem] being what
    [os.freemem()] returns at the call. *)
Definition memPercent (freemem : Z) : fixed1 :=
  let freeMemory :=
    js_div (js_div (of_bytes freemem) (Fin (inject_Z 1024))) (Fin (inject_Z 1024)) in
  let memUsed := js_sub freeMemoryAvailable freeMemory in
  toFixed1 (js_mul (js_div memUsed freeMemoryAvailable) (Fin (inject_Z 100))).

Definition getMemPercent (freemem : Z) : completion jsval :=
  let memPercent := fixed1_to_number (memPercent freemem) in
  if js_gt memPercent (Fin (memThreshold cfg))
  then Throw (CustomError "Server capacity is low. Please try again later." 503)
  else Return (VBool (js_lt memPercent (Fin (memThreshold cfg)))).

Definition createLog (freeWorker_id : string) (s : State) : jsval * State :=
  let s := set_tasks (tasks s ++ [freeWorker_id]) s in
  (VObj [("worker", VStr freeWorker_id);
         ("poolLength", VStr (dec (length (pool s)) ++ " worker"));
         ("executed", VStr (dec (length (tasks s)) ++ " tasks"))]%string,
   s).

(** [this.pool.length > this.minWorkers]: a comparison with undefined is
    false. *)
Definition exceeds (len : nat) (m : option nat) : bool :=
  match m with
  | None => false
  | Some m => m <? len
  end.

Equations? terminateExcessWorkers (s : State) : State by wf (length (pool s)) lt :=
  terminateExcessWorkers s with inspect (exceeds (length (pool s)) (minWorkers s)) := {
    | exist _ false _ => s;
    | exist _ true _ with inspect (pop (pool s)) := {
        | exist _ None _ => s;
        | exist _ (Some (w, rest)) E =>
            terminateExcessWorkers
              (emit (Terminate (worker w))
                    (set_pool rest
                              (emit (Log (LogTerminateExcess (length (pool s)))) s))) } }.
Proof.
  simpl. unfold pop in E. destruct (rev (pool s)) as [|y t] eqn:R; [discriminate|].
  injection E as _ <-. rewrite length_rev, <- (length_rev (pool s)), R. simpl. lia.
Qed.

Equations? terminateAllWorkers (s : State) : State by wf (length (pool s)) lt :=
  terminateAllWorkers s with inspect (pop (pool s)) := {
    | exist _ None _ => s;
    | exist _ (Some (w, rest)) E =>
        terminateAllWorkers (emit (Terminate (worker w)) (set_pool rest s)) }.
Proof.
  simpl. unfold pop in E. destruct (rev (pool s)) as [|y t] eqn:R; [discriminate|].
  injection E as _ <-. rewrite length_rev, <- (length_rev (pool s)), R. simpl. lia.
Qed.

(** [run]'s [catch]: [{ status: err.status || 500, message: err.message ||
    'something went wrong' }]. *)
Definition catch_response (err : exn) : jsval :=
  let status :=
    match err_status err with
    | Some st => if (st =? 0)%Z then 500%Z else st
    | None => 500%Z
    end in
  let message :=
    if String.eqb (err_message err) "" then "something went wrong"%string
    else err_message err in
  VObj [("status", VNum (Fin (inject_Z status))); ("message", VStr message)]%string.

(** The end of [run], once [runTask] has returned [{ result }] or thrown:
    the object built by [try] or [catch], then [finally], then the promise
    of [run] resolves with the object. *)
Definition run_end (call : nat) (status : Z) (r : completion jsval) (s : State)
  : State :=
  let value :=
    match r with
    | Return result => VObj [("status", VNum (Fin (inject_Z status))); ("result", result)]%string
    | Throw err => catch_response err
    end in
  emit (Settle call value) (terminateExcessWorkers s).

(** [removeListener] for the two listeners of one [executeWorker] call. *)
Definition cleanup (x : Execution) (s : State) : State :=
  set_listeners
    (filter (fun wl =>
               match snd wl with
               | MessageListener y | ErrorListener y =>
                   negb (Nat.eqb (fst wl) (worker (x_worker x)) && Nat.eqb (x_call y) (x_call x))
               | _ => true
               end)
            (listeners s))
    s.

(** [executeWorker], up to [postMessage]; [post] is the message of what
    [postMessage] throws, if it does.  The guard on a handle without a
    usable worker is left out: every handle in [pool] holds a Worker
    object.  The result is the rejection made by the [catch], if any. *)
Definition executeWorker (x : Execution) (task : jsval) (post : option string)
           (s : State) : State * option exn :=
  let w := worker (x_worker x) in
  let s := on w (ErrorListener x) (on w (MessageListener x) s) in
  match post with
  | Some message =>
      (s, Some (Error ("Worker-" ++ id (x_worker x) ++ " failed to post task: " ++ message)%string))
  | None => (emit (PostMessage w task) s, None)
  end.

(** [runTask] from its start, or from [await this.buildPool()] on: the
    [while] test, then either another [buildPool] and suspension, or the
    rest of the body up to [await this.executeWorker(...)]. *)
Definition runTask (call : nat) (status : Z) (task : jsval) (freemem : Z)
           (post : option string) (s : State) : State :=
  match pool s with
  | [] =>
      let (s, resolved) := buildPool s in
      if resolved
      then set_waiting (waiting s ++ [{| w_call := call; w_status := status; w_task := task |}]) s
      else s
  | freeWorker :: rest =>
      let s := set_pool rest s in
      match getMemPercent freemem with
      | Throw err => run_end call status (Throw err) s
      | Return memStats =>
          let x := {| x_call := call; x_status := status;
                      x_worker := freeWorker; x_memStats := memStats |} in
          match executeWorker x task post s with
          | (s, Some err) => run_end call status (Throw err) s
          | (s, None) => s
          end
      end
  end.

(** [run], up to the first suspension. *)
Definition run (task : jsval) (now freemem : Z) (post : option string) (s : State)
  : State :=
  let call := calls s in
  let s := set_calls (S call) s in
  let (canExecute, s) := canExecuteTask now s in
  let status := if canExecute then 200%Z else 429%Z in
  runTask call status task freemem post s.

(** The continuation of the oldest suspended [runTask]. *)
Definition resume (freemem : Z) (post : option string) (s : State) : State :=
  match waiting s with
  | [] => s
  | c :: rest => runTask (w_call c) (w_status c) (w_task c) freemem post (set_waiting rest s)
  end.

(** [messageListener] of [executeWorker]; [resolve(data)] is the
    continuation [after_message], run once the listeners are done. *)
Definition messageListener (x : Execution) (s : State) : State :=
  let s := emit (Log (LogWorkerExecuted (id (x_worker x)))) s in
  let s := if length (pool s) <? poolSize cfg then push (x_worker x) s else s in
  cleanup x s.

(** [runTask] after [await this.executeWorker(...)] returned [data], and
    the end of [run].  The class body is strict code: setting a property on
    a value that is not an object throws a TypeError. *)
Definition after_message (x : Execution) (data : jsval) (s : State) : State :=
  if settled (x_call x) s then s
  else
    let (log, s) :=
      if returnLog cfg
      then let (log, s) := createLog (id (x_worker x)) s in (Some log, s)
      else (None, s) in
    match data with
    | VObj fields =>
        let fields := match log with Some l => set_field "log" l fields | None => fields end in
        let result := VObj (set_field "capacity" (x_memStats x) fields) in
        run_end (x_call x) (x_status x) (Return result) s
    | _ =>
        run_end (x_call x) (x_status x)
                (Throw (TypeError "Cannot create property on a value that is not an object")) s
    end.

(** [errorListener] of [executeWorker], and its [reject]. *)
Definition errorListener (x : Execution) (s : State) : State := cleanup x s.

Definition after_error (x : Execution) (error : string) (s : State) : State :=
  if settled (x_call x) s then s
  else
    run_end (x_call x) (x_status x)
            (Throw (Error ("Worker-" ++ id (x_worker x)
                           ++ " failed during task execution: " ++ error)%string))
            s.

(** The listeners registered on worker [w], in registration order. *)
Definition listeners_of (w : nat) (s : State) : list Listener :=
  map snd (filter (fun wl => Nat.eqb (fst wl) w) (listeners s)).

Definition message_executions (ls : list Listener) : list Execution :=
  flat_map (fun l => match l with MessageListener x => [x] | _ => [] end) ls.

(** The 'message' event of worker [w]: its listeners, then the
    continuations they resolved. *)
Definition on_message (w : nat) (data : jsval) (s : State) : State :=
  let xs := message_executions (listeners_of w s) in
  let s := fold_left (fun s x => messageListener x s) xs s in
  fold_left (fun s x => after_message x data s) xs s.

(** The 'error' event of worker [w]. *)
Definition on_error_listener (error : string) (s : State) (l : Listener) : State :=
  match l with
  | HandleError workerId => emit (Log (LogWorkerError workerId error)) s
  | ErrorListener x => errorListener x s
  | _ => s
  end.

Definition on_error_continue (error : string) (s : State) (l : Listener) : State :=
  match l with
  | ErrorListener x => after_error x error s
  | _ => s
  end.

Definition on_error (w : nat) (error : string) (s : State) : State :=
  let ls := listeners_of w s in
  let s := fold_left (on_error_listener error) ls s in
  fold_left (on_error_continue error) ls s.

(** The 'online' event of worker [w]; the listener was registered with
    [once]. *)
Definition on_online (w : nat) (s : State) : State :=
  let items :=
    flat_map (fun l => match l with OnlineOnce item => [item] | _ => [] end)
             (listeners_of w s) in
  let s :=
    set_listeners
      (filter (fun wl => match snd wl with
                         | OnlineOnce _ => negb (Nat.eqb (fst wl) w)
                         | _ => true
                         end)
              (listeners s))
      s in
  fold_left (fun s item => onlineListener item s) items s.

(** The state in which the constructor leaves a new pool; the call of
    [buildPool] is not awaited. *)
Definition empty : State :=
  {| pool := []; minWorkers := None; lastTaskTime := None; tasks := [];
     workersMade := 0; listeners := []; waiting := []; calls := 0; trace := [] |}.

Definition constructor : State := fst (buildPool empty).

(** What the event loop runs next. *)
Inductive Event :=
| Run (task : jsval) (now freemem : Z) (post : option string)  (* the host calls run(task) *)
| Resume (freemem : Z) (post : option string)  (* a suspended runTask continues *)
| Message (w : nat) (data : jsval)             (* worker w posts a result *)
| WorkerError (w : nat) (error : string)       (* worker w fails *)
| AddNewWorker                                 (* a call of addNewWorkerToPool *)
| Online (w : nat)                             (* worker w is up *)
| Exit.                                        (* process 'exit' *)

Definition Event_eq_Exit (e : Event) : {e = Exit} + {e <> Exit}.
Proof. destruct e; (left; reflexivity) || (right; discriminate). Defined.

Definition step (s : State) (e : Event) : State :=
  match e with
  | Run task now freemem post => run task now freemem post s
  | Resume freemem post => resume freemem post s
  | Message w data => on_message w data s
  | WorkerError w error => on_error w error s
  | AddNewWorker => addNewWorkerToPool s
  | Online w => on_online w s
  | Exit => terminateAllWorkers s
  end.

Definition steps (s : State) (es : list Event) : State := fold_left step es s.

(** The states the pool can be in. *)
Definition reachable (s : State) : Prop := exists es, s = steps constructor es.

End Methods.

End Index.

(** ** src/unnamed/part_001, first class *)

(** [array.find(f)], as the index of the element found: the code mutates
    the element through the reference [find] returns. *)
Fixpoint find_index {A : Type} (f : A -> bool) (l : list A) : option nat :=
  match l with
  | [] => None
  | x :: r => if f x then Some 0 else option_map S (find_index f r)
  end.

Fixpoint update {A : Type} (i : nat) (f : A -> A) (l : list A) : list A :=
  match l, i with
  | [], _ => []
  | x :: r, O => f x :: r
  | x :: r, S j => x :: update j f r
  end.

Module Queued.

(** An element of [this.pool].  [resolve] holds the number of the promise
    whose resolve function it is; None is undefined or null. *)
Record WorkerItem := {
  id : string;
  worker : nat;
  busy : bool;
  resolve : option nat;
  reject : option nat;
  startTime : option Z;
  taskId : jsval
}.

(** An element of [this.taskQueue]: [{ task, taskId, resolve, reject }],
    the last two being the functions of one promise of [run]. *)
Record Entry := {
  e_task : jsval;
  e_taskId : jsval;
  e_resolve : nat;
  e_reject : nat
}.

Record Config := {
  poolSize : nat;
  returnLog : bool;
  newWorker : nat -> option exn (* what the n-th [new Worker] throws, if it does *)
}.

Inductive LogLine :=
| LogCreated (workerId : string)
| LogWorkerError (workerId : string) (error : string)
| LogBuildFailed (error : exn)
| LogProcessingCompleted (workerId : string)
| LogCompleted (workerId : string) (taskId : jsval) (executionTime : jsnum)
| LogResolved (workerId : string)
| LogAssigning (taskId : jsval) (workerId : string) (queueLeft : nat)
| LogTerminating (workerId : string).

Inductive Effect :=
| NewWorker (w : nat)
| PostMessage (w : nat) (task taskId : jsval) (thrown : option string)
| Terminate (w : nat)
| Resolve (promise : nat) (value : jsval)
| Reject (promise : nat) (reason : exn)
| Log (line : LogLine).

(** [buildPool] suspended in iteration [b_i] at [await
    this.addWorkerToPool()], whose worker is not online yet. *)
Record Build := { b_i : nat; b_worker : nat; b_workerId : string }.

Record State := {
  pool : list WorkerItem;
  taskQueue : list Entry;
  workersMade : nat;              (* evaluations of [new Worker] so far *)
  created : list (nat * string);  (* the workers made, each with the workerId
                                     its 'message' and 'error' listeners hold *)
  building : option Build;
  promises : nat;                 (* calls of [run] so far *)
  trace : list Effect
}.

Definition set_pool (p : list WorkerItem) (s : State) : State :=
  {| pool := p; taskQueue := taskQueue s; workersMade := workersMade s;
     created := created s; building := building s; promises := promises s;
     trace := trace s |}.

Definition set_taskQueue (q : list Entry) (s : State) : State :=
  {| pool := pool s; taskQueue := q; workersMade := workersMade s;
     created := created s; building := building s; promises := promises s;
     trace := trace s |}.

Definition set_building (b : option Build) (s : State) : State :=
  {| pool := pool s; taskQueue := taskQueue s; workersMade := workersMade s;
     created := created s; building := b; promises := promises s;
     trace := trace s |}.

Definition set_promises (n : nat) (s : State) : State :=
  {| pool := pool s; taskQueue := taskQueue s; workersMade := workersMade s;
     created := created s; building := building s; promises := n;
     trace := trace s |}.

Definition emit (e : Effect) (s : State) : State :=
  {| pool := pool s; taskQueue := taskQueue s; workersMade := workersMade s;
     created := created s; building := building s; promises := promises s;
     trace := trace s ++ [e] |}.

Definition log (on : bool) (l : LogLine) (s : State) : State :=
  if on then emit (Log l) s else s.

(** Was promise [p] resolved or rejected already? *)
Definition settled (p : nat) (s : State) : bool :=
  existsb (fun e => match e with
                    | Resolve q _ | Reject q _ => Nat.eqb q p
                    | _ => false
                    end)
          (trace s).

(** Calling a promise's resolve or reject function: only the first call
    settles the promise. *)
Definition call_resolve (p : nat) (v : jsval) (s : State) : State :=
  if settled p s then s else emit (Resolve p v) s.

Definition call_reject (p : nat) (e : exn) (s : State) : State :=
  if settled p s then s else emit (Reject p e) s.

Section Methods.

Variable cfg : Config.

(** [addWorkerToPool], called in iteration [i] of [buildPool], up to the
    registration of the listeners.  When [new Worker] throws, the promise
    is rejected and the [catch] of [buildPool] logs and ends the method. *)
Definition addWorkerToPool (i : nat) (s : State) : State :=
  let w := workersMade s in
  let s := {| pool := pool s; taskQueue := taskQueue s; workersMade := S w;
              created := created s; building := None; promises := promises s;
              trace := trace s |} in
  match newWorker cfg w with
  | Some error =>
      emit (Log (LogBuildFailed
                   (Error ("Failed to create worker: " ++ err_message error)%string))) s
  | None =>
      let workerId := ("Worker-" ++ dec (length (pool s) + 1))%string in
      let s := log (returnLog cfg) (LogCreated workerId) (emit (NewWorker w) s) in
      {| pool := pool s; taskQueue := taskQueue s; workersMade := workersMade s;
         created := created s ++ [(w, workerId)];
         building := Some {| b_i := i; b_worker := w; b_workerId := workerId |};
         promises := promises s; trace := trace s |}
  end.

(** [buildPool] at the test [i < this.poolSize]. *)
Definition buildPool_from (i : nat) (s : State) : State :=
  if i <? poolSize cfg then addWorkerToPool i s else set_building None s.

(** The 'online' event of worker [w]: the [once] listener pushes the item
    and resolves, and [buildPool] goes on with its next iteration. *)
Definition on_online (w : nat) (s : State) : State :=
  match building s with
  | Some b =>
      if Nat.eqb (b_worker b) w
      then
        let item := {| id := b_workerId b; worker := w; busy := false;
                       resolve := None; reject := None; startTime := None;
                       taskId := VUndefined |} in
        buildPool_from (S (b_i b)) (set_pool (pool s ++ [item]) s)
      else s
  | None => s
  end.

(** [assignTasks]; [post] is the message of what [postMessage] throws, if it
    does.  The result carries the exception that leaves the method. *)
Definition assignTasks (now : Z) (post : option string) (s : State)
  : State * option exn :=
  match find_index (fun w => negb (busy w)) (pool s), taskQueue s with
  | Some i, e :: rest =>
      let s := set_taskQueue rest s in
      let s :=
        set_pool
          (update i (fun freeWorker =>
                       {| id := id freeWorker; worker := worker freeWorker;
                          busy := true; resolve := Some (e_resolve e);
                          reject := reject freeWorker; startTime := Some now;
                          taskId := e_taskId e |})
                  (pool s))
          s in
      let freeWorker := nth i (pool s) {| id := ""; worker := 0; busy := false;
                                           resolve := None; reject := None;
                                           startTime := None; taskId := VUndefined |} in
      let s := log (returnLog cfg)
                   (LogAssigning (e_taskId e) (id freeWorker) (length (taskQueue s))) s in
      let s := emit (PostMessage (worker freeWorker) (e_task e) (e_taskId e) post) s in
      (s, option_map (fun m => Error m) post)
  | _, _ => (s, None)
  end.

(** [run]: the executor of the promise; an exception that leaves it
    rejects the promise. *)
Definition run (task taskId : jsval) (now : Z) (post : option string) (s : State)
  : State :=
  let p := promises s in
  let s := set_promises (S p) s in
  let s := set_taskQueue
             (taskQueue s ++ [{| e_task := task; e_taskId := taskId;
                                 e_resolve := p; e_reject := p |}]) s in
  match assignTasks now post s with
  | (s, Some err) => call_reject p err s
  | (s, None) => s
  end.

(** [handleWorkerResult], for the item at index [i] of the pool, up to the
    call of [assignTasks].  Nothing in the [try] block throws, so its
    [catch] is left out. *)
Definition release (i : nat) (result : jsval) (workerId : string) (now : Z)
           (s : State) : State :=
  let s := set_pool
             (update i (fun it =>
                          {| id := id it; worker := worker it; busy := false;
                             resolve := resolve it; reject := reject it;
                             startTime := startTime it; taskId := taskId it |})
                     (pool s)) s in
  let s := log (returnLog cfg) (LogProcessingCompleted workerId) s in
  let workerItem := nth i (pool s) {| id := ""; worker := 0; busy := false;
                                      resolve := None; reject := None;
                                      startTime := None; taskId := VUndefined |} in
  match resolve workerItem with
  | Some p =>
      let executionTime :=
        match startTime workerItem with
        | Some t => Fin (inject_Z (now - t))
        | None => NaN
        end in
      let response :=
        if returnLog cfg
        then VObj [("result", result);
                   ("log", VObj [("workerId", VStr workerId);
                                 ("messageListenerCount", VNum (Fin (inject_Z 1)));
                                 ("taskId", taskId workerItem);
                                 ("executionTime", VNum executionTime)])]%string
        else VObj [("result", result)]%string in
      let s := log (returnLog cfg)
                   (LogCompleted workerId (taskId workerItem) executionTime) s in
      let s := call_resolve p response s in
      let s := log (returnLog cfg) (LogResolved workerId) s in
      set_pool
        (update i (fun it =>
                     {| id := id it; worker := worker it; busy := busy it;
                        resolve := None; reject := None;
                        startTime := startTime it; taskId := taskId it |})
                (pool s)) s
  | None => s
  end.

(** [handleWorkerResult]: the item is the one [find] returns for the
    worker; without one, [workerItem.busy = false] throws. *)
Definition handleWorkerResult (w : nat) (result : jsval) (workerId : string)
           (now : Z) (post : option string) (s : State) : State * option exn :=
  match find_index (fun it => Nat.eqb (worker it) w) (pool s) with
  | None => (s, Some (TypeError "Cannot set properties of undefined (setting 'busy')"))
  | Some i => assignTasks now post (release i result workerId now s)
  end.

(** The 'message' event of worker [w]. *)
Definition on_message (w : nat) (result : jsval) (now : Z) (post : option string)
           (s : State) : State * option exn :=
  match find (fun c => Nat.eqb (fst c) w) (created s) with
  | Some (_, workerId) => handleWorkerResult w result workerId now post s
  | None => (s, None)
  end.

(** The 'error' event of worker [w]. *)
Definition on_error (w : nat) (error : string) (s : State) : State :=
  match find (fun c => Nat.eqb (fst c) w) (created s) with
  | Some (_, workerId) => emit (Log (LogWorkerError workerId error)) s
  | None => s
  end.

Definition terminateAllWorkers (s : State) : State :=
  set_pool []
    (fold_left (fun s it =>
                  emit (Terminate (worker it))
                       (log (returnLog cfg) (LogTerminating (id it)) s))
               (pool s) s).

Definition empty : State :=
  {| pool := []; taskQueue := []; workersMade := 0; created := [];
     building := None; promises := 0; trace := [] |}.

(** The constructor calls [buildPool] and does not await it. *)
Definition constructor : State := buildPool_from 0 empty.

Inductive Event :=
| Run (task taskId : jsval) (now : Z) (post : option string)
| Online (w : nat)
| Message (w : nat) (result : jsval) (now : Z) (post : option string)
| WorkerError (w : nat) (error : string)
| Exit.

(** One event; the exception, if any, is one that nothing catches. *)
Definition step (s : State) (e : Event) : State * option exn :=
  match e with
  | Run task taskId now post => (run task taskId now post s, None)
  | Online w => (on_online w s, None)
  | Message w result now post => on_message w result now post s
  | WorkerError w error => (on_error w error s, None)
  | Exit => (terminateAllWorkers s, None)
  end.

(** A run of the event loop; it ends at an uncaught exception. *)
Fixpoint steps (s : State) (es : list Event) : State * option exn :=
  match es with
  | [] => (s, None)
  | e :: rest =>
      match step s e with
      | (s', None) => steps s' rest
      | crash => crash
      end
  end.

Definition reachable (s : State) : Prop :=
  exists es, steps constructor es = (s, None).

End Methods.

End Queued.

(** ** src/unnamed/part_001, second class *)

(** [parseInt] of a string that [toFixed(1)] produced: the integer part of
    the decimal; "NaN" and "Infinity" do not start with a digit. *)
Definition parseInt_fixed1 (f : fixed1) : jsnum :=
  match f with
  | FxDec t => Fin (inject_Z (Z.quot t 10))
  | _ => NaN
  end.

(** [x.toFixed(2)], for the magnitudes this program formats (below 1e21). *)
Definition round_hundredths (q : Q) : Z :=
  ((2 * 100 * Z.abs (Qnum q) + Z.pos (Qden q)) / (2 * Z.pos (Qden q)))%Z.

Definition two_digits (n : nat) : string :=
  if n <? 10 then ("0" ++ dec n)%string else dec n.

Definition toFixed2 (x : jsnum) : string :=
  match x with
  | NaN => "NaN"
  | Inf s => if s then "-Infinity" else "Infinity"
  | Fin q =>
      let h := Z.to_nat (round_hundredths q) in
      ((if Qlt_bool q 0 then "-" else "")
         ++ dec (h / 100) ++ "." ++ two_digits (h mod 100))%string
  end.

(** The class takes the worker at [workerIndex] for every call and leaves
    it in the pool; [nextWorker] moves the index on once the worker has five
    'message' listeners.  [deleteWorkerFromPool] is left out: nothing calls
    it (its only call is in a comment). *)
Module RoundRobin.

Record WorkerObject := { id : string; worker : nat }.

Record Config := {
  poolSize : nat;
  returnLog : bool;
  totalMem : Z;                     (* os.totalmem() when the module is loaded *)
  newWorker : nat -> option exn     (* what the n-th [new Worker] throws, if it does *)
}.

Definition maxListener : nat := 11.

(** Who awaits a call of [addWorkerToPool]. *)
Inductive Waiter :=
| BuildLoop (i : nat)                   (* [buildPool], in iteration [i] *)
| RunCall (call : nat) (task : jsval).  (* [run], at its first line *)

(** A worker made by [addWorkerToPool], with the state of the listeners and
    of the promise of that call. *)
Record Creation := {
  c_worker : nat;
  c_workerId : string;
  c_waiter : Waiter;
  c_online : bool;     (* the [once('online')] listener is still registered *)
  c_settled : bool     (* the promise is resolved or rejected *)
}.

(** Where a call of [run] that has chosen its worker is suspended. *)
Inductive Stage :=
| AfterMem                  (* at [await this.checkMemCapacity()] *)
| AfterNext                 (* at [await this.nextWorker()] *)
| Executing                 (* at [await this.executeWorker(...)], its
                               'message' listener being registered *)
| Resolved (data : jsval).  (* [executeWorker] resolved with [data] *)

Record Call := {
  k_call : nat;
  k_task : jsval;
  k_id : string;
  k_worker : nat;
  k_freeMemPercentage : jsnum;
  k_stage : Stage
}.

Inductive LogLine :=
| LogError (error : exn)            (* [console.log(error)] in [run] *)
| LogExceeded (workerId : string).  (* the [console.warn] of [executeWorker] *)

Inductive Effect :=
| NewWorker (w : nat)
| PostMessage (w : nat) (task : jsval)
| Terminate (w : nat)
| Resolve (call : nat) (value : jsval)
| Reject (call : nat) (reason : exn)
| Unhandled (e : exn)                   (* a rejection nothing awaits *)
| Log (line : LogLine).

Record State := {
  pool : list WorkerObject;
  workerIndex : nat;
  workersMade : nat;            (* evaluations of [new Worker] so far *)
  creations : list Creation;
  suspended : list Call;
  calls : nat;                  (* calls of [run] so far *)
  trace : list Effect
}.

Definition set_pool (p : list WorkerObject) (s : State) : State :=
  {| pool := p; workerIndex := workerIndex s; workersMade := workersMade s;
     creations := creations s; suspended := suspended s; calls := calls s;
     trace := trace s |}.

Definition set_workerIndex (i : nat) (s : State) : State :=
  {| pool := pool s; workerIndex := i; workersMade := workersMade s;
     creations := creations s; suspended := suspended s; calls := calls s;
     trace := trace s |}.

Definition set_workersMade (n : nat) (s : State) : State :=
  {| pool := pool s; workerIndex := workerIndex s; workersMade := n;
     creations := creations s; suspended := suspended s; calls := calls s;
     trace := trace s |}.

Definition set_creations (l : list Creation) (s : State) : State :=
  {| pool := pool s; workerIndex := workerIndex s; workersMade := workersMade s;
     creations := l; suspended := suspended s; calls := calls s;
     trace := trace s |}.

Definition set_suspended (l : list Call) (s : State) : State :=
  {| pool := pool s; workerIndex := workerIndex s; workersMade := workersMade s;
     creations := creations s; suspended := l; calls := calls s;
     trace := trace s |}.

Definition set_calls (n : nat) (s : State) : State :=
  {| pool := pool s; workerIndex := workerIndex s; workersMade := workersMade s;
     creations := creations s; suspended := suspended s; calls := n;
     trace := trace s |}.

Definition emit (e : Effect) (s : State) : State :=
  {| pool := pool s; workerIndex := workerIndex s; workersMade := workersMade s;
     creations := creations s; suspended := suspended s; calls := calls s;
     trace := trace s ++ [e] |}.

Definition set_stage (st : Stage) (k : Call) : Call :=
  {| k_call := k_call k; k_task := k_task k; k_id := k_id k; k_worker := k_worker k;
     k_freeMemPercentage := k_freeMemPercentage k; k_stage := st |}.

Definition is_executing (w : nat) (k : Call) : bool :=
  Nat.eqb (k_worker k) w && match k_stage k with Executing => true | _ => false end.

(** [worker.listenerCount('message')]: the class registers 'message'
    listeners in [executeWorker] only, one for each call that waits there. *)
Definition listenerCount (w : nat) (s : State) : nat :=
  length (filter (is_executing w) (suspended s)).

Section Methods.

Variable cfg : Config.

(** [checkMemCapacity], [freemem] being what [os.freemem()] returns; the
    test against [minPercentage] guards a comment only. *)
Definition checkMemCapacity (freemem : Z) : jsnum :=
  parseInt_fixed1
    (toFixed1 (js_mul (js_div (of_bytes freemem) (of_bytes (totalMem cfg)))
                      (Fin (inject_Z 100)))).

(** [nextWorker]. *)
Definition nextWorker (s : State) : State :=
  let i := S (workerIndex s) in
  set_workerIndex (if length (pool s) <=? i then 0 else i) s.

(** [run] from [const workerFromPool = this.pool[this.workerIndex]] to
    [await this.checkMemCapacity()].  Destructuring undefined throws a
    TypeError, outside the [try]. *)
Definition select (call : nat) (task : jsval) (freemem : Z) (s : State) : State :=
  match nth_error (pool s) (workerIndex s) with
  | None =>
      emit (Reject call
              (TypeError "Cannot destructure property 'id' of 'workerFromPool' as it is undefined."))
           s
  | Some workerFromPool =>
      set_suspended
        (suspended s
           ++ [{| k_call := call; k_task := task; k_id := id workerFromPool;
                  k_worker := worker workerFromPool;
                  k_freeMemPercentage := checkMemCapacity freemem;
                  k_stage := AfterMem |}])
        s
  end.

(** The waiter of a call of [addWorkerToPool] that rejected with [err]:
    [buildPool] catches and throws its own error, which nothing awaits;
    [run] awaits outside its [try]. *)
Definition rejected (waiter : Waiter) (err : exn) (s : State) : State :=
  match waiter with
  | BuildLoop _ =>
      emit (Unhandled (CustomError "buildPool failed. Please try again later." 503)) s
  | RunCall call _ => emit (Reject call err) s
  end.

(** [addWorkerToPool], up to the registration of its listeners. *)
Definition addWorkerToPool (waiter : Waiter) (s : State) : State :=
  let w := workersMade s in
  let s := set_workersMade (S w) s in
  match newWorker cfg w with
  | Some error => rejected waiter (CustomError (err_message error) 300) s
  | None =>
      let workerId := ("-" ++ dec (length (pool s) + 1) ++ "-")%string in
      set_creations
        (creations s
           ++ [{| c_worker := w; c_workerId := workerId; c_waiter := waiter;
                  c_online := true; c_settled := false |}])
        (emit (NewWorker w) s)
  end.

(** [buildPool] at the test [i < this.poolSize]. *)
Definition buildPool_from (i : nat) (s : State) : State :=
  if i <? poolSize cfg then addWorkerToPool (BuildLoop i) s else s.

(** The waiter of a call of [addWorkerToPool] that resolved. *)
Definition resolved (waiter : Waiter) (freemem : Z) (s : State) : State :=
  match waiter with
  | BuildLoop i => buildPool_from (S i) s
  | RunCall call task => select call task freemem s
  end.

(** [run], up to its first suspension. *)
Definition run (task : jsval) (freemem : Z) (s : State) : State :=
  let call := calls s in
  let s := set_calls (S call) s in
  if Nat.eqb (length (pool s)) 0
  then addWorkerToPool (RunCall call task) s
  else select call task freemem s.

(** The [catch] of [run]. *)
Definition run_catch (error : exn) : exn :=
  CustomError
    (if String.eqb (err_message error) "" then "something went wrong"%string
     else err_message error)
    (match err_status error with
     | Some st => if (st =? 0)%Z then 503%Z else st
     | None => 503%Z
     end).

Definition replace_call (k : Call) (s : State) : State :=
  set_suspended
    (map (fun k' => if Nat.eqb (k_call k') (k_call k) then k else k') (suspended s)) s.

Definition remove_call (call : nat) (s : State) : State :=
  set_suspended (filter (fun k => negb (Nat.eqb (k_call k) call)) (suspended s)) s.

(** [executeWorker] and what follows it in [run] when [postMessage]
    throws; [post] is the message of what it throws, if it does. *)
Definition executeWorker (k : Call) (post : option string) (s : State) : State :=
  match post with
  | Some message =>
      let error :=
        Error ("Worker-" ++ k_id k ++ " failed to post task: " ++ message)%string in
      emit (Reject (k_call k) (run_catch error))
           (emit (Log (LogError error)) (remove_call (k_call k) s))
  | None =>
      emit (PostMessage (k_worker k) (k_task k)) (replace_call (set_stage Executing k) s)
  end.

(** A call of [run] continues after an [await] that did not wait for a
    worker. *)
Definition continue (call : nat) (post : option string) (s : State) : State :=
  match find (fun k => Nat.eqb (k_call k) call) (suspended s) with
  | Some k =>
      match k_stage k with
      | AfterMem =>
          let messageListenerCount := listenerCount (k_worker k) s in
          if 5 <=? messageListenerCount
          then replace_call (set_stage AfterNext k) (nextWorker s)
          else executeWorker k post s
      | AfterNext => executeWorker k post s
      | _ => s
      end
  | None => s
  end.

(** The 'message' event of worker [w]: every listener registered at the
    event is called with [data].  The first one finds the count of the
    others at or above the maximum, or none does. *)
Definition on_message (w : nat) (data : jsval) (s : State) : State :=
  let s :=
    match find (is_executing w) (suspended s) with
    | Some k =>
        if maxListener <=? listenerCount w s - 1
        then emit (Log (LogExceeded (k_id k))) s
        else s
    | None => s
    end in
  set_suspended
    (map (fun k => if is_executing w k then set_stage (Resolved data) k else k)
         (suspended s))
    s.

(** [createLog]; [rss] and [heapUsed] are those of [process.memoryUsage()]. *)
Definition createLog (freeWorker_id : string) (freeMemPercentage : jsnum)
           (rss heapUsed : Z) (s : State) : jsval :=
  let MB (bytes : Z) :=
    (toFixed2 (js_div (js_div (of_bytes bytes) (Fin (inject_Z 1024)))
                      (Fin (inject_Z 1024))) ++ " MB")%string in
  VObj [("worker", VStr freeWorker_id);
        ("poolLength", VStr (dec (length (pool s)) ++ " worker"));
        ("RSS", VStr (MB rss));
        ("heapUsed", VStr (MB heapUsed));
        ("freeMemPercentage", VNum freeMemPercentage)]%string.

(** [run] after [await this.executeWorker(...)]. *)
Definition finish (call : nat) (rss heapUsed : Z) (s : State) : State :=
  match find (fun k => Nat.eqb (k_call k) call) (suspended s) with
  | Some k =>
      match k_stage k with
      | Resolved result =>
          let value :=
            if returnLog cfg
            then VObj [("result", result);
                       ("log", createLog (k_id k) (k_freeMemPercentage k) rss heapUsed s)]%string
            else VObj [("result", result)]%string in
          emit (Resolve call value) (remove_call call s)
      | _ => s
      end
  | None => s
  end.

Definition update_creation (w : nat) (f : Creation -> Creation) (s : State) : State :=
  set_creations
    (map (fun c => if Nat.eqb (c_worker c) w then f c else c) (creations s)) s.

(** The 'online' event of worker [w]. *)
Definition on_online (w : nat) (freemem : Z) (s : State) : State :=
  match find (fun c => Nat.eqb (c_worker c) w) (creations s) with
  | Some c =>
      if c_online c
      then
        let workerItem := {| id := c_workerId c; worker := w |} in
        let s := set_pool (pool s ++ [workerItem]) s in
        let s := update_creation w
                   (fun c => {| c_worker := c_worker c; c_workerId := c_workerId c;
                                c_waiter := c_waiter c; c_online := false;
                                c_settled := true |}) s in
        if c_settled c then s else resolved (c_waiter c) freemem s
      else s
  | None => s
  end.

(** The 'error' event of worker [w]; [error] is [error.message]. *)
Definition on_error (w : nat) (error : string) (s : State) : State :=
  match find (fun c => Nat.eqb (c_worker c) w) (creations s) with
  | Some c =>
      if c_settled c then s
      else
        rejected (c_waiter c) (CustomError error 300)
                 (update_creation w
                    (fun c => {| c_worker := c_worker c; c_workerId := c_workerId c;
                                 c_waiter := c_waiter c; c_online := c_online c;
                                 c_settled := true |}) s)
  | None => s
  end.

Equations? terminateAllWorkers (s : State) : State by wf (length (pool s)) lt :=
  terminateAllWorkers s with inspect (pop (pool s)) := {
    | exist _ None _ => s;
    | exist _ (Some (w, rest)) E =>
        terminateAllWorkers (emit (Terminate (worker w)) (set_pool rest s)) }.
Proof.
  simpl. unfold pop in E. destruct (rev (pool s)) as [|y t] eqn:R; [discriminate|].
  injection E as _ <-. rewrite length_rev, <- (length_rev (pool s)), R. simpl. lia.
Qed.

Definition empty : State :=
  {| pool := []; workerIndex := 0; workersMade := 0; creations := [];
     suspended := []; calls := 0; trace := [] |}.

(** The constructor: [buildPool] is called without [await], so the [try]
    around the call catches nothing. *)
Definition constructor : State := buildPool_from 0 empty.

Inductive Event :=
| Run (task : jsval) (freemem : Z)        (* the host calls run(task) *)
| Continue (call : nat) (post : option string)
| Message (w : nat) (data : jsval)
| Finish (call : nat) (rss heapUsed : Z)  (* a call continues after its result *)
| Online (w : nat) (freemem : Z)
| WorkerError (w : nat) (error : string)
| Exit.

Definition step (s : State) (e : Event) : State :=
  match e with
  | Run task freemem => run task freemem s
  | Continue call post => continue call post s
  | Message w data => on_message w data s
  | Finish call rss heapUsed => finish call rss heapUsed s
  | Online w freemem => on_online w freemem s
  | WorkerError w error => on_error w error s
  | Exit => terminateAllWorkers s
  end.

Definition steps (s : State) (es : list Event) : State := fold_left step es s.

End Methods.

End RoundRobin.

(** ** src/unnamed/part_000: the capacity check before the threshold was
    made a parameter *)

Module Earlier.

(** [getMemPercent] of the class shown in part_000: [memPercent] is
    computed as in src/index.js, the limit above which it throws is the
    literal 90, and the value returned compares with [memThreshold]. *)
Definition getMemPercent (cfg : Index.Config) (freemem : Z) : completion jsval :=
  let memPercent := fixed1_to_number (Index.memPercent cfg freemem) in
  if js_gt memPercent (Fin (inject_Z 90))
  then Throw (CustomError "Server capacity is low. Please try again later." 503)
  else Return (VBool (js_lt memPercent (Fin (Index.memThreshold cfg)))).

End Earlier.

(** ** Observations on the models *)

(** The workers on which src/index.js called [terminate], in order. *)
Definition terminations (s : Index.State) : list nat :=
  flat_map (fun e => match e with Index.Terminate w => [w] | _ => [] end)
           (Index.trace s).

(** The Worker objects src/index.js made, in order. *)
Definition creations (s : Index.State) : list nat :=
  flat_map (fun e => match e with Index.NewWorker w => [w] | _ => [] end)
           (Index.trace s).

(** The tasks src/index.js posted to workers, in order. *)
Definition posts (s : Index.State) : list (nat * jsval) :=
  flat_map (fun e => match e with Index.PostMessage w t => [(w, t)] | _ => [] end)
           (Index.trace s).

(** A step of src/index.js that leaves [minWorkers] undefined, calls
    [terminate] on nothing and keeps the pool within [poolSize]. *)
Definition keeps (cfg : Index.Config) (s s' : Index.State) : Prop :=
  Index.minWorkers s = None ->
  Index.minWorkers s' = None /\
  terminations s' = terminations s /\
  (length (Index.pool s) <= Index.poolSize cfg ->
   length (Index.pool s') <= Index.poolSize cfg).

(** A step of src/index.js that neither changes the pool nor makes,
    terminates or posts to a worker. *)
Definition quiet (s s' : Index.State) : Prop :=
  Index.minWorkers s = None ->
  Index.minWorkers s' = None /\
  Index.pool s' = Index.pool s /\
  Index.workersMade s' = Index.workersMade s /\
  creations s' = creations s /\
  terminations s' = terminations s /\
  posts s' = posts s.

(** What the 'error' event of a worker makes src/index.js do to the
    outside: log lines, and promises of [run] resolved with status 500. *)
Definition failure_effect (e : Index.Effect) : Prop :=
  match e with
  | Index.Log _ => True
  | Index.Settle _ (VObj fields) =>
      get_field "status" fields = VNum (Fin (inject_Z 500))
  | _ => False
  end.

(** A step that adds only such effects. *)
Definition fails_only (s s' : Index.State) : Prop :=
  Index.minWorkers s = None ->
  Index.minWorkers s' = None /\
  exists t, Index.trace s' = Index.trace s ++ t /\ Forall failure_effect t.



(** A pool of two workers on a machine that had 8 GiB free when the module
    was loaded, with the default threshold. *)
Definition two_workers : Index.Config :=
  {| Index.poolSize := 2; Index.memThreshold := inject_Z 90;
     Index.returnLog := true; Index.freememAtLoad := 8589934592;
     Index.idleThreshold := 100; Index.newWorker := fun _ => None |}.

(** The entries a list of effects hands to [postMessage], in order. *)
Definition dispatched_in (t : list Queued.Effect) : list (jsval * jsval) :=
  flat_map (fun e => match e with
                     | Queued.PostMessage _ task taskId _ => [(task, taskId)]
                     | _ => []
                     end)
           t.

(** The entries the queued class handed to [postMessage], in order. *)
Definition dispatched (s : Queued.State) : list (jsval * jsval) :=
  dispatched_in (Queued.trace s).

(** Effects that settle or log, and post nothing. *)
Definition no_post (e : Queued.Effect) : Prop :=
  match e with
  | Queued.Log _ | Queued.Resolve _ _ | Queued.Reject _ _ => True
  | _ => False
  end.

(** The entries waiting in [taskQueue], head first. *)
Definition queued (s : Queued.State) : list (jsval * jsval) :=
  map (fun e => (Queued.e_task e, Queued.e_taskId e)) (Queued.taskQueue s).

(** The tasks the calls of [run] among the events submit, in order. *)
Definition submitted (es : list Queued.Event) : list (jsval * jsval) :=
  flat_map (fun e => match e with
                     | Queued.Run task taskId _ _ => [(task, taskId)]
                     | _ => []
                     end)
           es.

(** No worker of the pool is idle. *)
Definition saturated (s : Queued.State) : Prop :=
  forallb Queued.busy (Queued.pool s) = true.

(** A call [run(task, taskId)], with the time and the behaviour of
    [postMessage] at the call. *)
Definition submission : Type := jsval * jsval * Z * option string.

Definition submit (x : submission) : Queued.Event :=
  match x with (task, taskId, now, post) => Queued.Run task taskId now post end.

Definition task_of (x : submission) : jsval * jsval :=
  match x with (task, taskId, _, _) => (task, taskId) end.

(** The effects a step added. *)
Definition new_effects (s s' : Queued.State) : list Queued.Effect :=
  skipn (length (Queued.trace s)) (Queued.trace s').

(** The workers a list of effects posts to. *)
Definition posted_to (t : list Queued.Effect) : list nat :=
  flat_map (fun e => match e with Queued.PostMessage w _ _ _ => [w] | _ => [] end) t.

(** The [busy] flag of the pool's item for worker [w]. *)
Definition busy_of (w : nat) (s : Queued.State) : option bool :=
  option_map Queued.busy
             (find (fun it => Nat.eqb (Queued.worker it) w) (Queued.pool s)).

Definition workers (s : Queued.State) : list nat :=
  map Queued.worker (Queued.pool s).

(** What holds of the queued class in every state it can be in: the
    workers in the pool are distinct Worker objects, and a [buildPool] in
    iteration [i] has put at most [i] workers in the pool. *)
Definition queued_inv (cfg : Queued.Config) (s : Queued.State) : Prop :=
  NoDup (workers s) /\
  Forall (fun w => w < Queued.workersMade s) (workers s) /\
  match Queued.building s with
  | Some b =>
      Queued.b_worker b < Queued.workersMade s /\
      ~ In (Queued.b_worker b) (workers s) /\
      Queued.b_i b < Queued.poolSize cfg /\
      length (workers s) <= Queued.b_i b
  | None => length (workers s) <= Queued.poolSize cfg
  end.

(** The pool item of a worker after [assignTasks] gave it entry [e]. *)
Definition assigned (e : Queued.Entry) (now : Z) (freeWorker : Queued.WorkerItem)
  : Queued.WorkerItem :=
  {| Queued.id := Queued.id freeWorker; Queued.worker := Queued.worker freeWorker;
     Queued.busy := true; Queued.resolve := Some (Queued.e_resolve e);
     Queued.reject := Queued.reject freeWorker; Queued.startTime := Some now;
     Queued.taskId := Queued.e_taskId e |}.

(** Events other than a worker's result. *)
Definition not_message (e : Queued.Event) : bool :=
  match e with
  | Queued.Message _ _ _ _ => false
  | _ => true
  end.

(** Effects that settle no promise. *)
Definition settles_nothing (e : Queued.Effect) : Prop :=
  match e with
  | Queued.Resolve _ _ | Queued.Reject _ _ => False
  | _ => True
  end.

(** One worker, in the queued class. *)
Definition one_queued_worker : Queued.Config :=
  {| Queued.poolSize := 1; Queued.returnLog := false;
     Queued.newWorker := fun _ => None |}.

Definition is_log (e : Queued.Effect) : Prop :=
  match e with Queued.Log _ => True | _ => False end.

(** Pools of three in which the second [new Worker] throws. *)
Definition second_fails (n : nat) : option exn :=
  if Nat.eqb n 1 then Some (Error "spawn failed") else None.

Definition three_queued_workers : Queued.Config :=
  {| Queued.poolSize := 3; Queued.returnLog := false;
     Queued.newWorker := second_fails |}.

Definition three_workers : Index.Config :=
  {| Index.poolSize := 3; Index.memThreshold := inject_Z 90;
     Index.returnLog := true; Index.freememAtLoad := 8589934592;
     Index.idleThreshold := 100; Index.newWorker := second_fails |}.

(** The Worker objects the queued class made, in order. *)
Definition queued_creations (s : Queued.State) : list nat :=
  flat_map (fun e => match e with Queued.NewWorker w => [w] | _ => [] end)
           (Queued.trace s).

(** ** Observations for the further properties *)

(** Successive calls of [canExecuteTask] at the times [nows]: the times at
    which it returned true. *)
Fixpoint admitted (cfg : Index.Config) (nows : list Z) (s : Index.State) : list Z :=
  match nows with
  | [] => []
  | now :: rest =>
      let r := Index.canExecuteTask cfg now s in
      (if fst r then [now] else []) ++ admitted cfg rest (snd r)
  end.

(** Times of which each is at least [gap] after the one before, the first
    being measured from [last] if there is one. *)
Fixpoint spaced (gap : Z) (last : option Z) (l : list Z) : Prop :=
  match l with
  | [] => True
  | t :: r =>
      match last with
      | Some x => (gap <= t - x)%Z
      | None => True
      end /\ spaced gap (Some t) r
  end.

(** The status [run] gives a call made at time [now]. *)
Definition status_at (cfg : Index.Config) (now : Z) (s : Index.State) : Z :=
  if fst (Index.canExecuteTask cfg now s) then 200%Z else 429%Z.

(** The object [createLog] returns for a worker, with a pool of [n] workers
    and [k] tasks logged before. *)
Definition log_object (workerId : string) (n k : nat) : jsval :=
  VObj [("worker", VStr workerId);
        ("poolLength", VStr (dec n ++ " worker"));
        ("executed", VStr (dec (S k) ++ " tasks"))]%string.

(** The [result] of a successful call: what the worker posted, with [log]
    when logs are returned, and with [capacity]. *)
Definition decorated (cfg : Index.Config) (fields : list (string * jsval))
           (log memStats : jsval) : jsval :=
  VObj (set_field "capacity" memStats
                  (if Index.returnLog cfg then set_field "log" log fields else fields)).

(** The tenths of a percent [getMemPercent] computes when [freemem] bytes
    are free. *)
Definition used_tenths (cfg : Index.Config) (freemem : Z) : Z :=
  round_tenths (inject_Z (Index.freememAtLoad cfg - freemem)
                / inject_Z (Index.freememAtLoad cfg) * inject_Z 100)%Q.

(** The handles a run of [buildPool]'s loop pushes when it starts at
    iteration [i] with [w] Worker objects made so far and runs [n]
    iterations without a throw. *)
Definition built (w i n : nat) : list Index.WorkerObject :=
  map (fun k => {| Index.id := ("-" ++ dec (i + k + 1) ++ "-")%string;
                   Index.worker := w + k |})
      (seq 0 n).

(** The events of a host that keeps calling [run] while no worker ever
    answers: [n] calls empty the pool the constructor built; each further
    round is a call that finds the pool empty, its continuation after
    [await this.buildPool()], and [n - 1] calls more. *)
Definition busy_round (n : nat) (task : jsval) (freemem : Z) : list Index.Event :=
  Index.Run task 0 freemem None :: Index.Resume freemem None
    :: repeat (Index.Run task 0 freemem None) (n - 1).

Definition flood (n k : nat) (task : jsval) (freemem : Z) : list Index.Event :=
  repeat (Index.Run task 0 freemem None) n
    ++ concat (repeat (busy_round n task freemem) k).

(** Between rounds: the pool is empty, nothing is suspended, and the [c]
    workers made so far have one task each and are all alive. *)
Definition all_out (s : Index.State) (c : nat) : Prop :=
  Index.pool s = [] /\ Index.waiting s = [] /\ Index.minWorkers s = None /\
  Index.workersMade s = c /\ creations s = seq 0 c /\
  map fst (posts s) = seq 0 c /\ terminations s = [].

(** A pool of src/index.js that has done nothing to the outside, with every
    call of [run] made so far suspended in the loop of [runTask]. *)
Definition hung (s : Index.State) : Prop :=
  Index.pool s = [] /\ Index.listeners s = [] /\ Index.trace s = [] /\
  length (Index.waiting s) = Index.calls s.

(** The pool item the queued class pushes for its worker [k] when
    [buildPool] runs undisturbed, and a pool of [n] such items. *)
Definition idle_item (k : nat) : Queued.WorkerItem :=
  {| Queued.id := ("Worker-" ++ dec (k + 1))%string; Queued.worker := k;
     Queued.busy := false; Queued.resolve := None; Queued.reject := None;
     Queued.startTime := None; Queued.taskId := VUndefined |}.

Definition idle_pool (n : nat) : list Queued.WorkerItem := map idle_item (seq 0 n).

(** [buildPool] of the queued class after [j] workers came online, none of
    them having been given a task: it waits for worker [j], or is over. *)
Definition starting (cfg : Queued.Config) (j : nat) (s : Queued.State) : Prop :=
  Queued.pool s = idle_pool j /\
  Queued.building s
  = (if j <? Queued.poolSize cfg
     then Some {| Queued.b_i := j; Queued.b_worker := j;
                  Queued.b_workerId := ("Worker-" ++ dec (j + 1))%string |}
     else None) /\
  Queued.workersMade s = (if j <? Queued.poolSize cfg then S j else j).

(** The workers on which the queued class called [terminate], in order. *)
Definition queued_terminations (s : Queued.State) : list nat :=
  flat_map (fun e => match e with Queued.Terminate w => [w] | _ => [] end)
           (Queued.trace s).

(** The promises the queued class settled, in order, each with the value
    it was resolved with or the reason it was rejected with. *)
Definition settlements (s : Queued.State) : list (nat * (jsval + exn)) :=
  flat_map (fun e => match e with
                     | Queued.Resolve p v => [(p, inl v)]
                     | Queued.Reject p r => [(p, inr r)]
                     | _ => []
                     end)
           (Queued.trace s).

(** What the queued class resolves a task's promise with: the worker's
    result, and the log when logs are returned. *)
Definition response_of (cfg : Queued.Config) (result : jsval) (workerId : string)
           (taskId : jsval) (executionTime : Z) : jsval :=
  if Queued.returnLog cfg
  then VObj [("result", result);
             ("log", VObj [("workerId", VStr workerId);
                           ("messageListenerCount", VNum (Fin (inject_Z 1)));
                           ("taskId", taskId);
                           ("executionTime", VNum (Fin (inject_Z executionTime)))])]%string
  else VObj [("result", result)]%string.

(** The pool item of a worker after its result for the task it was given
    at [now] under [taskId] was handled. *)
Definition released (now : Z) (taskId : jsval) (it : Queued.WorkerItem)
  : Queued.WorkerItem :=
  {| Queued.id := Queued.id it; Queued.worker := Queued.worker it;
     Queued.busy := false; Queued.resolve := None; Queued.reject := None;
     Queued.startTime := Some now; Queued.taskId := taskId |}.

(** Where the promise of a call of [run] can be, in the queued class: its
    entry waits in the queue, or a busy worker of the pool holds its resolve
    function. *)
Definition in_queue (p : nat) (s : Queued.State) : Prop :=
  In p (map Queued.e_resolve (Queued.taskQueue s)).

Definition held (p : nat) (s : Queued.State) : Prop :=
  exists it, In it (Queued.pool s) /\ Queued.busy it = true /\ Queued.resolve it = Some p.

(** Every promise made so far is settled, in the queue or held by a busy
    worker, and an idle worker holds none. *)
Definition accounted (s : Queued.State) : Prop :=
  (forall p, p < Queued.promises s ->
             Queued.settled p s = true \/ in_queue p s \/ held p s) /\
  Forall (fun it => Queued.busy it = false -> Queued.resolve it = None) (Queued.pool s).

Definition is_exit (e : Queued.Event) : bool :=
  match e with Queued.Exit => true | _ => false end.

(** ** Observations on the round-robin class *)

(** The tasks the round-robin class posted, in order, each with its worker. *)
Definition rr_posts (s : RoundRobin.State) : list (nat * jsval) :=
  flat_map (fun e => match e with RoundRobin.PostMessage w t => [(w, t)] | _ => [] end)
           (RoundRobin.trace s).

(** The calls of [run] it settled, in order, each with the value it was
    resolved with or the reason it was rejected with. *)
Definition rr_settlements (s : RoundRobin.State) : list (nat * (jsval + exn)) :=
  flat_map (fun e => match e with
                     | RoundRobin.Resolve c v => [(c, inl v)]
                     | RoundRobin.Reject c r => [(c, inr r)]
                     | _ => []
                     end)
           (RoundRobin.trace s).

(** The [result] a call was resolved with. *)
Definition result_of (v : jsval + exn) : option jsval :=
  match v with
  | inl (VObj fields) => Some (get_field "result" fields)
  | _ => None
  end.

(** [workerIndex] points into the pool, or is 0. *)
Definition in_range (s : RoundRobin.State) : Prop :=
  RoundRobin.workerIndex s < length (RoundRobin.pool s) \/ RoundRobin.workerIndex s = 0.

(** No call was rejected because [this.pool[this.workerIndex]] was
    undefined. *)
Definition never_undefined (s : RoundRobin.State) : Prop :=
  Forall (fun e => match e with
                   | RoundRobin.Reject _ (TypeError _) => False
                   | _ => True
                   end)
         (RoundRobin.trace s).

Definition rr_is_exit (e : RoundRobin.Event) : bool :=
  match e with RoundRobin.Exit => true | _ => false end.

(** The promise of [addWorkerToPool] is settled for every worker of the
    pool. *)
Definition pool_created (s : RoundRobin.State) : Prop :=
  forall wo, In wo (RoundRobin.pool s) ->
             exists c, find (fun c => Nat.eqb (RoundRobin.c_worker c) (RoundRobin.worker wo))
                            (RoundRobin.creations s) = Some c /\
                       RoundRobin.c_settled c = true.

(** A round-robin pool of two. *)
Definition two_round_robin : RoundRobin.Config :=
  {| RoundRobin.poolSize := 2; RoundRobin.returnLog := false;
     RoundRobin.totalMem := 17179869184; RoundRobin.newWorker := fun _ => None |}.

(** The round-robin class while its workers start, [k] calls of [run]
    having been made before the first worker was online: worker 0 is the
    first of [buildPool], workers 1 to [k] are those the calls made, the
    later ones are those of [buildPool].  [early_made] is the number of
    workers made once [p] of them are online. *)
Definition early_waits (k j : nat) (c : RoundRobin.Creation) : Prop :=
  match RoundRobin.c_waiter c with
  | RoundRobin.BuildLoop i => (j = 0 /\ i = 0) \/ (k < j /\ i = j - k)
  | RoundRobin.RunCall _ _ => 1 <= j <= k
  end.

Definition early_made (cfg : RoundRobin.Config) (k p : nat) : nat :=
  if Nat.eqb p 0 then k + 1
  else Nat.min (Nat.max p (k + 1) + 1) (k + RoundRobin.poolSize cfg).

Definition early (cfg : RoundRobin.Config) (k p : nat) (s : RoundRobin.State) : Prop :=
  length (RoundRobin.pool s) = p /\
  RoundRobin.workersMade s = early_made cfg k p /\
  Forall2 (fun j c => RoundRobin.c_worker c = j /\ early_waits k j c /\
                      RoundRobin.c_online c = negb (j <? p) /\
                      RoundRobin.c_settled c = (j <? p))
          (seq 0 (early_made cfg k p)) (RoundRobin.creations s).

(** * Properties *)

(** ** Arrays *)

Lemma pop_length {A : Type} (l : list A) x r :
  pop l = Some (x, r) -> length l = S (length r).
Proof.
  unfold pop. intros H.
  destruct (rev l) as [|y t] eqn:E; [discriminate|].
  injection H as <- <-.
  rewrite length_rev, <- (length_rev l), E. reflexivity.
Qed.

Lemma pop_nil {A : Type} (l : list A) : pop l = None -> l = [].
Proof.
  unfold pop. destruct (rev l) eqn:E; [|discriminate].
  intros _. rewrite <- (rev_involutive l), E. reflexivity.
Qed.

Arguments Index.getMemPercent : simpl never.
Arguments Index.terminateExcessWorkers : simpl never.
Arguments Index.terminateAllWorkers : simpl never.

(** ** The [while] loops of src/index.js *)

Ltac loop_case :=
  repeat match goal with
         | H : Index.exceeds _ _ = _ |- _ => progress rewrite H
         | H : pop _ = _ |- _ => progress rewrite H
         end;
  reflexivity.

Lemma terminateExcessWorkers_unfold (s : Index.State) :
  Index.terminateExcessWorkers s =
  if Index.exceeds (length (Index.pool s)) (Index.minWorkers s)
  then match pop (Index.pool s) with
       | None => s
       | Some (w, rest) =>
           Index.terminateExcessWorkers
             (Index.emit (Index.Terminate (Index.worker w))
                (Index.set_pool rest
                   (Index.emit
                      (Index.Log (Index.LogTerminateExcess (length (Index.pool s))))
                      s)))
       end
  else s.
Proof.
  funelim (Index.terminateExcessWorkers s); loop_case.
Qed.

Lemma terminateAllWorkers_unfold (s : Index.State) :
  Index.terminateAllWorkers s =
  match pop (Index.pool s) with
  | None => s
  | Some (w, rest) =>
      Index.terminateAllWorkers
        (Index.emit (Index.Terminate (Index.worker w)) (Index.set_pool rest s))
  end.
Proof.
  funelim (Index.terminateAllWorkers s); loop_case.
Qed.

Lemma terminateExcessWorkers_undefined (s : Index.State) :
  Index.minWorkers s = None -> Index.terminateExcessWorkers s = s.
Proof.
  intros H. rewrite terminateExcessWorkers_unfold, H. reflexivity.
Qed.

(** ** The capacity check *)

Lemma Zdiv_cross (a b c d : Z) :
  (0 < b)%Z -> (0 < d)%Z -> (a * d = c * b)%Z -> (a / b = c / d)%Z.
Proof.
  intros Hb Hd H.
  rewrite <- (Z.div_mul_cancel_r a b d) by lia.
  replace (a * d)%Z with (b * c)%Z by lia.
  rewrite Z.div_mul_cancel_l by lia. reflexivity.
Qed.

Lemma round_tenths_Qeq (q r : Q) : (q == r)%Q -> round_tenths q = round_tenths r.
Proof.
  unfold Qeq, round_tenths. destruct q as [n d], r as [m e]. cbn [Qnum Qden]. intros H.
  pose proof (f_equal Z.sgn H) as Hs. rewrite !Z.sgn_mul in Hs. simpl Z.sgn in Hs.
  pose proof (f_equal Z.abs H) as Ha. rewrite !Z.abs_mul in Ha. simpl Z.abs in Ha.
  replace (Z.sgn n) with (Z.sgn m) by lia.
  f_equal. apply Zdiv_cross; lia.
Qed.

Lemma Qeq_bool_false (q : Q) : ~ (q == 0)%Q -> Qeq_bool q 0 = false.
Proof.
  intros H. destruct (Qeq_bool q 0) eqn:E; [|reflexivity].
  apply Qeq_bool_eq in E. contradiction.
Qed.

Lemma megabytes_nonzero (n : Z) :
  (0 < n)%Z -> ~ (inject_Z n / inject_Z 1024 / inject_Z 1024 == 0)%Q.
Proof.
  intros Hn H. unfold Qeq, Qdiv, Qmult, Qinv, inject_Z in H. simpl in H. lia.
Qed.

Lemma memPercent_value (cfg : Index.Config) (freemem : Z) :
  (0 < Index.freememAtLoad cfg)%Z ->
  Index.memPercent cfg freemem =
  FxDec (round_tenths
           (inject_Z (Index.freememAtLoad cfg - freemem)
            / inject_Z (Index.freememAtLoad cfg) * inject_Z 100)%Q).
Proof.
  intros H0. unfold Index.memPercent, Index.freeMemoryAvailable, of_bytes.
  change (Index.freememAtLoad cfg # 1)%Q with (inject_Z (Index.freememAtLoad cfg)).
  change (freemem # 1)%Q with (inject_Z freemem).
  cbn [js_div js_sub js_mul].
  replace (Qeq_bool (inject_Z 1024) 0) with false by reflexivity.
  cbn [js_div js_sub js_mul].
  replace (Qeq_bool (inject_Z 1024) 0) with false by reflexivity.
  cbn [js_div js_sub js_mul].
  rewrite (Qeq_bool_false (megabytes_nonzero H0)).
  cbn [js_mul toFixed1]. f_equal. apply round_tenths_Qeq.
  unfold Z.sub. rewrite inject_Z_plus, inject_Z_opp. field.
  intros E. unfold Qeq, inject_Z in E. simpl in E. lia.
Qed.




(** ** The capacity gate in [run] *)

Lemma run_eq (cfg : Index.Config) task now freemem post (s : Index.State) :
  Index.run cfg task now freemem post s =
  let r := Index.canExecuteTask cfg now (Index.set_calls (S (Index.calls s)) s) in
  Index.runTask cfg (Index.calls s) (if fst r then 200%Z else 429%Z)
                task freemem post (snd r).
Proof.
  unfold Index.run.
  destruct (Index.canExecuteTask cfg now (Index.set_calls (S (Index.calls s)) s)).
  reflexivity.
Qed.

(** [canExecuteTask] touches [lastTaskTime] only. *)
Lemma canExecuteTask_frame (cfg : Index.Config) (now : Z) (s : Index.State) :
  let s' := snd (Index.canExecuteTask cfg now s) in
  Index.pool s' = Index.pool s /\ Index.minWorkers s' = Index.minWorkers s /\
  Index.trace s' = Index.trace s /\ Index.listeners s' = Index.listeners s /\
  Index.workersMade s' = Index.workersMade s /\ Index.waiting s' = Index.waiting s /\
  Index.calls s' = Index.calls s /\ Index.tasks s' = Index.tasks s.
Proof.
  unfold Index.canExecuteTask.
  destruct (Index.lastTaskTime s) as [last|];
    [destruct (Index.idleThreshold cfg <=? now - last)%Z|]; simpl; repeat split.
Qed.

(** Whenever the capacity check throws, [run] resolves with the response of
    the [catch] and posts nothing, and the pool has lost its first worker. *)
Lemma run_capacity_exceeded (cfg : Index.Config) (s : Index.State)
      (task : jsval) (now freemem : Z) (post : option string)
      (freeWorker : Index.WorkerObject) (rest : list Index.WorkerObject) (err : exn) :
  Index.minWorkers s = None ->
  Index.pool s = freeWorker :: rest ->
  Index.getMemPercent cfg freemem = Throw err ->
  let s' := Index.run cfg task now freemem post s in
  Index.pool s' = rest /\
  Index.trace s' = Index.trace s ++ [Index.Settle (Index.calls s) (Index.catch_response err)] /\
  Index.listeners s' = Index.listeners s /\
  Index.workersMade s' = Index.workersMade s.
Proof.
  intros Hmin Hpool Hmem s'. subst s'. rewrite run_eq.
  destruct (canExecuteTask_frame cfg now (Index.set_calls (S (Index.calls s)) s))
    as (Hp & Hm & Ht & Hl & Hw & _).
  simpl in Hp, Hm, Ht, Hl, Hw.
  cbv zeta. unfold Index.runTask. rewrite Hp, Hpool, Hmem. unfold Index.run_end.
  rewrite terminateExcessWorkers_undefined by (simpl; congruence).
  simpl. rewrite Ht, Hl, Hw. repeat split.
Qed.

(** C1, at the failing input: with 8 GiB free at load and 512 MiB free now
    the used percentage is 93.8, above the threshold of 90.  The call
    resolves with status 503 and posts no task, but the pool, which held the
    workers 0 and 1, holds only worker 1 afterwards: worker 0 was shifted
    out before the check and is neither put back nor terminated. *)
Theorem run_capacity_exceeded_loses_worker :
  let s := Index.constructor two_workers in
  let s' := Index.step two_workers s (Index.Run (VObj []) 0 536870912 None) in
  Index.memPercent two_workers 536870912 = FxDec 938 /\
  Index.pool s = [ {| Index.id := "-1-"; Index.worker := 0 |};
                   {| Index.id := "-2-"; Index.worker := 1 |} ] /\
  Index.pool s' = [ {| Index.id := "-2-"; Index.worker := 1 |} ] /\
  Index.trace s' =
    Index.trace s
    ++ [Index.Settle 0
          (VObj [("status", VNum (Fin (inject_Z 503)));
                 ("message", VStr "Server capacity is low. Please try again later.")]%string)] /\
  posts s' = [] /\ terminations s' = [].
Proof. vm_compute. repeat split. Qed.

(** ** What the methods of src/index.js leave alone *)

Lemma terminations_emit (e : Index.Effect) (s : Index.State) :
  terminations (Index.emit e s) =
  terminations s ++ match e with Index.Terminate w => [w] | _ => [] end.
Proof. unfold terminations. simpl. rewrite flat_map_app. simpl. now rewrite app_nil_r. Qed.

Lemma creations_emit (e : Index.Effect) (s : Index.State) :
  creations (Index.emit e s) =
  creations s ++ match e with Index.NewWorker w => [w] | _ => [] end.
Proof. unfold creations. simpl. rewrite flat_map_app. simpl. now rewrite app_nil_r. Qed.

Lemma posts_emit (e : Index.Effect) (s : Index.State) :
  posts (Index.emit e s) =
  posts s ++ match e with Index.PostMessage w t => [(w, t)] | _ => [] end.
Proof. unfold posts. simpl. rewrite flat_map_app. simpl. now rewrite app_nil_r. Qed.

Lemma quiet_refl (s : Index.State) : quiet s s.
Proof. intros H. repeat split; assumption. Qed.

Lemma quiet_trans (s1 s2 s3 : Index.State) : quiet s1 s2 -> quiet s2 s3 -> quiet s1 s3.
Proof.
  intros H12 H23 H. destruct (H12 H) as (M2 & P2 & W2 & C2 & T2 & O2).
  destruct (H23 M2) as (M3 & P3 & W3 & C3 & T3 & O3).
  repeat split; congruence.
Qed.

Lemma quiet_keeps (cfg : Index.Config) (s s' : Index.State) : quiet s s' -> keeps cfg s s'.
Proof.
  intros Q H. destruct (Q H) as (M & P & _ & _ & T & _).
  repeat split; try assumption. rewrite P. trivial.
Qed.

Lemma keeps_refl (cfg : Index.Config) (s : Index.State) : keeps cfg s s.
Proof. apply quiet_keeps, quiet_refl. Qed.

Lemma keeps_trans (cfg : Index.Config) (s1 s2 s3 : Index.State) :
  keeps cfg s1 s2 -> keeps cfg s2 s3 -> keeps cfg s1 s3.
Proof.
  intros H12 H23 H. destruct (H12 H) as (M2 & T2 & B2).
  destruct (H23 M2) as (M3 & T3 & B3).
  repeat split; [assumption | congruence | auto].
Qed.

Lemma quiet_fold {A : Type} (f : Index.State -> A -> Index.State) (l : list A) :
  (forall s x, quiet s (f s x)) -> forall s, quiet s (fold_left f l s).
Proof.
  intros Hf. induction l as [|x l IH]; intros s; simpl.
  - apply quiet_refl.
  - eapply quiet_trans; [apply Hf | apply IH].
Qed.

Lemma keeps_fold (cfg : Index.Config) {A : Type}
      (f : Index.State -> A -> Index.State) (l : list A) :
  (forall s x, keeps cfg s (f s x)) -> forall s, keeps cfg s (fold_left f l s).
Proof.
  intros Hf. induction l as [|x l IH]; intros s; simpl.
  - apply keeps_refl.
  - eapply keeps_trans; [apply Hf | apply IH].
Qed.

Ltac quiet_emit :=
  intros ?; simpl;
  rewrite ?creations_emit, ?terminations_emit, ?posts_emit, ?app_nil_r;
  repeat split; auto.

Lemma quiet_log (l : Index.LogLine) (s : Index.State) : quiet s (Index.emit (Index.Log l) s).
Proof. quiet_emit. Qed.

Lemma quiet_settle c v (s : Index.State) : quiet s (Index.emit (Index.Settle c v) s).
Proof. quiet_emit. Qed.

Lemma quiet_cleanup (x : Index.Execution) (s : Index.State) : quiet s (Index.cleanup x s).
Proof. intros H. repeat split; assumption. Qed.

Lemma quiet_run_end c st r (s : Index.State) :
  quiet s (Index.run_end c st r s).
Proof.
  intros H. unfold Index.run_end.
  rewrite terminateExcessWorkers_undefined by exact H.
  revert H. apply quiet_settle.
Qed.

Lemma quiet_createLog (i : string) (s : Index.State) : quiet s (snd (Index.createLog i s)).
Proof. intros H. repeat split; assumption. Qed.

Lemma quiet_after_message (cfg : Index.Config) x data (s : Index.State) :
  quiet s (Index.after_message cfg x data s).
Proof.
  unfold Index.after_message.
  destruct (Index.settled (Index.x_call x) s); [apply quiet_refl|].
  destruct (Index.returnLog cfg).
  - pose proof (quiet_createLog (Index.id (Index.x_worker x)) s) as Q.
    destruct (Index.createLog (Index.id (Index.x_worker x)) s) as [l s1].
    simpl in Q. eapply quiet_trans; [exact Q|].
    destruct data; apply quiet_run_end.
  - destruct data; apply quiet_run_end.
Qed.

Lemma quiet_after_error x error (s : Index.State) :
  quiet s (Index.after_error x error s).
Proof.
  unfold Index.after_error.
  destruct (Index.settled (Index.x_call x) s); [apply quiet_refl|apply quiet_run_end].
Qed.

Lemma quiet_on_error w error (s : Index.State) :
  quiet s (Index.on_error w error s).
Proof.
  unfold Index.on_error.
  cbv zeta.
  apply quiet_trans
    with (s2 := fold_left (Index.on_error_listener error) (Index.listeners_of w s) s);
    apply quiet_fold; intros s1 l; destruct l; simpl;
    auto using quiet_refl, quiet_log, quiet_cleanup, quiet_after_error.
Qed.

Lemma buildPool_loop_frame (cfg : Index.Config) (n i : nat) (s : Index.State) :
  let s' := fst (Index.buildPool_loop cfg n i s) in
  Index.minWorkers s' = Index.minWorkers s /\
  terminations s' = terminations s /\
  posts s' = posts s /\
  length (Index.pool s') <= length (Index.pool s) + n.
Proof.
  revert i s. induction n as [|n IH]; intros i s; simpl.
  - repeat split. lia.
  - destruct (Index.newWorker cfg (Index.workersMade s)) as [e|].
    + simpl. rewrite terminations_emit, posts_emit, !app_nil_r. repeat split. lia.
    + match goal with |- context [Index.buildPool_loop cfg n (S i) ?t] =>
        destruct (IH (S i) t) as (M & T & P & L) end.
      simpl in M, T, P, L. rewrite M, T, P.
      unfold terminations, posts in *. simpl.
      rewrite !flat_map_app. simpl. rewrite !app_nil_r.
      repeat split. rewrite length_app in L. simpl in L. lia.
Qed.

Lemma keeps_executeWorker (cfg : Index.Config) x task post (s : Index.State) :
  keeps cfg s (fst (Index.executeWorker x task post s)).
Proof.
  intros H. unfold Index.executeWorker. destruct post; simpl.
  - repeat split; auto.
  - rewrite terminations_emit, app_nil_r. repeat split; auto.
Qed.

Lemma keeps_runTask (cfg : Index.Config) call status task freemem post (s : Index.State) :
  keeps cfg s (Index.runTask cfg call status task freemem post s).
Proof.
  unfold Index.runTask.
  destruct (Index.pool s) as [|freeWorker rest] eqn:Hpool.
  - unfold Index.buildPool.
    destruct (buildPool_loop_frame cfg (Index.poolSize cfg) 0 s) as (M & T & _ & L).
    destruct (Index.buildPool_loop cfg (Index.poolSize cfg) 0 s) as [s1 resolved].
    simpl in M, T, L. rewrite Hpool in L. simpl in L.
    intros H. destruct resolved; simpl; repeat split; auto; congruence.
  - assert (K : keeps cfg s (Index.set_pool rest s)).
    { intros H. simpl. repeat split; auto. rewrite Hpool. simpl. lia. }
    destruct (Index.getMemPercent cfg freemem) as [memStats|err].
    + match goal with |- context [Index.executeWorker ?x task post ?t] =>
        pose proof (keeps_executeWorker cfg x task post t) as KX;
        destruct (Index.executeWorker x task post t) as [s1 [err|]] end;
        simpl in KX.
      * exact (keeps_trans K (keeps_trans KX (quiet_keeps cfg (quiet_run_end _ _ _ _)))).
      * exact (keeps_trans K KX).
    + exact (keeps_trans K (quiet_keeps cfg (quiet_run_end _ _ _ _))).
Qed.

Lemma keeps_run (cfg : Index.Config) task now freemem post (s : Index.State) :
  keeps cfg s (Index.run cfg task now freemem post s).
Proof.
  rewrite run_eq. cbv zeta.
  destruct (canExecuteTask_frame cfg now (Index.set_calls (S (Index.calls s)) s))
    as (Hp & Hm & Ht & _).
  simpl in Hp, Hm, Ht.
  eapply keeps_trans; [|apply keeps_runTask].
  intros H. unfold terminations. rewrite Hp, Hm, Ht. repeat split; auto.
Qed.

Lemma keeps_resume (cfg : Index.Config) freemem post (s : Index.State) :
  keeps cfg s (Index.resume cfg freemem post s).
Proof.
  unfold Index.resume. destruct (Index.waiting s) as [|c rest]; [apply keeps_refl|].
  eapply keeps_trans; [|apply keeps_runTask].
  intros H. simpl. repeat split; auto.
Qed.

Lemma keeps_messageListener (cfg : Index.Config) x (s : Index.State) :
  keeps cfg s (Index.messageListener cfg x s).
Proof.
  intros H. unfold Index.messageListener. simpl.
  destruct (length (Index.pool s) <? Index.poolSize cfg) eqn:E;
    unfold terminations; simpl; rewrite ?flat_map_app; simpl; rewrite ?app_nil_r;
    repeat split; auto.
  intros _. apply Nat.ltb_lt in E. rewrite length_app. simpl. lia.
Qed.

Lemma keeps_on_message (cfg : Index.Config) w data (s : Index.State) :
  keeps cfg s (Index.on_message cfg w data s).
Proof.
  unfold Index.on_message. cbv zeta.
  eapply keeps_trans.
  - apply (@keeps_fold cfg _ (fun s x => Index.messageListener cfg x s)).
    intros; apply keeps_messageListener.
  - apply (@keeps_fold cfg _ (fun s x => Index.after_message cfg x data s)).
    intros; apply quiet_keeps, quiet_after_message.
Qed.

Lemma keeps_addNewWorkerToPool (cfg : Index.Config) (s : Index.State) :
  keeps cfg s (Index.addNewWorkerToPool cfg s).
Proof.
  intros H. unfold Index.addNewWorkerToPool.
  destruct (Index.poolSize cfg <=? length (Index.pool s)); [repeat split; auto|].
  destruct (Index.newWorker cfg (Index.workersMade s));
    unfold terminations; simpl; rewrite ?flat_map_app; simpl; rewrite ?app_nil_r;
    repeat split; auto.
Qed.

Lemma keeps_onlineListener (cfg : Index.Config) item (s : Index.State) :
  keeps cfg s (Index.onlineListener cfg item s).
Proof.
  intros H. unfold Index.onlineListener. simpl.
  destruct (length (Index.pool s) <? Index.poolSize cfg) eqn:E;
    unfold terminations; simpl; rewrite ?flat_map_app; simpl; rewrite ?app_nil_r;
    repeat split; auto.
  intros _. apply Nat.ltb_lt in E. rewrite length_app. simpl. lia.
Qed.

Lemma keeps_on_online (cfg : Index.Config) w (s : Index.State) :
  keeps cfg s (Index.on_online cfg w s).
Proof.
  unfold Index.on_online. cbv zeta.
  eapply keeps_trans.
  2: { apply (@keeps_fold cfg _ (fun s item => Index.onlineListener cfg item s)).
       intros; apply keeps_onlineListener. }
  intros H. simpl. repeat split; auto.
Qed.

(** [terminateAllWorkers] ends with an empty pool, whatever the pool was. *)
Lemma terminateAllWorkers_frame (s : Index.State) :
  let s' := Index.terminateAllWorkers s in
  Index.pool s' = [] /\ Index.minWorkers s' = Index.minWorkers s.
Proof.
  remember (length (Index.pool s)) as n eqn:Hn. revert s Hn.
  induction n as [n IH] using lt_wf_ind. intros s Hn.
  rewrite terminateAllWorkers_unfold.
  destruct (pop (Index.pool s)) as [[w rest]|] eqn:E.
  - pose proof (pop_length _ E) as L.
    match goal with |- context [Index.terminateAllWorkers ?t] =>
      destruct (IH (length rest) ltac:(lia) t eq_refl) as (P & M) end.
    simpl in M. split; assumption.
  - apply pop_nil in E. simpl. auto.
Qed.

Lemma keeps_step (cfg : Index.Config) (s : Index.State) (e : Index.Event) :
  e <> Index.Exit -> keeps cfg s (Index.step cfg s e).
Proof.
  intros He. destruct e; simpl.
  - apply keeps_run.
  - apply keeps_resume.
  - apply keeps_on_message.
  - apply quiet_keeps, quiet_on_error.
  - apply keeps_addNewWorkerToPool.
  - apply keeps_on_online.
  - contradiction.
Qed.

Lemma steps_snoc (cfg : Index.Config) (s : Index.State) es e :
  Index.steps cfg s (es ++ [e]) = Index.step cfg (Index.steps cfg s es) e.
Proof. unfold Index.steps. rewrite fold_left_app. reflexivity. Qed.

(** Every state the pool of src/index.js can be in has [minWorkers]
    undefined and at most [poolSize] workers in [pool]. *)
Lemma index_invariant (cfg : Index.Config) (s : Index.State) :
  Index.reachable cfg s ->
  Index.minWorkers s = None /\ length (Index.pool s) <= Index.poolSize cfg.
Proof.
  intros [es ->]. induction es as [|e es IH] using rev_ind.
  - simpl. unfold Index.constructor, Index.buildPool.
    destruct (buildPool_loop_frame cfg (Index.poolSize cfg) 0 Index.empty)
      as (M & _ & _ & L).
    simpl in M, L. split; assumption.
  - rewrite steps_snoc. destruct IH as [M L].
    destruct (Index.Event_eq_Exit e) as [->|Hne].
    + simpl. destruct (terminateAllWorkers_frame (Index.steps cfg (Index.constructor cfg) es))
        as (P & M').
      simpl in P, M'. rewrite P, M'. split; [assumption | simpl; lia].
    + destruct (keeps_step cfg (Index.steps cfg (Index.constructor cfg) es) Hne M)
        as (M' & _ & L').
      split; auto.
Qed.

(** ** [terminateExcessWorkers] in the [finally] of [run] *)

(** C10: [this.minWorkers] is undefined in every state the pool can be in,
    so the loop of [terminateExcessWorkers], which the [finally] block of
    [run] calls, runs no iteration: it returns the state as it is, and no
    event other than the process exit, among them every start, resumption
    and completion of a [run] call, has [terminate] called on a worker. *)
Theorem terminateExcessWorkers_terminates_nothing
        (cfg : Index.Config) (s : Index.State) :
  Index.reachable cfg s ->
  Index.minWorkers s = None /\
  Index.terminateExcessWorkers s = s /\
  (forall call status r,
      exists value,
        Index.run_end call status r s = Index.emit (Index.Settle call value) s) /\
  (forall e, e <> Index.Exit ->
             Index.minWorkers (Index.step cfg s e) = None /\
             terminations (Index.step cfg s e) = terminations s).
Proof.
  intros R. destruct (index_invariant R) as [M _].
  split; [exact M|]. split; [apply terminateExcessWorkers_undefined, M|]. split.
  - intros call status r. unfold Index.run_end.
    rewrite terminateExcessWorkers_undefined by exact M. eexists. reflexivity.
  - intros e He. destruct (keeps_step cfg s He M) as (M' & T & _). split; assumption.
Qed.

Lemma terminateExcessWorkers_terminates_nothing_witness :
  Index.terminateExcessWorkers (Index.constructor two_workers)
  = Index.constructor two_workers /\
  terminations (Index.step two_workers (Index.constructor two_workers)
                           (Index.Run (VObj []) 0 0 None)) = [].
Proof.
  destruct (@terminateExcessWorkers_terminates_nothing
              two_workers (Index.constructor two_workers)) as (_ & H & _ & K).
  - exists []. reflexivity.
  - split; [exact H|].
    destruct (K (Index.Run (VObj []) 0 0 None)) as [_ T]; [discriminate|].
    rewrite T. reflexivity.
Defined.

(** ** Shutdown *)

Lemma queued_terminate_fold (cfg : Queued.Config) (l : list Queued.WorkerItem)
      (s : Queued.State) :
  let s' := fold_left (fun s it =>
                         Queued.emit (Queued.Terminate (Queued.worker it))
                           (Queued.log (Queued.returnLog cfg)
                                       (Queued.LogTerminating (Queued.id it)) s))
                      l s in
  Queued.pool s' = Queued.pool s /\ Queued.taskQueue s' = Queued.taskQueue s /\
  Queued.workersMade s' = Queued.workersMade s /\ Queued.created s' = Queued.created s /\
  Queued.building s' = Queued.building s /\ Queued.promises s' = Queued.promises s.
Proof.
  revert s. induction l as [|it l IH]; intros s; simpl.
  - repeat split.
  - match goal with |- context [fold_left ?f l ?t] =>
      destruct (IH t) as (P & Q & W & C & B & R) end.
    simpl in P, Q, W, C, B, R. rewrite P, Q, W, C, B, R.
    unfold Queued.log. destruct (Queued.returnLog cfg); repeat split.
Qed.

(** C8: [terminateAllWorkers] leaves the pool empty, in both classes; a
    second call right after the first changes nothing, and so does a call
    on a pool that is already empty.  The method returns normally: in the
    queued class the exit event ends without an exception, and the loop of
    src/index.js ends for every pool. *)
Theorem terminateAllWorkers_idempotent :
  (forall s : Index.State,
      Index.pool (Index.terminateAllWorkers s) = [] /\
      Index.terminateAllWorkers (Index.terminateAllWorkers s)
      = Index.terminateAllWorkers s /\
      Index.terminateAllWorkers (Index.set_pool [] s) = Index.set_pool [] s) /\
  (forall (cfg : Queued.Config) (s : Queued.State),
      Queued.pool (Queued.terminateAllWorkers cfg s) = [] /\
      Queued.terminateAllWorkers cfg (Queued.terminateAllWorkers cfg s)
      = Queued.terminateAllWorkers cfg s /\
      Queued.terminateAllWorkers cfg (Queued.set_pool [] s) = Queued.set_pool [] s /\
      snd (Queued.step cfg s Queued.Exit) = None /\
      snd (Queued.step cfg (fst (Queued.step cfg s Queued.Exit)) Queued.Exit) = None).
Proof.
  split.
  - intros s. destruct (terminateAllWorkers_frame s) as [P _]. simpl in P.
    split; [exact P|]. split.
    + rewrite (terminateAllWorkers_unfold (Index.terminateAllWorkers s)), P.
      reflexivity.
    + rewrite terminateAllWorkers_unfold. reflexivity.
  - intros cfg s. repeat split.
Qed.

(** ** A worker that fails, in src/index.js *)

Lemma fails_only_refl (s : Index.State) : fails_only s s.
Proof. intros H. split; [exact H|]. exists []. rewrite app_nil_r. auto. Qed.

Lemma fails_only_trans (s1 s2 s3 : Index.State) :
  fails_only s1 s2 -> fails_only s2 s3 -> fails_only s1 s3.
Proof.
  intros H12 H23 H. destruct (H12 H) as (M2 & t2 & E2 & F2).
  destruct (H23 M2) as (M3 & t3 & E3 & F3).
  split; [exact M3|]. exists (t2 ++ t3).
  rewrite E3, E2, app_assoc. split; [reflexivity | apply Forall_app; auto].
Qed.

Lemma fails_only_fold {A : Type} (f : Index.State -> A -> Index.State) (l : list A) :
  (forall s x, fails_only s (f s x)) -> forall s, fails_only s (fold_left f l s).
Proof.
  intros Hf. induction l as [|x l IH]; intros s; simpl.
  - apply fails_only_refl.
  - eapply fails_only_trans; [apply Hf | apply IH].
Qed.

Lemma fails_only_after_error x error (s : Index.State) :
  fails_only s (Index.after_error x error s).
Proof.
  unfold Index.after_error.
  destruct (Index.settled (Index.x_call x) s); [apply fails_only_refl|].
  intros H. unfold Index.run_end.
  rewrite terminateExcessWorkers_undefined by exact H.
  split; [exact H|]. eexists. split; [reflexivity|].
  constructor; [|constructor]. reflexivity.
Qed.

Lemma fails_only_on_error w error (s : Index.State) :
  fails_only s (Index.on_error w error s).
Proof.
  unfold Index.on_error. cbv zeta.
  apply fails_only_trans
    with (s2 := fold_left (Index.on_error_listener error) (Index.listeners_of w s) s);
    apply fails_only_fold; intros s1 l; destruct l; simpl;
    try apply fails_only_refl; try apply fails_only_after_error.
  - intros H. split; [exact H|]. eexists. split; [reflexivity|].
    constructor; [exact I|constructor].
  - intros H. split; [exact H|]. exists []. rewrite app_nil_r. auto.
Qed.

Lemma settled_app (c : nat) (s s' : Index.State) t :
  Index.trace s' = Index.trace s ++ t ->
  Index.settled c s = true -> Index.settled c s' = true.
Proof.
  unfold Index.settled. intros -> H. rewrite existsb_app, H. reflexivity.
Qed.

Lemma after_error_settles x error (s : Index.State) :
  Index.settled (Index.x_call x) (Index.after_error x error s) = true.
Proof.
  unfold Index.after_error.
  destruct (Index.settled (Index.x_call x) s) eqn:E; [exact E|].
  unfold Index.run_end, Index.settled. simpl.
  rewrite existsb_app. simpl. rewrite Nat.eqb_refl. apply orb_true_r.
Qed.

Lemma continue_settles error (ls : list Index.Listener) x :
  In (Index.ErrorListener x) ls ->
  forall s, Index.minWorkers s = None ->
  Index.settled (Index.x_call x) (fold_left (Index.on_error_continue error) ls s) = true.
Proof.
  induction ls as [|l ls IH]; intros Hin s Hs; [contradiction|].
  simpl. destruct Hin as [->|Hin].
  - simpl.
    destruct (@fails_only_fold _ (Index.on_error_continue error) ls) with
      (s := Index.after_error x error s) as (_ & t & E & _).
    + intros s1 l. destruct l; simpl;
        try apply fails_only_refl; apply fails_only_after_error.
    + apply (fails_only_after_error x error s Hs).
    + eapply settled_app; [exact E|]. apply after_error_settles.
  - apply IH; [exact Hin|].
    destruct l; simpl; try exact Hs.
    apply (fails_only_after_error x0 error s Hs).
Qed.

(** C5, as stated, fails.  In src/index.js a pool of two dispatches a task
    to worker 0, which then fails: [terminate] is called on no worker, no
    Worker object is made, and the pool is left with one worker of two.  In
    the queued class the failed worker stays in the pool, marked busy. *)
Lemma worker_failure_counterexample :
  let s := Index.steps two_workers (Index.constructor two_workers)
                       [Index.Run (VObj []) 0 8589934592 None] in
  let s' := Index.step two_workers s (Index.WorkerError 0 "boom") in
  let q := fst (Queued.steps one_queued_worker (Queued.constructor one_queued_worker)
                             [Queued.Online 0; Queued.Run (VObj []) VNull 0 None;
                              Queued.WorkerError 0 "boom"]) in
  posts s = [(0, VObj [])] /\
  terminations s' = [] /\
  creations s' = creations s /\
  Index.workersMade s' = Index.workersMade s /\
  length (Index.pool s') = 1 /\
  Index.poolSize two_workers = 2 /\
  map Queued.worker (Queued.pool q) = [0] /\
  map Queued.busy (Queued.pool q) = [true] /\
  Queued.workersMade q = 1.
Proof. vm_compute. repeat split. Qed.

(** C5 (amended): when a dispatched task's execution fails (the worker's
    'error' event), the class neither terminates the worker nor makes a
    replacement.  In src/index.js the event leaves the pool as it is (the
    worker was taken out when the task was dispatched and is not put back),
    makes no worker, terminates none and posts nothing; it only logs and
    resolves the promises of the [run] calls whose task was on that worker,
    with status 500.  In the queued class the event only logs. *)
Theorem worker_failure_not_replaced :
  (forall (cfg : Index.Config) (s : Index.State) (w : nat) (error : string),
      Index.reachable cfg s ->
      let s' := Index.step cfg s (Index.WorkerError w error) in
      Index.pool s' = Index.pool s /\
      Index.workersMade s' = Index.workersMade s /\
      creations s' = creations s /\
      terminations s' = terminations s /\
      posts s' = posts s /\
      (exists t, Index.trace s' = Index.trace s ++ t /\ Forall failure_effect t) /\
      (forall x, In (Index.ErrorListener x) (Index.listeners_of w s) ->
                 Index.settled (Index.x_call x) s' = true)) /\
  (forall (cfg : Queued.Config) (s : Queued.State) (w : nat) (error : string),
      let s' := fst (Queued.step cfg s (Queued.WorkerError w error)) in
      Queued.pool s' = Queued.pool s /\
      Queued.taskQueue s' = Queued.taskQueue s /\
      Queued.workersMade s' = Queued.workersMade s /\
      Queued.building s' = Queued.building s /\
      (exists t, Queued.trace s' = Queued.trace s ++ t /\ Forall is_log t)).
Proof.
  split.
  - intros cfg s w error R s'. subst s'. simpl.
    destruct (index_invariant R) as [M _].
    destruct (quiet_on_error w error s M) as (_ & P & W & C & T & O).
    destruct (fails_only_on_error w error s M) as (_ & F).
    repeat split; try assumption.
    intros x Hin. unfold Index.on_error. cbv zeta.
    apply continue_settles; [exact Hin|].
    destruct (@fails_only_fold _ (Index.on_error_listener error)
                               (Index.listeners_of w s)) with (s := s) as (M' & _);
      [|exact M|exact M'].
    intros s1 l; destruct l; simpl; try apply fails_only_refl.
    + intros H. split; [exact H|]. eexists. split; [reflexivity|].
      constructor; [exact I|constructor].
    + intros H. split; [exact H|]. exists []. rewrite app_nil_r. auto.
  - intros cfg s w error. simpl. unfold Queued.on_error.
    destruct (find _ (Queued.created s)) as [[w' workerId]|]; simpl.
    + repeat split. eexists. split; [reflexivity|]. constructor; [exact I|constructor].
    + repeat split. exists []. rewrite app_nil_r. auto.
Qed.

Lemma worker_failure_not_replaced_witness :
  let s := Index.steps two_workers (Index.constructor two_workers)
                       [Index.Run (VObj []) 0 8589934592 None] in
  let s' := Index.step two_workers s (Index.WorkerError 0 "boom") in
  Index.pool s' = Index.pool s /\ Index.settled 0 s' = true.
Proof.
  intros s s'.
  destruct worker_failure_not_replaced as [H _].
  destruct (H two_workers s 0 "boom"%string) as (P & _ & _ & _ & _ & _ & S).
  - exists [Index.Run (VObj []) 0 8589934592 None]. reflexivity.
  - split; [exact P|].
    apply (S {| Index.x_call := 0; Index.x_status := 200;
                Index.x_worker := {| Index.id := "-1-"; Index.worker := 0 |};
                Index.x_memStats := VBool true |}).
    vm_compute. right. right. left. reflexivity.
Defined.

(** ** Arrays searched and updated in place *)

Lemma find_index_none {A : Type} (f : A -> bool) (l : list A) :
  find_index f l = None <-> forallb (fun x => negb (f x)) l = true.
Proof.
  induction l as [|x l IH]; simpl; [tauto|].
  destruct (f x); simpl.
  - split; discriminate.
  - rewrite <- IH. destruct (find_index f l); simpl; split; congruence.
Qed.

Lemma find_index_some {A : Type} (f : A -> bool) (l : list A) (i : nat) :
  find_index f l = Some i ->
  exists x, nth_error l i = Some x /\ f x = true /\ find f l = Some x.
Proof.
  revert i. induction l as [|y l IH]; intros i; simpl; [discriminate|].
  destruct (f y) eqn:E.
  - intros [= <-]. exists y. auto.
  - destruct (find_index f l) as [j|]; simpl; [|discriminate].
    intros [= <-]. destruct (IH j eq_refl) as (x & N & F & G).
    exists x. auto.
Qed.

Lemma update_map {A B : Type} (g : A -> B) (i : nat) (f : A -> A) (l : list A) :
  (forall x, g (f x) = g x) -> map g (update i f l) = map g l.
Proof.
  intros H. revert i. induction l as [|x l IH]; intros [|i]; simpl;
    rewrite ?H, ?IH; reflexivity.
Qed.

Lemma update_nth {A : Type} (i : nat) (f : A -> A) (l : list A) (x d : A) :
  nth_error l i = Some x -> nth i (update i f l) d = f x.
Proof.
  revert i. induction l as [|y l IH]; intros [|i]; simpl; try discriminate.
  - intros [= ->]. reflexivity.
  - apply IH.
Qed.

Lemma update_nth_error {A : Type} (i : nat) (f : A -> A) (l : list A) (x : A) :
  nth_error l i = Some x -> nth_error (update i f l) i = Some (f x).
Proof.
  revert i. induction l as [|y l IH]; intros [|i]; simpl; try discriminate.
  - intros [= ->]. reflexivity.
  - apply IH.
Qed.

(** In an array whose elements have distinct keys, the element found by
    its key is the one at the index it sits at. *)
Lemma find_by_key {A : Type} (key : A -> nat) (l : list A) (i : nat) (x : A) :
  NoDup (map key l) -> nth_error l i = Some x ->
  find (fun y => Nat.eqb (key y) (key x)) l = Some x.
Proof.
  revert i. induction l as [|y l IH]; intros [|i]; simpl; try discriminate.
  - intros _ [= ->]. rewrite Nat.eqb_refl. reflexivity.
  - intros ND N. inversion ND as [|k ks Hnot ND']; subst.
    destruct (Nat.eqb (key y) (key x)) eqn:E.
    + apply Nat.eqb_eq in E. exfalso. apply Hnot. rewrite E.
      apply in_map. eapply nth_error_In; eauto.
    + eapply IH; eauto.
Qed.

(** ** [assignTasks] *)

Lemma assignTasks_spec (cfg : Queued.Config) (now : Z) (post : option string)
      (s : Queued.State) :
  let r := Queued.assignTasks cfg now post s in
  (r = (s, None) /\
   (find_index (fun w => negb (Queued.busy w)) (Queued.pool s) = None
    \/ Queued.taskQueue s = []))
  \/
  (exists i it e rest logs,
      find_index (fun w => negb (Queued.busy w)) (Queued.pool s) = Some i /\
      nth_error (Queued.pool s) i = Some it /\
      Queued.busy it = false /\
      Queued.taskQueue s = e :: rest /\
      snd r = option_map (fun m => Error m) post /\
      Queued.pool (fst r) = update i (assigned e now) (Queued.pool s) /\
      Queued.taskQueue (fst r) = rest /\
      Queued.workersMade (fst r) = Queued.workersMade s /\
      Queued.created (fst r) = Queued.created s /\
      Queued.building (fst r) = Queued.building s /\
      Queued.promises (fst r) = Queued.promises s /\
      Forall is_log logs /\
      Queued.trace (fst r) =
        Queued.trace s ++ logs
        ++ [Queued.PostMessage (Queued.worker it) (Queued.e_task e)
                               (Queued.e_taskId e) post]).
Proof.
  unfold Queued.assignTasks.
  destruct (find_index (fun w => negb (Queued.busy w)) (Queued.pool s)) as [i|] eqn:F.
  2: { left. split; [reflexivity|left; reflexivity]. }
  destruct (Queued.taskQueue s) as [|e rest] eqn:Q.
  { left. split; [reflexivity|right; reflexivity]. }
  right. destruct (find_index_some _ _ F) as (it & N & B & _).
  apply negb_true_iff in B.
  exists i, it, e, rest.
  exists (if Queued.returnLog cfg
          then [Queued.Log (Queued.LogAssigning (Queued.e_taskId e) (Queued.id it)
                                                (length rest))]
          else []).
  cbv zeta. simpl.
  rewrite (update_nth i _ (Queued.pool s) _ N). simpl.
  unfold Queued.log. destruct (Queued.returnLog cfg); simpl;
    repeat split; auto; try (constructor; [exact I|constructor]).
  now rewrite <- app_assoc.
Qed.

Lemma update_update {A : Type} (i : nat) (f g : A -> A) (l : list A) :
  update i g (update i f l) = update i (fun x => g (f x)) l.
Proof.
  revert i. induction l as [|x l IH]; intros [|i]; simpl; rewrite ?IH; reflexivity.
Qed.

Lemma find_update_other {A : Type} (key : A -> nat) (k i : nat) (f : A -> A)
      (l : list A) (x : A) :
  (forall y, key (f y) = key y) ->
  nth_error l i = Some x -> key x <> k ->
  find (fun y => Nat.eqb (key y) k) (update i f l)
  = find (fun y => Nat.eqb (key y) k) l.
Proof.
  intros Hf. revert i. induction l as [|y l IH]; intros [|i]; simpl; try discriminate.
  - intros [= ->] Hk. rewrite Hf.
    destruct (Nat.eqb (key x) k) eqn:E; [apply Nat.eqb_eq in E; contradiction|].
    reflexivity.
  - intros N Hk. destruct (Nat.eqb (key y) k); [reflexivity|]. eapply IH; eauto.
Qed.

Lemma dispatched_in_no_post (t : list Queued.Effect) :
  Forall no_post t -> dispatched_in t = [] /\ posted_to t = [].
Proof.
  induction 1 as [|e t He _ [IH1 IH2]]; [split; reflexivity|].
  unfold dispatched_in, posted_to in *. simpl. rewrite IH1, IH2.
  destruct e; simpl in *; try contradiction; split; reflexivity.
Qed.

Lemma is_log_no_post (t : list Queued.Effect) : Forall is_log t -> Forall no_post t.
Proof.
  apply Forall_impl. intros e. destruct e; simpl; auto.
Qed.

(** ** [handleWorkerResult] before it calls [assignTasks] *)

Lemma call_reject_frame (p : nat) (e : exn) (s : Queued.State) :
  let s' := Queued.call_reject p e s in
  Queued.pool s' = Queued.pool s /\ Queued.taskQueue s' = Queued.taskQueue s /\
  Queued.workersMade s' = Queued.workersMade s /\ Queued.created s' = Queued.created s /\
  Queued.building s' = Queued.building s /\ Queued.promises s' = Queued.promises s /\
  exists t, Queued.trace s' = Queued.trace s ++ t /\ Forall no_post t.
Proof.
  unfold Queued.call_reject. destruct (Queued.settled p s); simpl; repeat (split; [reflexivity|]).
  - exists []. rewrite app_nil_r. auto.
  - eexists. split; [reflexivity|]. constructor; [exact I|constructor].
Qed.

Lemma release_spec (cfg : Queued.Config) (i : nat) result workerId now
      (s : Queued.State) :
  let s' := Queued.release cfg i result workerId now s in
  (exists G, (forall x, Queued.worker (G x) = Queued.worker x /\ Queued.busy (G x) = false)
             /\ Queued.pool s' = update i G (Queued.pool s)) /\
  Queued.taskQueue s' = Queued.taskQueue s /\
  Queued.workersMade s' = Queued.workersMade s /\ Queued.created s' = Queued.created s /\
  Queued.building s' = Queued.building s /\ Queued.promises s' = Queued.promises s /\
  exists t, Queued.trace s' = Queued.trace s ++ t /\ Forall no_post t.
Proof.
  unfold Queued.release, Queued.log, Queued.call_resolve. cbv zeta.
  destruct (Queued.returnLog cfg); cbn [Queued.pool Queued.set_pool Queued.emit];
    match goal with
    | |- context [Queued.resolve ?x] => destruct (Queued.resolve x) as [p|]
    end;
    try match goal with
        | |- context [Queued.settled ?p ?s] => destruct (Queued.settled p s)
        end;
    cbn [Queued.pool Queued.set_pool Queued.emit Queued.taskQueue Queued.workersMade
         Queued.created Queued.building Queued.promises Queued.trace];
    rewrite ?update_update;
    (split; [eexists; split; [|reflexivity]; intros x; split; reflexivity|]);
    repeat (split; [reflexivity|]);
    rewrite <- ?app_assoc;
    first [ exists []; rewrite app_nil_r; split; [reflexivity|constructor]
          | eexists; split; [reflexivity|]; repeat constructor ].
Qed.

(** ** First in, first out *)

Lemma dispatched_app (s s' : Queued.State) (t : list Queued.Effect) :
  Queued.trace s' = Queued.trace s ++ t ->
  dispatched s' = dispatched s ++ dispatched_in t.
Proof. unfold dispatched, dispatched_in. intros ->. apply flat_map_app. Qed.

Lemma assignTasks_frame (cfg : Queued.Config) now post (s : Queued.State) :
  let s' := fst (Queued.assignTasks cfg now post s) in
  workers s' = workers s /\
  Queued.workersMade s' = Queued.workersMade s /\
  Queued.created s' = Queued.created s /\
  Queued.building s' = Queued.building s /\
  Queued.promises s' = Queued.promises s /\
  (exists t, Queued.trace s' = Queued.trace s ++ t) /\
  dispatched s' ++ queued s' = dispatched s ++ queued s.
Proof.
  destruct (assignTasks_spec cfg now post s) as [[E _]|H]; cbv zeta in *.
  - rewrite E. simpl. repeat split. exists []. now rewrite app_nil_r.
  - destruct H as (i & it & e & rest & logs & F & N & B & Q & _ & P & Q' & W & C & Bd & Pr
                   & L & T).
    repeat split; try assumption.
    + unfold workers. rewrite P. apply update_map. reflexivity.
    + eexists. exact T.
    + rewrite (dispatched_app _ _ _ T). unfold queued. rewrite Q', Q. simpl.
      unfold dispatched_in. rewrite flat_map_app. simpl.
      destruct (dispatched_in_no_post (is_log_no_post L)) as [D _].
      unfold dispatched_in in D. rewrite D. simpl. now rewrite <- app_assoc.
Qed.

Lemma run_frame (cfg : Queued.Config) task taskId now post (s : Queued.State) :
  let s' := Queued.run cfg task taskId now post s in
  workers s' = workers s /\
  Queued.workersMade s' = Queued.workersMade s /\
  Queued.created s' = Queued.created s /\
  Queued.building s' = Queued.building s /\
  (exists t, Queued.trace s' = Queued.trace s ++ t) /\
  dispatched s' ++ queued s' = dispatched s ++ queued s ++ [(task, taskId)].
Proof.
  unfold Queued.run. cbv zeta.
  match goal with |- context [Queued.assignTasks cfg now post ?s0] =>
    destruct (assignTasks_frame cfg now post s0) as (W & M & C & B & _ & [t T] & F);
    destruct (Queued.assignTasks cfg now post s0) as [s1 [err|]]
  end; cbv zeta in *; simpl in W, M, C, B, T, F.
  - match goal with |- context [Queued.call_reject ?p err s1] =>
      destruct (call_reject_frame p err s1) as (P2 & Q2 & W2 & C2 & B2 & _ & t2 & T2 & F2)
    end.
    cbv zeta in *. unfold workers in *. rewrite P2, W2, C2, B2.
    repeat split; try assumption.
    + exists (t ++ t2). rewrite T2, T. now rewrite app_assoc.
    + rewrite (dispatched_app _ _ _ T2).
      destruct (dispatched_in_no_post F2) as [D _]. rewrite D, app_nil_r.
      unfold queued in *. rewrite Q2, F.
      unfold dispatched. simpl. rewrite map_app. reflexivity.
  - repeat split; try assumption.
    + exists t. exact T.
    + rewrite F. unfold dispatched, queued. simpl. rewrite map_app. reflexivity.
Qed.

Lemma handleWorkerResult_frame (cfg : Queued.Config) w result workerId now post
      (s : Queued.State) :
  let s' := fst (Queued.handleWorkerResult cfg w result workerId now post s) in
  workers s' = workers s /\
  Queued.workersMade s' = Queued.workersMade s /\
  Queued.created s' = Queued.created s /\
  Queued.building s' = Queued.building s /\
  (exists t, Queued.trace s' = Queued.trace s ++ t) /\
  dispatched s' ++ queued s' = dispatched s ++ queued s.
Proof.
  unfold Queued.handleWorkerResult.
  destruct (find_index _ (Queued.pool s)) as [i|].
  2: { simpl. repeat split. exists []. now rewrite app_nil_r. }
  destruct (release_spec cfg i result workerId now s)
    as ((G & HG & P) & Q & W & C & B & _ & t & T & F).
  destruct (assignTasks_frame cfg now post (Queued.release cfg i result workerId now s))
    as (W' & M' & C' & B' & _ & [t' T'] & F').
  cbv zeta in *. rewrite W', M', C', B', F'.
  repeat split; try assumption.
  - unfold workers. rewrite P. apply update_map. intros x. apply HG.
  - exists (t ++ t'). rewrite T', T. now rewrite app_assoc.
  - rewrite (dispatched_app _ _ _ T). destruct (dispatched_in_no_post F) as [D _].
    rewrite D, app_nil_r. unfold queued. rewrite Q. reflexivity.
Qed.

Lemma on_online_frame (cfg : Queued.Config) w (s : Queued.State) :
  let s' := Queued.on_online cfg w s in
  Queued.taskQueue s' = Queued.taskQueue s /\
  Queued.promises s' = Queued.promises s /\
  exists t, Queued.trace s' = Queued.trace s ++ t /\
            dispatched_in t = [] /\ posted_to t = [] /\
            Forall (fun e => match e with
                             | Queued.Resolve _ _ | Queued.Reject _ _ => False
                             | _ => True
                             end) t.
Proof.
  unfold Queued.on_online.
  destruct (Queued.building s) as [b|].
  2: { repeat split. exists []. rewrite app_nil_r. repeat split. constructor. }
  destruct (Nat.eqb (Queued.b_worker b) w).
  2: { repeat split. exists []. rewrite app_nil_r. repeat split. constructor. }
  unfold Queued.buildPool_from, Queued.addWorkerToPool, Queued.log.
  destruct (S (Queued.b_i b) <? Queued.poolSize cfg); simpl.
  2: { repeat split. exists []. rewrite app_nil_r. repeat split. constructor. }
  destruct (Queued.newWorker cfg (Queued.workersMade s)); simpl.
  - repeat split. eexists. split; [reflexivity|]. repeat split. repeat constructor.
  - destruct (Queued.returnLog cfg); simpl; repeat split; rewrite <- ?app_assoc;
      eexists; (split; [reflexivity|]); repeat split; repeat constructor.
Qed.

Lemma terminateAllWorkers_trace (cfg : Queued.Config) (l : list Queued.WorkerItem)
      (s : Queued.State) :
  exists t,
    Queued.trace (fold_left (fun s it =>
                               Queued.emit (Queued.Terminate (Queued.worker it))
                                 (Queued.log (Queued.returnLog cfg)
                                             (Queued.LogTerminating (Queued.id it)) s))
                            l s)
    = Queued.trace s ++ t /\
    dispatched_in t = [] /\ posted_to t = [] /\
    Forall (fun e => match e with
                     | Queued.Resolve _ _ | Queued.Reject _ _ => False
                     | _ => True
                     end) t.
Proof.
  revert s. induction l as [|it l IH]; intros s; simpl.
  - exists []. rewrite app_nil_r. repeat split. constructor.
  - match goal with |- context [fold_left ?f l ?s1] =>
      destruct (IH s1) as (t & T & D & P & F) end.
    rewrite T. unfold Queued.log.
    destruct (Queued.returnLog cfg); simpl; rewrite <- ?app_assoc;
      eexists; (split; [reflexivity|]); simpl; repeat split; auto;
      repeat (constructor; [exact I|]); exact F.
Qed.

Lemma step_fifo (cfg : Queued.Config) (s : Queued.State) (e : Queued.Event) :
  let s' := fst (Queued.step cfg s e) in
  (exists t, Queued.trace s' = Queued.trace s ++ t) /\
  dispatched s' ++ queued s' = dispatched s ++ queued s ++ submitted [e].
Proof.
  destruct e as [task taskId now post|w|w result now post|w error|]; simpl.
  - destruct (run_frame cfg task taskId now post s) as (_ & _ & _ & _ & T & F).
    split; assumption.
  - destruct (on_online_frame cfg w s) as (Q & _ & t & T & D & _).
    cbv zeta in *. split; [exists t; exact T|].
    rewrite (dispatched_app _ _ _ T), D, !app_nil_r. unfold queued. now rewrite Q.
  - unfold Queued.on_message.
    destruct (find _ (Queued.created s)) as [[w' workerId]|].
    + destruct (handleWorkerResult_frame cfg w result workerId now post s)
        as (_ & _ & _ & _ & T & F).
      cbv zeta in *. rewrite app_nil_r. split; assumption.
    + simpl. rewrite app_nil_r. split; [exists []; now rewrite app_nil_r|reflexivity].
  - unfold Queued.on_error. rewrite app_nil_r.
    destruct (find _ (Queued.created s)) as [[w' workerId]|]; simpl.
    + split; [eexists; reflexivity|].
      unfold dispatched, dispatched_in. simpl. rewrite flat_map_app. simpl.
      now rewrite app_nil_r.
    + split; [exists []; now rewrite app_nil_r|reflexivity].
  - unfold Queued.terminateAllWorkers. simpl.
    destruct (terminateAllWorkers_trace cfg (Queued.pool s) s) as (t & T & D & _).
    destruct (queued_terminate_fold cfg (Queued.pool s) s) as (_ & Q & _).
    cbv zeta in *. split; [exists t; exact T|].
    unfold dispatched, queued. simpl. rewrite T, Q.
    unfold dispatched_in in *. rewrite flat_map_app, D, !app_nil_r. reflexivity.
Qed.

Lemma steps_fifo (cfg : Queued.Config) (es : list Queued.Event) :
  forall (s s' : Queued.State) r,
    Queued.steps cfg s es = (s', r) ->
    (exists t, Queued.trace s' = Queued.trace s ++ t) /\
    (r = None ->
     dispatched s' ++ queued s' = dispatched s ++ queued s ++ submitted es).
Proof.
  induction es as [|e es IH]; intros s s' r; simpl.
  - intros [= <- <-]. split; [exists []; now rewrite app_nil_r|].
    intros _. now rewrite !app_nil_r.
  - destruct (step_fifo cfg s e) as ([t T] & F). cbv zeta in *.
    destruct (Queued.step cfg s e) as [s1 [err|]]; simpl in *.
    + intros [= <- <-]. split; [exists t; exact T|discriminate].
    + intros H. destruct (IH _ _ _ H) as ([t' T'] & F').
      split; [exists (t ++ t'); rewrite T', T; now rewrite app_assoc|].
      intros Hr. rewrite (F' Hr), app_assoc, F.
      unfold submitted. simpl. rewrite <- !app_assoc. reflexivity.
Qed.

Lemma saturated_find (s : Queued.State) :
  saturated s ->
  find_index (fun w => negb (Queued.busy w)) (Queued.pool s) = None.
Proof.
  unfold saturated. intros H. apply find_index_none.
  rewrite <- H. clear H. induction (Queued.pool s) as [|x l IH]; simpl;
    [reflexivity|]. now rewrite IH, negb_involutive.
Qed.

(** With no idle worker, [run] only appends the entry to the queue. *)
Lemma run_saturated (cfg : Queued.Config) task taskId now post (s : Queued.State) :
  saturated s ->
  Queued.run cfg task taskId now post s
  = Queued.set_taskQueue
      (Queued.taskQueue s
       ++ [{| Queued.e_task := task; Queued.e_taskId := taskId;
              Queued.e_resolve := Queued.promises s;
              Queued.e_reject := Queued.promises s |}])
      (Queued.set_promises (S (Queued.promises s)) s).
Proof.
  intros H. unfold Queued.run, Queued.assignTasks. simpl.
  rewrite (saturated_find H). reflexivity.
Qed.



(** ** The states of the queued class *)

Lemma queued_inv_ext (cfg : Queued.Config) (s s' : Queued.State) :
  workers s' = workers s ->
  Queued.workersMade s' = Queued.workersMade s ->
  Queued.building s' = Queued.building s ->
  queued_inv cfg s -> queued_inv cfg s'.
Proof. unfold queued_inv. intros -> -> ->. trivial. Qed.

Lemma queued_inv_constructor (cfg : Queued.Config) :
  queued_inv cfg (Queued.constructor cfg).
Proof.
  unfold Queued.constructor, Queued.buildPool_from, Queued.addWorkerToPool, queued_inv.
  destruct (0 <? Queued.poolSize cfg) eqn:E; simpl.
  - apply Nat.ltb_lt in E.
    destruct (Queued.newWorker cfg 0); unfold workers, Queued.log;
      [|destruct (Queued.returnLog cfg)]; simpl;
      repeat split; try constructor; auto; lia.
  - unfold workers. simpl. repeat split; try constructor. lia.
Qed.

Lemma queued_inv_online (cfg : Queued.Config) (w : nat) (s : Queued.State) :
  queued_inv cfg s -> queued_inv cfg (Queued.on_online cfg w s).
Proof.
  intros I. unfold Queued.on_online.
  destruct (Queued.building s) as [b|] eqn:B; [|exact I].
  destruct (Nat.eqb (Queued.b_worker b) w) eqn:E; [|exact I].
  apply Nat.eqb_eq in E. subst w.
  destruct I as (ND & FA & I). rewrite B in I. destruct I as (Hw & Hin & Hi & Hl).
  assert (ND' : NoDup (workers s ++ [Queued.b_worker b])).
  { apply NoDup_app; [exact ND | repeat constructor; simpl; tauto |].
    intros x Hx [<-|[]]. contradiction. }
  unfold Queued.buildPool_from, Queued.addWorkerToPool, queued_inv.
  destruct (S (Queued.b_i b) <? Queued.poolSize cfg) eqn:L.
  - apply Nat.ltb_lt in L. simpl.
    destruct (Queued.newWorker cfg (Queued.workersMade s));
      unfold workers, Queued.log in *; [|destruct (Queued.returnLog cfg)];
      simpl; rewrite map_app; simpl; rewrite ?length_app; simpl;
      (split; [exact ND'|]);
      (split; [apply Forall_app; split;
               [eapply Forall_impl; [|exact FA]; simpl; intros; lia
               |repeat constructor; lia]|]);
      repeat split; try lia;
      try (intros Hx; apply in_app_or in Hx; destruct Hx as [Hx|[Hx|[]]];
           [rewrite Forall_forall in FA; apply FA in Hx; lia | lia]).
  - apply Nat.ltb_ge in L. unfold workers in *. simpl. rewrite map_app. simpl.
    split; [exact ND'|]. split.
    + apply Forall_app. split; [exact FA|repeat constructor; exact Hw].
    + rewrite length_app. simpl. lia.
Qed.

Lemma queued_inv_step (cfg : Queued.Config) (s : Queued.State) (e : Queued.Event) :
  queued_inv cfg s -> queued_inv cfg (fst (Queued.step cfg s e)).
Proof.
  intros I. destruct e as [task taskId now post|w|w result now post|w error|]; simpl.
  - destruct (run_frame cfg task taskId now post s) as (W & M & _ & B & _).
    exact (@queued_inv_ext cfg _ _ W M B I).
  - apply queued_inv_online, I.
  - unfold Queued.on_message.
    destruct (find _ (Queued.created s)) as [[w' workerId]|]; [|exact I].
    destruct (handleWorkerResult_frame cfg w result workerId now post s)
      as (W & M & _ & B & _).
    exact (@queued_inv_ext cfg _ _ W M B I).
  - unfold Queued.on_error.
    destruct (find _ (Queued.created s)) as [[w' workerId]|]; exact I.
  - unfold Queued.terminateAllWorkers.
    destruct (queued_terminate_fold cfg (Queued.pool s) s) as (_ & _ & M & _ & B & _).
    cbv zeta in *. destruct I as (_ & _ & I).
    unfold queued_inv, workers. simpl. rewrite M, B.
    split; [constructor|]. split; [constructor|].
    destruct (Queued.building s); simpl; [|lia].
    destruct I as (Hw & _ & Hi & _). repeat split; auto. lia.
Qed.

Lemma queued_inv_steps (cfg : Queued.Config) (es : list Queued.Event) :
  forall (s s' : Queued.State) r,
    Queued.steps cfg s es = (s', r) -> queued_inv cfg s -> queued_inv cfg s'.
Proof.
  induction es as [|e es IH]; intros s s' r; simpl.
  - intros [= <- <-]. trivial.
  - pose proof (@queued_inv_step cfg s e) as K.
    destruct (Queued.step cfg s e) as [s1 [err|]]; simpl in K.
    + intros [= <- <-]. exact K.
    + intros H I. eapply IH; eauto.
Qed.

Lemma queued_inv_reachable (cfg : Queued.Config) (s : Queued.State) :
  Queued.reachable cfg s -> queued_inv cfg s.
Proof.
  intros [es H]. eapply queued_inv_steps; [exact H|apply queued_inv_constructor].
Qed.

(** ** The size of the pool *)


(** ** Dispatch goes to idle workers only *)

Lemma new_effects_app (s s' : Queued.State) (t : list Queued.Effect) :
  Queued.trace s' = Queued.trace s ++ t -> new_effects s s' = t.
Proof.
  unfold new_effects. intros ->.
  rewrite skipn_app, Nat.sub_diag, skipn_all. reflexivity.
Qed.

Lemma posted_to_app (t u : list Queued.Effect) :
  posted_to (t ++ u) = posted_to t ++ posted_to u.
Proof. apply flat_map_app. Qed.

Lemma assignTasks_posts (cfg : Queued.Config) now post (s : Queued.State) :
  NoDup (workers s) ->
  let s' := fst (Queued.assignTasks cfg now post s) in
  exists t,
    Queued.trace s' = Queued.trace s ++ t /\
    (posted_to t = [] \/
     exists w, posted_to t = [w] /\ busy_of w s = Some false /\ busy_of w s' = Some true).
Proof.
  intros ND. destruct (assignTasks_spec cfg now post s) as [[E _]|H]; cbv zeta in *.
  - rewrite E. simpl. exists []. rewrite app_nil_r. auto.
  - destruct H as (i & it & e & rest & logs & F & N & B & Q & _ & P & _ & _ & _ & _ & _
                   & L & T).
    eexists. split; [exact T|]. right. exists (Queued.worker it).
    rewrite posted_to_app.
    destruct (dispatched_in_no_post (is_log_no_post L)) as [_ D]. rewrite D. simpl.
    split; [reflexivity|]. unfold busy_of. split.
    + unfold workers in ND.
      rewrite (find_by_key Queued.worker (Queued.pool s) i ND N). simpl. now rewrite B.
    + rewrite P.
      assert (ND' : NoDup (map Queued.worker (update i (assigned e now) (Queued.pool s)))).
      { rewrite update_map; [exact ND|reflexivity]. }
      pose proof (update_nth_error i (assigned e now) (Queued.pool s) N) as N'.
      pose proof (find_by_key Queued.worker _ i ND' N') as K. simpl in K.
      rewrite K. reflexivity.
Qed.

Lemma run_posts (cfg : Queued.Config) task taskId now post (s : Queued.State) :
  NoDup (workers s) ->
  let s' := Queued.run cfg task taskId now post s in
  exists t,
    Queued.trace s' = Queued.trace s ++ t /\
    (posted_to t = [] \/
     exists w, posted_to t = [w] /\ busy_of w s = Some false /\ busy_of w s' = Some true).
Proof.
  intros ND. unfold Queued.run. cbv zeta.
  match goal with |- context [Queued.assignTasks cfg now post ?s0] =>
    destruct (assignTasks_posts cfg now post s0 ND) as (t & T & H);
    destruct (Queued.assignTasks cfg now post s0) as [s1 [err|]]
  end; cbv zeta in *; simpl in T, H.
  - match goal with |- context [Queued.call_reject ?p err s1] =>
      destruct (call_reject_frame p err s1) as (P2 & _ & _ & _ & _ & _ & t2 & T2 & F2)
    end.
    cbv zeta in *. exists (t ++ t2). rewrite T2, T, app_assoc. split; [reflexivity|].
    rewrite posted_to_app. destruct (dispatched_in_no_post F2) as [_ D].
    rewrite D, app_nil_r. unfold busy_of in *. rewrite P2. exact H.
  - exists t. split; assumption.
Qed.

Lemma handleWorkerResult_posts (cfg : Queued.Config) w result workerId now post
      (s : Queued.State) :
  NoDup (workers s) ->
  let s' := fst (Queued.handleWorkerResult cfg w result workerId now post s) in
  exists t,
    Queued.trace s' = Queued.trace s ++ t /\
    (posted_to t = [] \/
     exists w', posted_to t = [w'] /\ (busy_of w' s = Some false \/ w' = w)
                /\ busy_of w' s' = Some true).
Proof.
  intros ND. unfold Queued.handleWorkerResult.
  destruct (find_index _ (Queued.pool s)) as [i|] eqn:F.
  2: { simpl. exists []. rewrite app_nil_r. auto. }
  destruct (find_index_some _ _ F) as (it & N & K & _). apply Nat.eqb_eq in K.
  destruct (release_spec cfg i result workerId now s)
    as ((G & HG & P) & _ & _ & _ & _ & _ & t1 & T1 & F1).
  cbv zeta in *.
  assert (W1 : workers (Queued.release cfg i result workerId now s) = workers s).
  { unfold workers. rewrite P. apply update_map. intros x. apply HG. }
  destruct (assignTasks_posts cfg now post (Queued.release cfg i result workerId now s))
    as (t & T & H); [rewrite W1; exact ND|].
  cbv zeta in *. exists (t1 ++ t). rewrite T, T1, app_assoc. split; [reflexivity|].
  rewrite posted_to_app. destruct (dispatched_in_no_post F1) as [_ D]. rewrite D. simpl.
  destruct H as [H|(w' & Hp & Hb & Hb')]; [left; exact H|].
  right. exists w'. split; [exact Hp|]. split; [|exact Hb'].
  destruct (Nat.eq_dec w' w) as [->|Hne]; [right; reflexivity|left].
  unfold busy_of in *. rewrite P in Hb.
  rewrite (@find_update_other _ Queued.worker w' i G (Queued.pool s) it
                              (fun y => proj1 (HG y)) N) in Hb; [exact Hb|].
  congruence.
Qed.

(** C7: whenever a step of the queued class posts a task to a worker, the
    pool's item for that worker was idle just before the post: its [busy]
    flag was false in the state the step started from, or the step is the
    handling of that worker's own result, which sets the flag to false
    first.  The post leaves the flag true, and a step posts at most one
    task. *)
Theorem busy_worker_gets_no_task
        (cfg : Queued.Config) (s : Queued.State) (e : Queued.Event) (w : nat) :
  Queued.reachable cfg s ->
  In w (posted_to (new_effects s (fst (Queued.step cfg s e)))) ->
  (busy_of w s = Some false
   \/ exists result now post, e = Queued.Message w result now post) /\
  busy_of w (fst (Queued.step cfg s e)) = Some true /\
  posted_to (new_effects s (fst (Queued.step cfg s e))) = [w].
Proof.
  intros R. destruct (queued_inv_reachable R) as (ND & _).
  destruct e as [task taskId now post|w0|w0 result now post|w0 error|]; simpl.
  - destruct (run_posts cfg task taskId now post s ND) as (t & T & H).
    cbv zeta in *. rewrite (new_effects_app _ _ _ T).
    destruct H as [->|(w' & -> & Hb & Hb')]; [contradiction|].
    intros [<-|[]]. auto.
  - destruct (on_online_frame cfg w0 s) as (_ & _ & t & T & _ & P & _).
    cbv zeta in *. rewrite (new_effects_app _ _ _ T), P. contradiction.
  - unfold Queued.on_message.
    destruct (find _ (Queued.created s)) as [[w' workerId]|].
    + destruct (handleWorkerResult_posts cfg w0 result workerId now post s ND) as (t & T & H).
      cbv zeta in *. rewrite (new_effects_app _ _ _ T).
      destruct H as [->|(w1 & -> & Hb & Hb')]; [contradiction|].
      intros [<-|[]]. split; [|auto].
      destruct Hb as [Hb| ->]; [left; exact Hb|right; eauto].
    + simpl. unfold new_effects. rewrite skipn_all. contradiction.
  - unfold Queued.on_error.
    destruct (find _ (Queued.created s)) as [[w' workerId]|]; simpl.
    + rewrite (new_effects_app s _ [Queued.Log (Queued.LogWorkerError workerId error)]);
        [|reflexivity].
      contradiction.
    + unfold new_effects. rewrite skipn_all. contradiction.
  - unfold Queued.terminateAllWorkers.
    destruct (terminateAllWorkers_trace cfg (Queued.pool s) s) as (t & T & _ & P & _).
    rewrite (new_effects_app s _ t); [rewrite P; contradiction|exact T].
Qed.

(** ** A worker that fails, in the queued class *)

Lemma settled_unchanged (p : nat) (s s' : Queued.State) (t : list Queued.Effect) :
  Queued.trace s' = Queued.trace s ++ t -> Forall settles_nothing t ->
  Queued.settled p s' = Queued.settled p s.
Proof.
  unfold Queued.settled. intros -> F. rewrite existsb_app.
  assert (E : existsb (fun e => match e with
                                | Queued.Resolve q _ | Queued.Reject q _ => Nat.eqb q p
                                | _ => false
                                end) t = false).
  { induction F as [|e t He _ IH]; simpl; [reflexivity|].
    rewrite IH. destruct e; simpl in *; try contradiction; reflexivity. }
  rewrite E. apply orb_false_r.
Qed.

(** Once every worker of the pool is busy and [buildPool] is over, no event
    other than a worker's result dispatches a task or settles a promise. *)
Lemma stuck_step (cfg : Queued.Config) (s : Queued.State) (e : Queued.Event) :
  saturated s -> Queued.building s = None -> not_message e = true ->
  let s' := fst (Queued.step cfg s e) in
  snd (Queued.step cfg s e) = None /\
  saturated s' /\ Queued.building s' = None /\
  (forall p, Queued.settled p s' = Queued.settled p s) /\
  dispatched s' = dispatched s.
Proof.
  intros Sat B NM.
  destruct e as [task taskId now post|w|w result now post|w error|]; simpl;
    try discriminate.
  - rewrite (run_saturated cfg task taskId now post Sat). repeat split; assumption.
  - unfold Queued.on_online. rewrite B. repeat split; assumption.
  - unfold Queued.on_error.
    destruct (find _ (Queued.created s)) as [[w' workerId]|]; simpl;
      repeat split; try assumption.
    + intros p. unfold Queued.settled. simpl. rewrite existsb_app. simpl.
      now rewrite !orb_false_r.
    + unfold dispatched, dispatched_in. simpl. rewrite flat_map_app. simpl.
      now rewrite app_nil_r.
  - unfold Queued.terminateAllWorkers.
    destruct (terminateAllWorkers_trace cfg (Queued.pool s) s) as (t & T & D & _ & F).
    destruct (queued_terminate_fold cfg (Queued.pool s) s) as (_ & _ & _ & _ & Bd & _).
    cbv zeta in *. split; [reflexivity|]. split; [reflexivity|].
    simpl. split; [now rewrite Bd|]. split.
    + intros p. apply settled_unchanged with (t := t); [exact T|exact F].
    + unfold dispatched. simpl. rewrite T. unfold dispatched_in in *.
      now rewrite flat_map_app, D, app_nil_r.
Qed.

Lemma stuck_steps (cfg : Queued.Config) (es : list Queued.Event) :
  forall s : Queued.State,
    saturated s -> Queued.building s = None ->
    let r := Queued.steps cfg s (filter not_message es) in
    snd r = None /\
    (forall p, Queued.settled p (fst r) = Queued.settled p s) /\
    dispatched (fst r) = dispatched s.
Proof.
  induction es as [|e es IH]; intros s Sat B; simpl.
  - repeat split.
  - destruct (not_message e) eqn:NM; [|apply IH; assumption].
    simpl. destruct (@stuck_step cfg s e Sat B NM) as (R & Sat' & B' & S & D).
    cbv zeta in *.
    destruct (Queued.step cfg s e) as [s1 r1]. simpl in *. subst r1.
    destruct (IH s1 Sat' B') as (R2 & S2 & D2). cbv zeta in *.
    split; [exact R2|]. split; [|congruence].
    intros p. rewrite S2. apply S.
Qed.

(** C3, at the failing input: a pool of one worker gets task a, which is
    dispatched, and task b, which waits in the queue; then the worker
    fails.  The failure is only logged: neither promise is settled, task b
    stays in the queue behind a worker that stays busy, and no later
    submission, failure or shutdown, whatever their number, settles either
    promise or dispatches task b. *)
Theorem worker_error_leaves_promises_pending :
  let s := fst (Queued.steps one_queued_worker (Queued.constructor one_queued_worker)
                             [Queued.Online 0;
                              Queued.Run (VStr "a") (VStr "1") 0 None;
                              Queued.Run (VStr "b") (VStr "2") 1 None;
                              Queued.WorkerError 0 "boom"]) in
  Queued.promises s = 2 /\
  Queued.settled 0 s = false /\ Queued.settled 1 s = false /\
  dispatched s = [(VStr "a", VStr "1")] /\
  queued s = [(VStr "b", VStr "2")] /\
  map Queued.busy (Queued.pool s) = [true] /\
  forall es,
    let r := Queued.steps one_queued_worker s (filter not_message es) in
    snd r = None /\
    Queued.settled 0 (fst r) = false /\ Queued.settled 1 (fst r) = false /\
    dispatched (fst r) = [(VStr "a", VStr "1")].
Proof.
  intros s. repeat (split; [vm_compute; reflexivity|]).
  intros es.
  destruct (@stuck_steps one_queued_worker es s) as (R & S & D);
    [vm_compute; reflexivity | vm_compute; reflexivity |].
  cbv zeta in *. rewrite !S, D. repeat split; try exact R; vm_compute; reflexivity.
Qed.

(** ** A worker that cannot be created *)

Lemma queued_steps_app (cfg : Queued.Config) (l1 l2 : list Queued.Event) :
  forall s : Queued.State,
    Queued.steps cfg s (l1 ++ l2)
    = match Queued.steps cfg s l1 with
      | (s1, None) => Queued.steps cfg s1 l2
      | crash => crash
      end.
Proof.
  induction l1 as [|e l1 IH]; intros s; simpl; [reflexivity|].
  destruct (Queued.step cfg s e) as [s1 [err|]]; [reflexivity|apply IH].
Qed.

(** Once [buildPool] is over, no event makes a worker or lets the pool
    grow. *)
Lemma built_step (cfg : Queued.Config) (s : Queued.State) (e : Queued.Event) :
  Queued.building s = None ->
  let s' := fst (Queued.step cfg s e) in
  Queued.building s' = None /\
  Queued.workersMade s' = Queued.workersMade s /\
  length (workers s') <= length (workers s).
Proof.
  intros B. destruct e as [task taskId now post|w|w result now post|w error|]; simpl.
  - destruct (run_frame cfg task taskId now post s) as (W & M & _ & Bd & _).
    cbv zeta in *. rewrite W, M, Bd. auto.
  - unfold Queued.on_online. rewrite B. auto.
  - unfold Queued.on_message.
    destruct (find _ (Queued.created s)) as [[w' workerId]|]; [|simpl; auto].
    destruct (handleWorkerResult_frame cfg w result workerId now post s)
      as (W & M & _ & Bd & _).
    cbv zeta in *. rewrite W, M, Bd. auto.
  - unfold Queued.on_error.
    destruct (find _ (Queued.created s)) as [[w' workerId]|]; simpl; auto.
  - unfold Queued.terminateAllWorkers.
    destruct (queued_terminate_fold cfg (Queued.pool s) s) as (_ & _ & M & _ & Bd & _).
    cbv zeta in *. unfold workers. simpl. rewrite M, Bd. repeat split; auto. lia.
Qed.

Lemma built_steps (cfg : Queued.Config) (es : list Queued.Event) :
  forall s : Queued.State,
    Queued.building s = None ->
    let s' := fst (Queued.steps cfg s es) in
    Queued.building s' = None /\
    Queued.workersMade s' = Queued.workersMade s /\
    length (workers s') <= length (workers s).
Proof.
  induction es as [|e es IH]; intros s B; simpl; [auto|].
  destruct (@built_step cfg s e B) as (B1 & M1 & L1). cbv zeta in *.
  destruct (Queued.step cfg s e) as [s1 [err|]]; simpl in *; [auto|].
  destruct (IH s1 B1) as (B2 & M2 & L2). cbv zeta in *.
  repeat split; [assumption|congruence|lia].
Qed.

(** The queued class while the first [k] workers start, the creation of
    worker [k] being the first that throws. *)
Lemma queued_build_progress (cfg : Queued.Config) (k : nat) (err : exn) :
  k < Queued.poolSize cfg ->
  (forall i, i < k -> Queued.newWorker cfg i = None) ->
  Queued.newWorker cfg k = Some err ->
  forall j, j <= k ->
    let r := Queued.steps cfg (Queued.constructor cfg) (map Queued.Online (seq 0 j)) in
    snd r = None /\
    length (Queued.pool (fst r)) = j /\
    Queued.workersMade (fst r) = S j /\
    if j <? k
    then exists workerId,
        Queued.building (fst r)
        = Some {| Queued.b_i := j; Queued.b_worker := j; Queued.b_workerId := workerId |}
    else Queued.building (fst r) = None /\
         In (Queued.Log (Queued.LogBuildFailed
                           (Error ("Failed to create worker: " ++ err_message err)%string)))
            (Queued.trace (fst r)).
Proof.
  intros Hk Hok Herr. induction j as [|j IH]; intros Hj.
  - simpl. unfold Queued.constructor, Queued.buildPool_from, Queued.addWorkerToPool.
    assert (E : (0 <? Queued.poolSize cfg) = true) by (apply Nat.ltb_lt; lia).
    rewrite E. simpl. destruct k as [|k].
    + rewrite Herr. simpl. repeat split. left. reflexivity.
    + rewrite (Hok 0) by lia. unfold Queued.log.
      destruct (Queued.returnLog cfg); simpl; repeat split; eexists; reflexivity.
  - rewrite seq_S, map_app, queued_steps_app. simpl.
    destruct IH as (R & L & M & B); [lia|]. cbv zeta in *.
    destruct (Queued.steps cfg (Queued.constructor cfg) (map Queued.Online (seq 0 j)))
      as [s r].
    simpl in *. subst r.
    assert (E : (j <? k) = true) by (apply Nat.ltb_lt; lia).
    rewrite E in B. destruct B as [workerId B].
    unfold Queued.on_online. rewrite B. simpl. rewrite Nat.eqb_refl.
    unfold Queued.buildPool_from, Queued.addWorkerToPool.
    assert (E2 : (S j <? Queued.poolSize cfg) = true) by (apply Nat.ltb_lt; lia).
    rewrite E2. simpl. rewrite M.
    destruct (S j <? k) eqn:E3.
    + apply Nat.ltb_lt in E3. rewrite (Hok (S j)) by lia. unfold Queued.log.
      destruct (Queued.returnLog cfg); simpl; rewrite length_app, L; simpl;
        repeat split; try lia; eexists; reflexivity.
    + apply Nat.ltb_ge in E3. assert (S j = k) by lia. subst k.
      rewrite Herr. simpl. rewrite length_app, L. simpl.
      repeat split; try lia. apply in_or_app. right. left. reflexivity.
Qed.

(** [buildPool] of src/index.js when the creation of worker [k] of the call
    is the first that throws. *)
Lemma buildPool_first_failure (cfg : Index.Config) (k : nat) (err : exn) :
  forall (n i : nat) (s : Index.State),
    k < n ->
    (forall j, j < k -> Index.newWorker cfg (Index.workersMade s + j) = None) ->
    Index.newWorker cfg (Index.workersMade s + k) = Some err ->
    let r := Index.buildPool_loop cfg n i s in
    snd r = false /\
    length (Index.pool (fst r)) = length (Index.pool s) + k /\
    Index.workersMade (fst r) = Index.workersMade s + S k /\
    creations (fst r) = creations s ++ seq (Index.workersMade s) k.
Proof.
  induction k as [|k IH]; intros n i s Hn Hok Herr; (destruct n as [|n]; [lia|]); simpl.
  - rewrite Nat.add_0_r in Herr. rewrite Herr. simpl.
    rewrite creations_emit, !app_nil_r. repeat split; lia.
  - pose proof (Hok 0 ltac:(lia)) as H0. rewrite Nat.add_0_r in H0. rewrite H0.
    match goal with |- context [Index.buildPool_loop cfg n (S i) ?t] =>
      destruct (IH n (S i) t) as (R & L & M & C) end.
    + lia.
    + intros j Hj. simpl. rewrite <- Nat.add_succ_r. apply Hok. lia.
    + simpl. rewrite <- Nat.add_succ_r. exact Herr.
    + cbv zeta in *. simpl in L, M, C. rewrite R, L, M, C.
      rewrite length_app. simpl.
      unfold creations. simpl. rewrite flat_map_app. simpl.
      rewrite <- app_assoc. simpl. repeat split; lia.
Qed.

(** C9, as stated, fails.  In a pool of three whose second worker cannot
    be created, the queued class evaluates [new Worker] twice and never a
    third time, whatever happens later, and its pool never holds more than
    the one worker made before the failure; [buildPool] of src/index.js
    also stops at the failure, with one worker in the pool. *)
Lemma buildPool_failure_counterexample :
  let q := fst (Queued.steps three_queued_workers
                             (Queued.constructor three_queued_workers)
                             [Queued.Online 0]) in
  let s := fst (Index.buildPool three_workers Index.empty) in
  Queued.poolSize three_queued_workers = 3 /\
  queued_creations q = [0] /\
  Queued.workersMade q = 2 /\
  length (Queued.pool q) = 1 /\
  (forall es,
      let q' := fst (Queued.steps three_queued_workers q es) in
      Queued.workersMade q' = 2 /\ length (Queued.pool q') <= 1) /\
  creations s = [0] /\
  Index.workersMade s = 2 /\
  length (Index.pool s) = 1.
Proof.
  intros q s. repeat (split; [vm_compute; reflexivity|]).
  split; [|vm_compute; auto].
  intros es. destruct (@built_steps three_queued_workers es q) as (_ & M & L).
  - vm_compute. reflexivity.
  - cbv zeta in *. unfold workers in L. rewrite !length_map in L.
    split; [rewrite M; vm_compute; reflexivity|].
    etransitivity; [exact L|]. vm_compute. auto.
Qed.

(** C9 (amended): during [buildPool], when the creation of a worker fails
    ([new Worker] throws), pool construction stops there: the workers made
    before it are in the pool and none of the remaining creations is
    attempted.  The queued class logs the failure and keeps the smaller pool
    from then on: no later event makes a worker. *)
Theorem buildPool_stops_at_first_failure :
  (forall (cfg : Queued.Config) (k : nat) (err : exn),
      k < Queued.poolSize cfg ->
      (forall i, i < k -> Queued.newWorker cfg i = None) ->
      Queued.newWorker cfg k = Some err ->
      let r := Queued.steps cfg (Queued.constructor cfg) (map Queued.Online (seq 0 k)) in
      snd r = None /\
      length (Queued.pool (fst r)) = k /\
      Queued.workersMade (fst r) = S k /\
      Queued.building (fst r) = None /\
      In (Queued.Log (Queued.LogBuildFailed
                        (Error ("Failed to create worker: " ++ err_message err)%string)))
         (Queued.trace (fst r)) /\
      forall es,
        let s' := fst (Queued.steps cfg (fst r) es) in
        Queued.workersMade s' = S k /\ length (Queued.pool s') <= k) /\
  (forall (cfg : Index.Config) (k : nat) (err : exn),
      k < Index.poolSize cfg ->
      (forall i, i < k -> Index.newWorker cfg i = None) ->
      Index.newWorker cfg k = Some err ->
      let s := fst (Index.buildPool cfg Index.empty) in
      length (Index.pool s) = k /\
      Index.workersMade s = S k /\
      creations s = seq 0 k).
Proof.
  split.
  - intros cfg k err Hk Hok Herr.
    destruct (@queued_build_progress cfg k err Hk Hok Herr k (le_n k)) as (R & L & M & B).
    cbv zeta in *. rewrite Nat.ltb_irrefl in B. destruct B as [B Hin].
    repeat (split; [assumption|]).
    intros es.
    destruct (@built_steps cfg es _ B) as (_ & M' & L'). cbv zeta in *.
    unfold workers in L'. rewrite !length_map in L'. split; [congruence|lia].
  - intros cfg k err Hk Hok Herr. unfold Index.buildPool.
    destruct (@buildPool_first_failure cfg k err (Index.poolSize cfg) 0 Index.empty)
      as (_ & L & M & C); try assumption.
    cbv zeta in *. simpl in L, M, C. repeat split; assumption.
Qed.

Lemma buildPool_stops_at_first_failure_witness :
  length (Queued.pool (fst (Queued.steps three_queued_workers
                                         (Queued.constructor three_queued_workers)
                                         [Queued.Online 0]))) = 1 /\
  length (Index.pool (fst (Index.buildPool three_workers Index.empty))) = 1.
Proof.
  destruct buildPool_stops_at_first_failure as [HQ HI].
  split.
  - destruct (HQ three_queued_workers 1 (Error "spawn failed")) as (_ & L & _).
    + simpl. lia.
    + intros i Hi. assert (i = 0) by lia. subst i. reflexivity.
    + reflexivity.
    + exact L.
  - destruct (HI three_workers 1 (Error "spawn failed")) as (L & _).
    + simpl. lia.
    + intros i Hi. assert (i = 0) by lia. subst i. reflexivity.
    + reflexivity.
    + exact L.
Defined.

(** ** The theorems at concrete pools *)



Lemma busy_worker_gets_no_task_witness :
  let s := fst (Queued.steps one_queued_worker (Queued.constructor one_queued_worker)
                             [Queued.Online 0]) in
  let e := Queued.Run (VStr "a") (VStr "1") 0 None in
  busy_of 0 s = Some false /\
  busy_of 0 (fst (Queued.step one_queued_worker s e)) = Some true.
Proof.
  intros s e.
  destruct (@busy_worker_gets_no_task one_queued_worker s e 0) as (_ & B & _).
  - exists [Queued.Online 0]. reflexivity.
  - left. reflexivity.
  - split; [reflexivity|exact B].
Defined.

(** * Further properties of the code *)

(** ** The rate check *)

(** X1: the calls [canExecuteTask] admits are at least [idleThreshold]
    apart, and the first call of a fresh task manager is admitted. *)
Theorem admitted_calls_are_spaced (cfg : Index.Config) (nows : list Z) (s : Index.State) :
  spaced (Index.idleThreshold cfg) (Index.lastTaskTime s) (admitted cfg nows s) /\
  admitted cfg nows (Index.set_lastTaskTime None s)
  = match nows with
    | [] => []
    | now :: rest => now :: admitted cfg rest (Index.set_lastTaskTime (Some now) s)
    end.
Proof.
  split.
  - revert s. induction nows as [|now nows IH]; intros s; simpl; [exact I|].
    unfold Index.canExecuteTask at 1 2.
    destruct (Index.lastTaskTime s) as [last|] eqn:L; simpl.
    + destruct (Index.idleThreshold cfg <=? now - last)%Z eqn:E; simpl.
      * apply Z.leb_le in E. split; [exact E|].
        specialize (IH (Index.set_lastTaskTime (Some now) s)). exact IH.
      * specialize (IH s). rewrite L in IH. exact IH.
    + split; [exact I|].
      specialize (IH (Index.set_lastTaskTime (Some now) s)). exact IH.
  - destruct nows as [|now rest]; reflexivity.
Qed.

(** X2: a call that is refused does not restart the waiting time: after
    an admitted call at [last], however many calls are refused in between,
    a call at least [idleThreshold] after [last] is admitted. *)
Theorem refused_calls_do_not_postpone
        (cfg : Index.Config) (s : Index.State) (last now : Z) (early : list Z) :
  Index.lastTaskTime s = Some last ->
  Forall (fun t => (t - last < Index.idleThreshold cfg)%Z) early ->
  (Index.idleThreshold cfg <= now - last)%Z ->
  admitted cfg (early ++ [now]) s = [now].
Proof.
  intros L F H. induction F as [|t early Ht _ IH]; simpl.
  - unfold Index.canExecuteTask. rewrite L. simpl.
    apply Z.leb_le in H. rewrite H. reflexivity.
  - unfold Index.canExecuteTask at 1 2. rewrite L. simpl.
    assert (E : (Index.idleThreshold cfg <=? t - last)%Z = false) by (apply Z.leb_gt; lia).
    rewrite E. simpl. exact IH.
Qed.

Lemma refused_calls_do_not_postpone_witness :
  admitted two_workers [1050%Z; 1099%Z; 1100%Z]
           (Index.set_lastTaskTime (Some 1000%Z) (Index.constructor two_workers))
  = [1100%Z].
Proof.
  apply (@refused_calls_do_not_postpone
           two_workers
           (Index.set_lastTaskTime (Some 1000%Z) (Index.constructor two_workers))
           1000%Z 1100%Z [1050%Z; 1099%Z]).
  - reflexivity.
  - repeat constructor.
  - simpl. lia.
Defined.

(** ** A call of [run] that succeeds *)

Lemma settled_emit_other (c : nat) (e : Index.Effect) (s : Index.State) :
  match e with Index.Settle _ _ => False | _ => True end ->
  Index.settled c (Index.emit e s) = Index.settled c s.
Proof.
  intros H. unfold Index.settled. simpl. rewrite existsb_app. simpl.
  destruct e; try contradiction; now rewrite !orb_false_r.
Qed.

(** [run] on a pool that is not empty, when the capacity check passes and
    [postMessage] does not throw. *)
Lemma run_dispatches (cfg : Index.Config) (s : Index.State) task now freemem
      (fw : Index.WorkerObject) rest memStats :
  Index.pool s = fw :: rest ->
  Index.getMemPercent cfg freemem = Return memStats ->
  let x := {| Index.x_call := Index.calls s; Index.x_status := status_at cfg now s;
              Index.x_worker := fw; Index.x_memStats := memStats |} in
  let s1 := Index.run cfg task now freemem None s in
  Index.pool s1 = rest /\
  Index.minWorkers s1 = Index.minWorkers s /\
  Index.tasks s1 = Index.tasks s /\
  Index.workersMade s1 = Index.workersMade s /\
  Index.waiting s1 = Index.waiting s /\
  Index.calls s1 = S (Index.calls s) /\
  Index.listeners s1
  = Index.listeners s ++ [(Index.worker fw, Index.MessageListener x);
                          (Index.worker fw, Index.ErrorListener x)] /\
  Index.trace s1 = Index.trace s ++ [Index.PostMessage (Index.worker fw) task].
Proof.
  intros Hpool Hmem x s1. subst s1 x. rewrite run_eq. cbv zeta.
  unfold status_at, Index.canExecuteTask. simpl.
  destruct (Index.lastTaskTime s) as [last|];
    [destruct (Index.idleThreshold cfg <=? now - last)%Z|];
    unfold Index.runTask; simpl; rewrite Hpool, Hmem; simpl;
    rewrite <- app_assoc; repeat split.
Qed.

Lemma on_message_single (cfg : Index.Config) (w : nat) data (s : Index.State) x :
  Index.message_executions (Index.listeners_of w s) = [x] ->
  Index.on_message cfg w data s
  = Index.after_message cfg x data (Index.messageListener cfg x s).
Proof. intros H. unfold Index.on_message. rewrite H. reflexivity. Qed.

Lemma listeners_of_app (w : nat) (s : Index.State) l :
  Index.listeners_of w (Index.set_listeners (Index.listeners s ++ l) s)
  = Index.listeners_of w s ++ map snd (filter (fun wl => Nat.eqb (fst wl) w) l).
Proof. unfold Index.listeners_of. simpl. now rewrite filter_app, map_app. Qed.

Lemma message_executions_app (l1 l2 : list Index.Listener) :
  Index.message_executions (l1 ++ l2)
  = Index.message_executions l1 ++ Index.message_executions l2.
Proof. apply flat_map_app. Qed.

(** X3: a call of [run] on a pool that is not empty, with the capacity
    check passing, posts the task to the first worker of the pool and takes
    it out; when that worker answers with an object, the worker goes to the
    back of the pool and the call resolves with the worker's object,
    decorated with [capacity] (and [log] when logs are returned), under the
    status of the rate check: 200, or 429 for a call the rate check refused,
    which is dispatched all the same. *)
Theorem run_then_message_round_trip
        (cfg : Index.Config) (s : Index.State) task now freemem
        (fw : Index.WorkerObject) rest memStats fields :
  Index.minWorkers s = None ->
  Index.pool s = fw :: rest ->
  length (Index.pool s) <= Index.poolSize cfg ->
  Index.getMemPercent cfg freemem = Return memStats ->
  Index.message_executions (Index.listeners_of (Index.worker fw) s) = [] ->
  Index.settled (Index.calls s) s = false ->
  let s1 := Index.run cfg task now freemem None s in
  let s2 := Index.on_message cfg (Index.worker fw) (VObj fields) s1 in
  Index.pool s1 = rest /\
  Index.pool s2 = rest ++ [fw] /\
  Index.tasks s2
  = (if Index.returnLog cfg then Index.tasks s ++ [Index.id fw] else Index.tasks s) /\
  Index.trace s2
  = Index.trace s
    ++ [Index.PostMessage (Index.worker fw) task;
        Index.Log (Index.LogWorkerExecuted (Index.id fw));
        Index.Settle (Index.calls s)
          (VObj [("status", VNum (Fin (inject_Z (status_at cfg now s))));
                 ("result",
                  decorated cfg fields
                            (log_object (Index.id fw) (length (rest ++ [fw]))
                                        (length (Index.tasks s)))
                            memStats)]%string)].
Proof.
  intros Hmin Hpool Hlen Hmem Hnone Hfresh s1 s2.
  destruct (@run_dispatches cfg s task now freemem fw rest memStats Hpool Hmem)
    as (P1 & M1 & T1 & W1 & Wa1 & C1 & L1 & Tr1).
  fold s1 in P1, M1, T1, W1, Wa1, C1, L1, Tr1.
  set (x := {| Index.x_call := Index.calls s; Index.x_status := status_at cfg now s;
               Index.x_worker := fw; Index.x_memStats := memStats |}) in *.
  assert (Hx : Index.message_executions (Index.listeners_of (Index.worker fw) s1) = [x]).
  { unfold Index.listeners_of in *. rewrite L1, filter_app, map_app.
    rewrite message_executions_app, Hnone. simpl. rewrite Nat.eqb_refl. reflexivity. }
  split; [exact P1|].
  subst s2. rewrite (on_message_single cfg _ _ s1 Hx).
  unfold Index.messageListener. cbv zeta.
  assert (Hroom : (length (Index.pool (Index.emit (Index.Log (Index.LogWorkerExecuted
                     (Index.id (Index.x_worker x)))) s1)) <? Index.poolSize cfg) = true).
  { apply Nat.ltb_lt. simpl. rewrite P1. rewrite Hpool in Hlen. simpl in Hlen. lia. }
  rewrite Hroom.
  unfold Index.after_message.
  assert (Hs : Index.settled (Index.x_call x)
                 (Index.cleanup x (Index.push (Index.x_worker x)
                    (Index.emit (Index.Log (Index.LogWorkerExecuted
                       (Index.id (Index.x_worker x)))) s1))) = false).
  { unfold Index.settled in *. simpl. rewrite Tr1, !existsb_app, Hfresh. reflexivity. }
  rewrite Hs. unfold decorated, log_object.
  destruct (Index.returnLog cfg); simpl; unfold Index.run_end;
    rewrite terminateExcessWorkers_undefined by (simpl; congruence);
    simpl; rewrite P1, T1, Tr1, <- !app_assoc; simpl;
    rewrite ?length_app; simpl; rewrite ?Nat.add_1_r; repeat split.
Qed.

Lemma run_then_message_round_trip_witness :
  let s := Index.constructor two_workers in
  let s1 := Index.run two_workers (VObj []) 1000 8589934592 None s in
  let s2 := Index.on_message two_workers 0 (VObj [("x"%string, VNull)]) s1 in
  map Index.worker (Index.pool s1) = [1] /\
  map Index.worker (Index.pool s2) = [1; 0].
Proof.
  intros s s1 s2.
  destruct (@run_then_message_round_trip
              two_workers s (VObj []) 1000%Z 8589934592%Z
              {| Index.id := "-1-"; Index.worker := 0 |}
              [{| Index.id := "-2-"; Index.worker := 1 |}]
              (VBool true) [("x"%string, VNull)]
              eq_refl eq_refl (le_n 2) eq_refl eq_refl eq_refl)
    as (P1 & P2 & _).
  split; [exact (f_equal (map Index.worker) P1)|exact (f_equal (map Index.worker) P2)].
Defined.

(** X4: when the worker answers with a value that is not an object, the
    worker still goes to the back of the pool, but the call resolves with
    status 500 and a message, without the worker's value: setting
    [capacity] on the value throws. *)
Theorem run_then_message_not_object
        (cfg : Index.Config) (s : Index.State) task now freemem
        (fw : Index.WorkerObject) rest memStats data :
  Index.minWorkers s = None ->
  Index.pool s = fw :: rest ->
  length (Index.pool s) <= Index.poolSize cfg ->
  Index.getMemPercent cfg freemem = Return memStats ->
  Index.message_executions (Index.listeners_of (Index.worker fw) s) = [] ->
  Index.settled (Index.calls s) s = false ->
  match data with VObj _ => False | _ => True end ->
  let s1 := Index.run cfg task now freemem None s in
  let s2 := Index.on_message cfg (Index.worker fw) data s1 in
  Index.pool s2 = rest ++ [fw] /\
  exists message,
    Index.trace s2
    = Index.trace s
      ++ [Index.PostMessage (Index.worker fw) task;
          Index.Log (Index.LogWorkerExecuted (Index.id fw));
          Index.Settle (Index.calls s)
            (VObj [("status", VNum (Fin (inject_Z 500)));
                   ("message", VStr message)]%string)].
Proof.
  intros Hmin Hpool Hlen Hmem Hnone Hfresh Hdata s1 s2.
  destruct (@run_dispatches cfg s task now freemem fw rest memStats Hpool Hmem)
    as (P1 & M1 & T1 & W1 & Wa1 & C1 & L1 & Tr1).
  fold s1 in P1, M1, T1, W1, Wa1, C1, L1, Tr1.
  set (x := {| Index.x_call := Index.calls s; Index.x_status := status_at cfg now s;
               Index.x_worker := fw; Index.x_memStats := memStats |}) in *.
  assert (Hx : Index.message_executions (Index.listeners_of (Index.worker fw) s1) = [x]).
  { unfold Index.listeners_of in *. rewrite L1, filter_app, map_app.
    rewrite message_executions_app, Hnone. simpl. rewrite Nat.eqb_refl. reflexivity. }
  subst s2. rewrite (on_message_single cfg _ _ s1 Hx).
  unfold Index.messageListener. cbv zeta.
  assert (Hroom : (length (Index.pool (Index.emit (Index.Log (Index.LogWorkerExecuted
                     (Index.id (Index.x_worker x)))) s1)) <? Index.poolSize cfg) = true).
  { apply Nat.ltb_lt. simpl. rewrite P1. rewrite Hpool in Hlen. simpl in Hlen. lia. }
  rewrite Hroom.
  unfold Index.after_message.
  assert (Hs : Index.settled (Index.x_call x)
                 (Index.cleanup x (Index.push (Index.x_worker x)
                    (Index.emit (Index.Log (Index.LogWorkerExecuted
                       (Index.id (Index.x_worker x)))) s1))) = false).
  { unfold Index.settled in *. simpl. rewrite Tr1, !existsb_app, Hfresh. reflexivity. }
  rewrite Hs.
  destruct data; try contradiction;
    destruct (Index.returnLog cfg); simpl; unfold Index.run_end;
    rewrite terminateExcessWorkers_undefined by (simpl; congruence);
    simpl; rewrite P1, Tr1, <- !app_assoc; simpl;
    (split; [reflexivity|eexists; reflexivity]).
Qed.

Lemma run_then_message_not_object_witness :
  let s := Index.constructor two_workers in
  let s1 := Index.run two_workers (VObj []) 1000 8589934592 None s in
  let s2 := Index.on_message two_workers 0 (VStr "done") s1 in
  map Index.worker (Index.pool s2) = [1; 0].
Proof.
  intros s s1 s2.
  destruct (@run_then_message_not_object
              two_workers s (VObj []) 1000%Z 8589934592%Z
              {| Index.id := "-1-"; Index.worker := 0 |}
              [{| Index.id := "-2-"; Index.worker := 1 |}]
              (VBool true) (VStr "done")
              eq_refl eq_refl (le_n 2) eq_refl eq_refl eq_refl I)
    as (P2 & _).
  exact (f_equal (map Index.worker) P2).
Defined.

(** X5: when [postMessage] throws, the call resolves with status 500 and
    the message of [executeWorker]; nothing is posted, the worker taken out
    of the pool is not put back, and the two listeners of the call stay
    registered on it. *)
Theorem run_post_failure
        (cfg : Index.Config) (s : Index.State) task now freemem
        (fw : Index.WorkerObject) rest memStats (thrown : string) :
  Index.minWorkers s = None ->
  Index.pool s = fw :: rest ->
  Index.getMemPercent cfg freemem = Return memStats ->
  let x := {| Index.x_call := Index.calls s; Index.x_status := status_at cfg now s;
              Index.x_worker := fw; Index.x_memStats := memStats |} in
  let s1 := Index.run cfg task now freemem (Some thrown) s in
  Index.pool s1 = rest /\
  posts s1 = posts s /\
  Index.listeners s1
  = Index.listeners s ++ [(Index.worker fw, Index.MessageListener x);
                          (Index.worker fw, Index.ErrorListener x)] /\
  Index.trace s1
  = Index.trace s
    ++ [Index.Settle (Index.calls s)
          (VObj [("status", VNum (Fin (inject_Z 500)));
                 ("message",
                  VStr ("Worker-" ++ Index.id fw ++ " failed to post task: " ++ thrown))]
             %string)].
Proof.
  intros Hmin Hpool Hmem x s1. subst s1 x. rewrite run_eq. cbv zeta.
  unfold status_at, Index.canExecuteTask, posts. simpl.
  destruct (Index.lastTaskTime s) as [last|];
    [destruct (Index.idleThreshold cfg <=? now - last)%Z|];
    unfold Index.runTask; simpl; rewrite Hpool, Hmem; simpl;
    unfold Index.run_end;
    rewrite terminateExcessWorkers_undefined by (simpl; exact Hmin);
    simpl; rewrite flat_map_app; simpl; rewrite app_nil_r, <- ?app_assoc;
    repeat split.
Qed.

Lemma run_post_failure_witness :
  let s := Index.constructor two_workers in
  let s1 := Index.run two_workers (VObj []) 1000 8589934592 (Some "DataCloneError"%string) s in
  map Index.worker (Index.pool s1) = [1] /\ posts s1 = [].
Proof.
  intros s s1.
  destruct (@run_post_failure
              two_workers s (VObj []) 1000%Z 8589934592%Z
              {| Index.id := "-1-"; Index.worker := 0 |}
              [{| Index.id := "-2-"; Index.worker := 1 |}]
              (VBool true) "DataCloneError"%string eq_refl eq_refl eq_refl)
    as (P & Q & _).
  split; [exact (f_equal (map Index.worker) P)|exact Q].
Defined.

(** ** The capacity check, further *)

Lemma getMemPercent_value (cfg : Index.Config) (freemem : Z) :
  (0 < Index.freememAtLoad cfg)%Z ->
  Index.getMemPercent cfg freemem =
    if Qlt_bool (Index.memThreshold cfg) (used_tenths cfg freemem # 10)
    then Throw (CustomError "Server capacity is low. Please try again later." 503)
    else Return (VBool (Qlt_bool (used_tenths cfg freemem # 10) (Index.memThreshold cfg))).
Proof.
  intros H0. unfold Index.getMemPercent. rewrite (memPercent_value cfg freemem H0).
  reflexivity.
Qed.

Lemma Zdiv_cross_le (a b c d : Z) :
  (0 < b)%Z -> (0 < d)%Z -> (a * d <= c * b)%Z -> (a / b <= c / d)%Z.
Proof.
  intros Hb Hd H.
  rewrite <- (Z.div_mul_cancel_r a b d), <- (Z.div_mul_cancel_l c d b) by lia.
  apply Z.div_le_mono; lia.
Qed.

Lemma round_tenths_mono (q r : Q) : (q <= r)%Q -> (round_tenths q <= round_tenths r)%Z.
Proof.
  unfold Qle, round_tenths. destruct q as [n d], r as [m e]. cbn [Qnum Qden]. intros H.
  assert (Hq : (0 <= (2 * 10 * Z.abs n + Z.pos d) / (2 * Z.pos d))%Z)
    by (apply Z.div_pos; lia).
  assert (Hr : (0 <= (2 * 10 * Z.abs m + Z.pos e) / (2 * Z.pos e))%Z)
    by (apply Z.div_pos; lia).
  destruct (Z.lt_trichotomy n 0) as [Hn|[Hn|Hn]];
    destruct (Z.lt_trichotomy m 0) as [Hm|[Hm|Hm]];
    try (rewrite (Z.sgn_neg n) by lia); try (rewrite (Z.sgn_pos n) by lia);
    try (rewrite (Z.sgn_neg m) by lia); try (rewrite (Z.sgn_pos m) by lia);
    try (subst n; simpl Z.sgn); try (subst m; simpl Z.sgn);
    try lia; try nia.
  - assert ((2 * 10 * Z.abs m + Z.pos e) / (2 * Z.pos e)
            <= (2 * 10 * Z.abs n + Z.pos d) / (2 * Z.pos d))%Z; [|lia].
    apply Zdiv_cross_le; first [lia | nia].
  - assert ((2 * 10 * Z.abs n + Z.pos d) / (2 * Z.pos d)
            <= (2 * 10 * Z.abs m + Z.pos e) / (2 * Z.pos e))%Z; [|lia].
    apply Zdiv_cross_le; first [lia | nia].
Qed.

Lemma used_tenths_mono (cfg : Index.Config) (f f' : Z) :
  (0 < Index.freememAtLoad cfg)%Z -> (f' <= f)%Z ->
  (used_tenths cfg f <= used_tenths cfg f')%Z.
Proof.
  intros H0 H. unfold used_tenths. apply round_tenths_mono.
  apply Qmult_le_compat_r; [|discriminate].
  unfold Qdiv. apply Qmult_le_compat_r.
  - rewrite <- Zle_Qle. lia.
  - apply Qinv_le_0_compat. change 0%Q with (inject_Z 0). rewrite <- Zle_Qle. lia.
Qed.

Lemma Qlt_bool_iff (a b : Q) : Qlt_bool a b = true <-> (a < b)%Q.
Proof.
  unfold Qlt_bool. rewrite negb_true_iff. split.
  - intros H. apply Qnot_le_lt. intros L. apply Qle_bool_iff in L. congruence.
  - intros H. destruct (Qle_bool b a) eqn:E; [|reflexivity].
    apply Qle_bool_iff in E. exfalso. exact (Qlt_not_le _ _ H E).
Qed.

Lemma Qlt_bool_false_iff (a b : Q) : Qlt_bool a b = false <-> (b <= a)%Q.
Proof.
  unfold Qlt_bool. rewrite negb_false_iff. apply Qle_bool_iff.
Qed.

Lemma tenths_le (t u : Z) : (t <= u)%Z -> (t # 10 <= u # 10)%Q.
Proof. unfold Qle. cbn [Qnum Qden]. lia. Qed.

Lemma used_tenths_at_load (cfg : Index.Config) :
  (0 < Index.freememAtLoad cfg)%Z -> used_tenths cfg (Index.freememAtLoad cfg) = 0%Z.
Proof.
  intros H0. unfold used_tenths. rewrite Z.sub_diag.
  rewrite (@round_tenths_Qeq _ 0%Q); [reflexivity|].
  unfold Qeq, Qdiv, Qmult. cbn [Qnum Qden inject_Z]. lia.
Qed.

(** X6: when at least as much memory is free as was free when the module was
    loaded, the capacity check of [getMemPercent] passes for every positive
    threshold: it does not throw and it returns [true]. *)
Theorem getMemPercent_passes_at_load_level (cfg : Index.Config) (freemem : Z) :
  (0 < Index.freememAtLoad cfg)%Z ->
  (Index.freememAtLoad cfg <= freemem)%Z ->
  (0 < Index.memThreshold cfg)%Q ->
  Index.getMemPercent cfg freemem = Return (VBool true).
Proof.
  intros H0 Hf Ht. rewrite (getMemPercent_value cfg freemem H0).
  pose proof (used_tenths_mono cfg H0 Hf) as Hu.
  rewrite (used_tenths_at_load cfg H0) in Hu.
  assert (Hq : (used_tenths cfg freemem # 10 <= 0)%Q)
    by (unfold Qle; cbn [Qnum Qden]; lia).
  assert (Hlt : (used_tenths cfg freemem # 10 < Index.memThreshold cfg)%Q)
    by exact (Qle_lt_trans _ _ _ Hq Ht).
  replace (Qlt_bool (Index.memThreshold cfg) (used_tenths cfg freemem # 10)) with false
    by (symmetry; apply Qlt_bool_false_iff, Qlt_le_weak, Hlt).
  replace (Qlt_bool (used_tenths cfg freemem # 10) (Index.memThreshold cfg)) with true
    by (symmetry; apply Qlt_bool_iff, Hlt).
  reflexivity.
Qed.

Lemma getMemPercent_passes_at_load_level_witness :
  Index.getMemPercent two_workers 9000000000 = Return (VBool true).
Proof.
  apply getMemPercent_passes_at_load_level; [reflexivity | discriminate | reflexivity].
Defined.

(** X7: the capacity check is monotone in the free memory: if [getMemPercent]
    throws with some amount of free memory, it throws the same error with any
    smaller amount. *)
Theorem getMemPercent_monotone (cfg : Index.Config) (freemem less : Z) (err : exn) :
  (0 < Index.freememAtLoad cfg)%Z ->
  (less <= freemem)%Z ->
  Index.getMemPercent cfg freemem = Throw err ->
  Index.getMemPercent cfg less = Throw err.
Proof.
  intros H0 Hl. rewrite !(getMemPercent_value cfg _ H0).
  destruct (Qlt_bool (Index.memThreshold cfg) (used_tenths cfg freemem # 10)) eqn:E;
    [|discriminate].
  intros Hthrow. apply Qlt_bool_iff in E.
  replace (Qlt_bool (Index.memThreshold cfg) (used_tenths cfg less # 10)) with true;
    [exact Hthrow|].
  symmetry. apply Qlt_bool_iff.
  exact (Qlt_le_trans _ _ _ E (tenths_le (used_tenths_mono cfg H0 Hl))).
Qed.

Lemma getMemPercent_monotone_witness :
  Index.getMemPercent two_workers 100000000 =
    Throw (CustomError "Server capacity is low. Please try again later." 503).
Proof.
  apply (@getMemPercent_monotone two_workers 400000000 100000000);
    [reflexivity | discriminate | reflexivity].
Defined.



(** ** Building the pool *)

Lemma built_S (w i n : nat) :
  built w i (S n)
  = {| Index.id := ("-" ++ dec (i + 1) ++ "-")%string; Index.worker := w |}
      :: built (S w) (S i) n.
Proof.
  unfold built. simpl seq. simpl map. rewrite !Nat.add_0_r. f_equal.
  rewrite <- seq_shift, map_map. apply map_ext. intros k.
  replace (i + S k + 1) with (S i + k + 1) by lia.
  replace (w + S k) with (S w + k) by lia. reflexivity.
Qed.

Lemma built_length (w i n : nat) : length (built w i n) = n.
Proof. unfold built. now rewrite length_map, length_seq. Qed.

Lemma buildPool_loop_ok (cfg : Index.Config) (n i : nat) (s : Index.State) :
  (forall k, k < n -> Index.newWorker cfg (Index.workersMade s + k) = None) ->
  let r := Index.buildPool_loop cfg n i s in
  snd r = true /\
  Index.pool (fst r) = Index.pool s ++ built (Index.workersMade s) i n /\
  Index.workersMade (fst r) = Index.workersMade s + n /\
  Index.trace (fst r)
  = Index.trace s ++ map Index.NewWorker (seq (Index.workersMade s) n) /\
  Index.listeners (fst r)
  = Index.listeners s
    ++ map (fun o => (Index.worker o, Index.HandleError (Index.id o)))
           (built (Index.workersMade s) i n) /\
  Index.minWorkers (fst r) = Index.minWorkers s /\
  Index.lastTaskTime (fst r) = Index.lastTaskTime s /\
  Index.tasks (fst r) = Index.tasks s /\
  Index.waiting (fst r) = Index.waiting s /\
  Index.calls (fst r) = Index.calls s.
Proof.
  revert i s. induction n as [|n IH]; intros i s H; cbv zeta.
  - simpl. rewrite !app_nil_r, Nat.add_0_r. repeat split.
  - assert (H0 : Index.newWorker cfg (Index.workersMade s) = None).
    { rewrite <- (Nat.add_0_r (Index.workersMade s)). apply H. lia. }
    simpl Index.buildPool_loop. rewrite H0.
    match goal with
    | |- context [Index.buildPool_loop cfg n (S i) ?t] => set (s1 := t)
    end.
    assert (H1 : forall k, k < n ->
                           Index.newWorker cfg (Index.workersMade s1 + k) = None).
    { intros k Hk. subst s1. simpl Index.workersMade.
      replace (S (Index.workersMade s) + k) with (Index.workersMade s + S k) by lia.
      apply H. lia. }
    destruct (IH (S i) s1 H1) as (R & P & W & T & L & M & LT & Ta & Wa & C).
    rewrite R, P, W, T, L, M, LT, Ta, Wa, C, !built_S. subst s1. simpl.
    rewrite <- !app_assoc. simpl.
    repeat split; lia.
Qed.

Lemma flat_map_NewWorker (l : list nat) :
  flat_map (fun e => match e with Index.NewWorker w => [w] | _ => [] end)
           (map Index.NewWorker l) = l.
Proof. induction l as [|w l IH]; simpl; [reflexivity|now rewrite IH]. Qed.

(** X9: when no [new Worker] throws, [buildPool] resolves after pushing
    exactly [poolSize] handles to the back of the pool, whatever the pool
    holds already; they are named "-1-", "-2-", ... anew at every call, and
    each gets one error listener that only logs. *)
Theorem buildPool_builds_poolSize_workers (cfg : Index.Config) (s : Index.State) :
  (forall k, k < Index.poolSize cfg ->
             Index.newWorker cfg (Index.workersMade s + k) = None) ->
  let r := Index.buildPool cfg s in
  snd r = true /\
  Index.pool (fst r)
  = Index.pool s ++ built (Index.workersMade s) 0 (Index.poolSize cfg) /\
  creations (fst r)
  = creations s ++ seq (Index.workersMade s) (Index.poolSize cfg) /\
  Index.listeners (fst r)
  = Index.listeners s
    ++ map (fun o => (Index.worker o, Index.HandleError (Index.id o)))
           (built (Index.workersMade s) 0 (Index.poolSize cfg)) /\
  terminations (fst r) = terminations s /\
  posts (fst r) = posts s.
Proof.
  intros H r. subst r. unfold Index.buildPool.
  destruct (@buildPool_loop_ok cfg (Index.poolSize cfg) 0 s H)
    as (R & P & W & T & L & _).
  destruct (buildPool_loop_frame cfg (Index.poolSize cfg) 0 s) as (_ & Te & Po & _).
  repeat split; try assumption.
  unfold creations. rewrite T, flat_map_app, flat_map_NewWorker. reflexivity.
Qed.

Lemma buildPool_builds_poolSize_workers_witness :
  map Index.id (Index.pool (fst (Index.buildPool two_workers
                                   (Index.constructor two_workers))))
  = ["-1-"; "-2-"; "-1-"; "-2-"]%string.
Proof.
  destruct (@buildPool_builds_poolSize_workers
              two_workers (Index.constructor two_workers) (fun k _ => eq_refl))
    as (_ & P & _).
  exact (f_equal (map Index.id) P).
Defined.

(** ** A call of [run] that finds the pool empty *)

Lemma flat_map_NewWorker_posts (l : list nat) :
  flat_map (fun e => match e with Index.PostMessage w t => [(w, t)] | _ => [] end)
           (map Index.NewWorker l) = [].
Proof. induction l as [|w l IH]; simpl; [reflexivity|exact IH]. Qed.

Lemma flat_map_NewWorker_terminations (l : list nat) :
  flat_map (fun e => match e with Index.Terminate w => [w] | _ => [] end)
           (map Index.NewWorker l) = [].
Proof. induction l as [|w l IH]; simpl; [reflexivity|exact IH]. Qed.

Lemma runTask_empty (cfg : Index.Config) call status task freemem post
      (s : Index.State) :
  Index.pool s = [] ->
  (forall k, k < Index.poolSize cfg ->
             Index.newWorker cfg (Index.workersMade s + k) = None) ->
  let s1 := Index.runTask cfg call status task freemem post s in
  Index.pool s1 = built (Index.workersMade s) 0 (Index.poolSize cfg) /\
  Index.workersMade s1 = Index.workersMade s + Index.poolSize cfg /\
  Index.trace s1
  = Index.trace s ++ map Index.NewWorker (seq (Index.workersMade s) (Index.poolSize cfg)) /\
  Index.waiting s1
  = Index.waiting s
    ++ [{| Index.w_call := call; Index.w_status := status; Index.w_task := task |}] /\
  Index.minWorkers s1 = Index.minWorkers s.
Proof.
  intros Hpool Hnew s1. subst s1. unfold Index.runTask. rewrite Hpool.
  unfold Index.buildPool.
  pose proof (@buildPool_loop_ok cfg (Index.poolSize cfg) 0 s Hnew) as H.
  cbv zeta in H.
  destruct (Index.buildPool_loop cfg (Index.poolSize cfg) 0 s) as [sb r].
  simpl in H. destruct H as (R & P & W & T & _ & M & _ & _ & Wa & _).
  subst r. simpl. rewrite P, W, T, Wa, M, Hpool. repeat split.
Qed.

Lemma runTask_dispatch (cfg : Index.Config) call status task freemem
      (s : Index.State) fw rest memStats :
  Index.pool s = fw :: rest ->
  Index.getMemPercent cfg freemem = Return memStats ->
  let s1 := Index.runTask cfg call status task freemem None s in
  Index.pool s1 = rest /\
  Index.workersMade s1 = Index.workersMade s /\
  Index.trace s1 = Index.trace s ++ [Index.PostMessage (Index.worker fw) task] /\
  Index.waiting s1 = Index.waiting s /\
  Index.minWorkers s1 = Index.minWorkers s.
Proof.
  intros Hpool Hmem s1. subst s1. unfold Index.runTask. rewrite Hpool, Hmem.
  simpl. repeat split.
Qed.

Lemma canExecuteTask_set_calls (cfg : Index.Config) (now : Z) (c : nat)
      (s : Index.State) :
  fst (Index.canExecuteTask cfg now (Index.set_calls c s))
  = fst (Index.canExecuteTask cfg now s).
Proof.
  unfold Index.canExecuteTask. simpl. destruct (Index.lastTaskTime s); reflexivity.
Qed.

Lemma run_resume_empty
      (cfg : Index.Config) (s : Index.State) task now freemem post later memStats :
  Index.pool s = [] ->
  Index.waiting s = [] ->
  0 < Index.poolSize cfg ->
  (forall k, k < Index.poolSize cfg ->
             Index.newWorker cfg (Index.workersMade s + k) = None) ->
  Index.getMemPercent cfg later = Return memStats ->
  let s1 := Index.run cfg task now freemem post s in
  let s2 := Index.resume cfg later None s1 in
  Index.pool s1 = built (Index.workersMade s) 0 (Index.poolSize cfg) /\
  posts s1 = posts s /\
  creations s2 = creations s ++ seq (Index.workersMade s) (Index.poolSize cfg) /\
  posts s2 = posts s ++ [(Index.workersMade s, task)] /\
  terminations s2 = terminations s /\
  Index.pool s2 = built (S (Index.workersMade s)) 1 (Index.poolSize cfg - 1) /\
  Index.waiting s2 = [] /\
  Index.minWorkers s2 = Index.minWorkers s /\
  Index.workersMade s2 = Index.workersMade s + Index.poolSize cfg.
Proof.
  intros Hpool Hwait Hn Hnew Hmem s1 s2.
  assert (H1 : Index.pool s1 = built (Index.workersMade s) 0 (Index.poolSize cfg) /\
               Index.workersMade s1 = Index.workersMade s + Index.poolSize cfg /\
               Index.trace s1
               = Index.trace s
                 ++ map Index.NewWorker (seq (Index.workersMade s) (Index.poolSize cfg)) /\
               Index.waiting s1
               = [{| Index.w_call := Index.calls s;
                     Index.w_status := status_at cfg now s;
                     Index.w_task := task |}] /\
               Index.minWorkers s1 = Index.minWorkers s).
  { subst s1. rewrite run_eq. cbv zeta.
    pose proof (canExecuteTask_frame cfg now (Index.set_calls (S (Index.calls s)) s))
      as (P & M & T & _ & W & Wa & _).
    cbv zeta in P, M, T, W, Wa. simpl in P, M, T, W, Wa.
    match goal with
    | |- context [Index.runTask cfg ?c ?st task freemem post ?t] =>
        pose proof (@runTask_empty cfg c st task freemem post t) as R
    end.
    cbv zeta in R. rewrite P, W, T, Wa, M, Hwait in R.
    unfold status_at. rewrite <- (canExecuteTask_set_calls cfg now (S (Index.calls s)) s).
    exact (R Hpool Hnew). }
  destruct H1 as (P1 & W1 & T1 & Wa1 & M1).
  assert (Hb : built (Index.workersMade s) 0 (Index.poolSize cfg)
               = {| Index.id := "-1-"; Index.worker := Index.workersMade s |}
                   :: built (S (Index.workersMade s)) 1 (Index.poolSize cfg - 1)).
  { destruct (Index.poolSize cfg) as [|n]; [lia|].
    rewrite built_S. simpl. now rewrite Nat.sub_0_r. }
  split; [exact P1|].
  split; [unfold posts; now rewrite T1, flat_map_app, flat_map_NewWorker_posts, app_nil_r|].
  subst s2. unfold Index.resume. rewrite Wa1. cbn [Index.w_call Index.w_status Index.w_task].
  match goal with
  | |- context [Index.runTask cfg ?c ?st task later None ?t] =>
      destruct (@runTask_dispatch cfg c st task later t
                  {| Index.id := "-1-"; Index.worker := Index.workersMade s |}
                  (built (S (Index.workersMade s)) 1 (Index.poolSize cfg - 1))
                  memStats)
        as (P2 & W2 & T2 & Wa2 & M2);
      [simpl; rewrite P1; exact Hb | exact Hmem |]
  end.
  unfold creations, posts, terminations.
  rewrite P2, T2, Wa2, M2, W2. simpl. rewrite T1, W1, !flat_map_app.
  rewrite flat_map_NewWorker, flat_map_NewWorker_posts, flat_map_NewWorker_terminations.
  simpl. rewrite !app_nil_r. repeat split. exact M1.
Qed.

(** X10: a call of [run] that finds the pool empty, because every worker is
    out on a task, does not wait for one of them: it makes [poolSize] new
    workers at once and, when it continues, posts its task to the first of
    them.  The workers already out are not terminated. *)
Theorem run_on_empty_pool_rebuilds
        (cfg : Index.Config) (s : Index.State) task now freemem post later memStats :
  Index.pool s = [] ->
  Index.waiting s = [] ->
  0 < Index.poolSize cfg ->
  (forall k, k < Index.poolSize cfg ->
             Index.newWorker cfg (Index.workersMade s + k) = None) ->
  Index.getMemPercent cfg later = Return memStats ->
  let s1 := Index.run cfg task now freemem post s in
  let s2 := Index.resume cfg later None s1 in
  Index.pool s1 = built (Index.workersMade s) 0 (Index.poolSize cfg) /\
  posts s1 = posts s /\
  creations s2 = creations s ++ seq (Index.workersMade s) (Index.poolSize cfg) /\
  posts s2 = posts s ++ [(Index.workersMade s, task)] /\
  terminations s2 = terminations s /\
  Index.pool s2 = built (S (Index.workersMade s)) 1 (Index.poolSize cfg - 1).
Proof.
  intros Hpool Hwait Hn Hnew Hmem.
  destruct (@run_resume_empty cfg s task now freemem post later memStats
              Hpool Hwait Hn Hnew Hmem) as (A & B & C & D & E & F & _).
  cbv zeta. repeat split; assumption.
Qed.

Lemma run_on_empty_pool_rebuilds_witness :
  let s := Index.steps two_workers (Index.constructor two_workers)
             (repeat (Index.Run VNull 0 8589934592 None) 2) in
  let s2 := Index.resume two_workers 8589934592 None
              (Index.run two_workers VNull 0 8589934592 None s) in
  creations s2 = [0; 1; 2; 3] /\ map fst (posts s2) = [0; 1; 2] /\ terminations s2 = [].
Proof.
  intros s s2.
  destruct (@run_on_empty_pool_rebuilds
              two_workers s VNull 0%Z 8589934592%Z None 8589934592%Z (VBool true)
              eq_refl eq_refl (Nat.lt_0_succ 1) (fun k _ => eq_refl) eq_refl)
    as (_ & _ & C & P & T & _).
  split; [exact C | split; [exact (f_equal (map fst) P) | exact T]].
Defined.

(** ** How many workers can be alive *)

Lemma map_worker_built (w i n : nat) : map Index.worker (built w i n) = seq w n.
Proof.
  revert w i. induction n as [|n IH]; intros w i; [reflexivity|].
  rewrite built_S. simpl. now rewrite IH.
Qed.

Lemma index_steps_app (cfg : Index.Config) (s : Index.State) (es fs : list Index.Event) :
  Index.steps cfg s (es ++ fs) = Index.steps cfg (Index.steps cfg s es) fs.
Proof. unfold Index.steps. apply fold_left_app. Qed.

(** Calls of [run] while no worker answers, one for each worker in the
    pool: each worker gets one task, in pool order. *)
Lemma drain_pool (cfg : Index.Config) task freemem memStats
      (p : list Index.WorkerObject) (s : Index.State) :
  Index.getMemPercent cfg freemem = Return memStats ->
  Index.pool s = p ->
  let s' := Index.steps cfg s (repeat (Index.Run task 0 freemem None) (length p)) in
  Index.pool s' = [] /\
  Index.waiting s' = Index.waiting s /\
  Index.minWorkers s' = Index.minWorkers s /\
  Index.workersMade s' = Index.workersMade s /\
  creations s' = creations s /\
  terminations s' = terminations s /\
  map fst (posts s') = map fst (posts s) ++ map Index.worker p.
Proof.
  intros Hmem. revert s. induction p as [|fw rest IH]; intros s Hpool; cbv zeta.
  - simpl. rewrite app_nil_r. repeat split. exact Hpool.
  - simpl repeat. simpl length. unfold Index.steps. simpl fold_left.
    fold (Index.steps cfg (Index.run cfg task 0 freemem None s)
                      (repeat (Index.Run task 0 freemem None) (length rest))).
    destruct (@run_dispatches cfg s task 0%Z freemem fw rest memStats Hpool Hmem)
      as (P1 & M1 & _ & W1 & Wa1 & _ & _ & T1).
    destruct (IH _ P1) as (P & Wa & M & W & C & T & Po).
    rewrite P, Wa, M, W, C, T, Po, Wa1, M1, W1.
    unfold creations, terminations, posts. rewrite T1, !flat_map_app. simpl.
    rewrite !app_nil_r, map_app, <- app_assoc. repeat split.
Qed.

Lemma all_out_round (cfg : Index.Config) task freemem memStats
      (s : Index.State) (c : nat) :
  0 < Index.poolSize cfg ->
  (forall w, Index.newWorker cfg w = None) ->
  Index.getMemPercent cfg freemem = Return memStats ->
  all_out s c ->
  all_out (Index.steps cfg s (busy_round (Index.poolSize cfg) task freemem))
          (c + Index.poolSize cfg).
Proof.
  intros Hn Hnew Hmem (P & Wa & M & W & C & Po & T).
  unfold busy_round.
  change (Index.steps cfg s
            (Index.Run task 0 freemem None :: Index.Resume freemem None
               :: repeat (Index.Run task 0 freemem None) (Index.poolSize cfg - 1)))
    with (Index.steps cfg
            (Index.resume cfg freemem None (Index.run cfg task 0 freemem None s))
            (repeat (Index.Run task 0 freemem None) (Index.poolSize cfg - 1))).
  destruct (@run_resume_empty cfg s task 0%Z freemem None freemem memStats
              P Wa Hn (fun k _ => Hnew _) Hmem)
    as (_ & _ & C2 & Po2 & T2 & P2 & Wa2 & M2 & W2).
  cbv zeta in C2, Po2, T2, P2, Wa2, M2, W2.
  set (s2 := Index.resume cfg freemem None (Index.run cfg task 0 freemem None s)) in *.
  pose proof (@drain_pool cfg task freemem memStats _ s2 Hmem P2) as D.
  cbv zeta in D. rewrite built_length in D.
  destruct D as (P3 & Wa3 & M3 & W3 & C3 & T3 & Po3).
  unfold all_out.
  rewrite P3, Wa3, M3, W3, C3, T3, Po3, Wa2, M2, W2, C2, T2, Po2, M, W, C, T.
  rewrite map_app, Po, map_worker_built. simpl map.
  repeat split.
  - now rewrite seq_app.
  - rewrite <- app_assoc. simpl app.
    replace (Index.poolSize cfg) with (S (Index.poolSize cfg - 1)) at 2 by lia.
    now rewrite seq_app.
Qed.

Lemma all_out_rounds (cfg : Index.Config) task freemem memStats (k : nat) :
  0 < Index.poolSize cfg ->
  (forall w, Index.newWorker cfg w = None) ->
  Index.getMemPercent cfg freemem = Return memStats ->
  forall (s : Index.State) (c : nat),
    all_out s c ->
    all_out (Index.steps cfg s
               (concat (repeat (busy_round (Index.poolSize cfg) task freemem) k)))
            (c + k * Index.poolSize cfg).
Proof.
  intros Hn Hnew Hmem. induction k as [|k IH]; intros s c H.
  - simpl. now rewrite Nat.add_0_r.
  - cbn [repeat concat]. rewrite index_steps_app.
    replace (c + S k * Index.poolSize cfg)
      with (c + Index.poolSize cfg + k * Index.poolSize cfg) by lia.
    apply IH. exact (@all_out_round cfg task freemem memStats s c Hn Hnew Hmem H).
Qed.

(** X11: [poolSize] does not bound the number of workers that are alive.
    While no worker answers, every [poolSize] calls of [run] make another
    [poolSize] workers: after [(k + 1) * poolSize] calls, that many workers
    have been made, each has been posted one task, and none has been
    terminated. *)
Theorem live_workers_not_bounded_by_poolSize
        (cfg : Index.Config) task freemem memStats (k : nat) :
  0 < Index.poolSize cfg ->
  (forall w, Index.newWorker cfg w = None) ->
  Index.getMemPercent cfg freemem = Return memStats ->
  let s := Index.steps cfg (Index.constructor cfg)
                       (flood (Index.poolSize cfg) k task freemem) in
  Index.reachable cfg s /\
  creations s = seq 0 ((k + 1) * Index.poolSize cfg) /\
  map fst (posts s) = seq 0 ((k + 1) * Index.poolSize cfg) /\
  terminations s = [].
Proof.
  intros Hn Hnew Hmem s. split; [eexists; reflexivity|].
  subst s. unfold flood. rewrite index_steps_app.
  assert (H0 : all_out (Index.steps cfg (Index.constructor cfg)
                          (repeat (Index.Run task 0 freemem None) (Index.poolSize cfg)))
                       (Index.poolSize cfg)).
  { unfold Index.constructor, Index.buildPool.
    pose proof (@buildPool_loop_ok cfg (Index.poolSize cfg) 0 Index.empty
                  (fun k _ => Hnew _)) as B.
    cbv zeta in B. destruct B as (_ & P & W & T & _ & M & _ & _ & Wa & _).
    simpl in P, W, T, M, Wa.
    pose proof (@drain_pool cfg task freemem memStats _ _ Hmem P) as D.
    cbv zeta in D. rewrite built_length in D.
    destruct D as (P3 & Wa3 & M3 & W3 & C3 & T3 & Po3).
    unfold all_out. rewrite P3, Wa3, M3, W3, C3, T3, Po3, Wa, M, W, map_worker_built.
    unfold creations, terminations, posts. rewrite T.
    rewrite flat_map_NewWorker, flat_map_NewWorker_posts, flat_map_NewWorker_terminations.
    repeat split. }
  pose proof (@all_out_rounds cfg task freemem memStats k Hn Hnew Hmem _ _ H0)
    as (_ & _ & _ & _ & C & Po & T).
  replace ((k + 1) * Index.poolSize cfg)
    with (Index.poolSize cfg + k * Index.poolSize cfg) by lia.
  repeat split; assumption.
Qed.

Lemma live_workers_not_bounded_by_poolSize_witness :
  let s := Index.steps two_workers (Index.constructor two_workers)
             (flood 2 2 VNull 8589934592) in
  creations s = [0; 1; 2; 3; 4; 5] /\ terminations s = [].
Proof.
  intros s.
  destruct (@live_workers_not_bounded_by_poolSize
              two_workers VNull 8589934592%Z (VBool true) 2
              (Nat.lt_0_succ 1) (fun _ => eq_refl) eq_refl)
    as (_ & C & _ & T).
  split; [exact C | exact T].
Defined.

(** ** The exit of the process, in src/index.js *)

Lemma pop_some {A : Type} (l : list A) x r : pop l = Some (x, r) -> l = r ++ [x].
Proof.
  unfold pop. intros H. destruct (rev l) as [|y t] eqn:E; [discriminate|].
  injection H as <- <-. rewrite <- (rev_involutive l), E. reflexivity.
Qed.

(** X12: at the exit of the process, [terminateAllWorkers] terminates the
    workers that are in the pool, last one first, and nothing else: a worker
    that is out on a task is not terminated, no pending call of [run] is
    settled, and the listeners and the suspended calls stay as they are. *)
Theorem exit_terminates_idle_workers_only (cfg : Index.Config) (s : Index.State) :
  let s' := Index.step cfg s Index.Exit in
  Index.trace s'
  = Index.trace s ++ map Index.Terminate (rev (map Index.worker (Index.pool s))) /\
  Index.pool s' = [] /\
  Index.listeners s' = Index.listeners s /\
  Index.waiting s' = Index.waiting s /\
  Index.tasks s' = Index.tasks s.
Proof.
  simpl. remember (length (Index.pool s)) as n eqn:Hn. revert s Hn.
  induction n as [n IH] using lt_wf_ind. intros s Hn.
  rewrite terminateAllWorkers_unfold.
  destruct (pop (Index.pool s)) as [[w rest]|] eqn:E.
  - pose proof (pop_length _ E) as L. pose proof (pop_some _ E) as P.
    destruct (IH (length rest) ltac:(lia)
                 (Index.emit (Index.Terminate (Index.worker w)) (Index.set_pool rest s))
                 eq_refl) as (T & P' & Li & Wa & Ta).
    rewrite T, P', Li, Wa, Ta, P. simpl.
    rewrite map_app, rev_app_distr, <- app_assoc. repeat split.
  - rewrite (pop_nil _ E). simpl. rewrite app_nil_r. repeat split.
Qed.

(** ** A worker that answers when the pool is full *)

(** X13: a worker that answers while the pool holds [poolSize] workers (as
    it can after the pool was built anew) is not put back and is not
    terminated: the call resolves with the worker's object, and the worker
    is left running outside the pool. *)
Theorem answer_to_full_pool_drops_worker
        (cfg : Index.Config) (s : Index.State) (w : nat) (x : Index.Execution) fields :
  Index.minWorkers s = None ->
  Index.poolSize cfg <= length (Index.pool s) ->
  Index.message_executions (Index.listeners_of w s) = [x] ->
  Index.settled (Index.x_call x) s = false ->
  let s' := Index.on_message cfg w (VObj fields) s in
  Index.pool s' = Index.pool s /\
  terminations s' = terminations s /\
  Index.trace s'
  = Index.trace s
    ++ [Index.Log (Index.LogWorkerExecuted (Index.id (Index.x_worker x)));
        Index.Settle (Index.x_call x)
          (VObj [("status", VNum (Fin (inject_Z (Index.x_status x))));
                 ("result",
                  decorated cfg fields
                            (log_object (Index.id (Index.x_worker x))
                                        (length (Index.pool s))
                                        (length (Index.tasks s)))
                            (Index.x_memStats x))]%string)].
Proof.
  intros Hmin Hfull Hx Hfresh s'. subst s'.
  rewrite (on_message_single cfg _ _ s Hx).
  unfold Index.messageListener. cbv zeta.
  assert (Hroom : (length (Index.pool (Index.emit (Index.Log (Index.LogWorkerExecuted
                     (Index.id (Index.x_worker x)))) s)) <? Index.poolSize cfg) = false).
  { apply Nat.ltb_ge. simpl. exact Hfull. }
  rewrite Hroom.
  unfold Index.after_message.
  assert (Hs : Index.settled (Index.x_call x)
                 (Index.cleanup x (Index.emit (Index.Log (Index.LogWorkerExecuted
                       (Index.id (Index.x_worker x)))) s)) = false).
  { unfold Index.settled in *. simpl. rewrite existsb_app, Hfresh. reflexivity. }
  rewrite Hs. unfold decorated, log_object, terminations.
  destruct (Index.returnLog cfg); simpl; unfold Index.run_end;
    rewrite terminateExcessWorkers_undefined by (simpl; congruence);
    simpl; rewrite <- !app_assoc, !flat_map_app; simpl;
    rewrite ?app_nil_r, ?length_app; simpl; rewrite ?Nat.add_1_r; repeat split.
Qed.

Lemma answer_to_full_pool_drops_worker_witness :
  let s := Index.steps two_workers (Index.constructor two_workers)
             [Index.Run VNull 0 8589934592 None; Index.Run VNull 0 8589934592 None;
              Index.Run VNull 0 8589934592 None; Index.Resume 8589934592 None;
              Index.Message 0 (VObj [])] in
  let s' := Index.on_message two_workers 1 (VObj []) s in
  map Index.worker (Index.pool s) = [3; 0] /\
  map Index.worker (Index.pool s') = [3; 0] /\
  terminations s' = [].
Proof.
  intros s s'.
  destruct (@answer_to_full_pool_drops_worker
              two_workers s 1
              {| Index.x_call := 1; Index.x_status := 429;
                 Index.x_worker := {| Index.id := "-2-"; Index.worker := 1 |};
                 Index.x_memStats := VBool true |}
              [] eq_refl (le_n 2) eq_refl eq_refl)
    as (P & T & _).
  split; [reflexivity|].
  split; [exact (f_equal (map Index.worker) P) | exact T].
Defined.

(** ** A pool of size zero *)

Lemma hung_runTask (cfg : Index.Config) call status task freemem post (s : Index.State) :
  Index.poolSize cfg = 0 ->
  Index.pool s = [] ->
  Index.runTask cfg call status task freemem post s
  = Index.set_waiting
      (Index.waiting s
         ++ [{| Index.w_call := call; Index.w_status := status; Index.w_task := task |}])
      s.
Proof.
  intros H0 Hpool. unfold Index.runTask, Index.buildPool. rewrite Hpool, H0.
  reflexivity.
Qed.

Lemma hung_step (cfg : Index.Config) (s : Index.State) (e : Index.Event) :
  Index.poolSize cfg = 0 -> hung s -> hung (Index.step cfg s e).
Proof.
  intros H0 (P & L & T & W).
  destruct e as [task now freemem post|freemem post|w data|w error| |w|]; simpl.
  - rewrite run_eq. cbv zeta.
    pose proof (canExecuteTask_frame cfg now (Index.set_calls (S (Index.calls s)) s))
      as (P1 & _ & T1 & L1 & _ & Wa1 & C1 & _).
    cbv zeta in P1, T1, L1, Wa1, C1. simpl in P1, T1, L1, Wa1, C1.
    rewrite hung_runTask by (try assumption; now rewrite P1).
    unfold hung. simpl. rewrite P1, L1, T1, Wa1, C1, length_app. simpl.
    repeat split; try assumption. lia.
  - unfold Index.resume. destruct (Index.waiting s) as [|c rest] eqn:E.
    + unfold hung. rewrite E. repeat split; assumption.
    + rewrite hung_runTask by assumption.
      unfold hung. simpl. rewrite length_app. simpl in *.
      repeat split; try assumption. lia.
  - unfold Index.on_message, Index.listeners_of. rewrite L. simpl.
    repeat split; assumption.
  - unfold Index.on_error, Index.listeners_of. rewrite L. simpl.
    repeat split; assumption.
  - unfold Index.addNewWorkerToPool. rewrite H0. simpl. repeat split; assumption.
  - unfold Index.on_online, Index.listeners_of. rewrite L. simpl.
    unfold hung. simpl. repeat split; assumption.
  - rewrite terminateAllWorkers_unfold, P. simpl. repeat split; assumption.
Qed.

(** X14: a pool made with [poolSize] 0 never answers.  Whatever happens,
    it makes no worker, posts no task and settles no call: every call of
    [run] stays suspended in the loop [while (this.pool.length === 0)] of
    [runTask], which builds an empty pool again each time it continues. *)
Theorem zero_poolSize_never_answers (cfg : Index.Config) (s : Index.State) :
  Index.poolSize cfg = 0 ->
  Index.reachable cfg s ->
  Index.trace s = [] /\ Index.pool s = [] /\
  length (Index.waiting s) = Index.calls s.
Proof.
  intros H0 [es ->].
  assert (H : hung (Index.steps cfg (Index.constructor cfg) es)).
  { induction es as [|e es IH] using rev_ind.
    - unfold Index.constructor, Index.buildPool. rewrite H0. simpl.
      repeat split.
    - rewrite index_steps_app. simpl. apply hung_step; assumption. }
  destruct H as (P & _ & T & W). repeat split; assumption.
Qed.

Lemma zero_poolSize_never_answers_witness :
  let cfg := {| Index.poolSize := 0; Index.memThreshold := inject_Z 90;
                Index.returnLog := true; Index.freememAtLoad := 8589934592;
                Index.idleThreshold := 100; Index.newWorker := fun _ => None |} in
  let s := Index.steps cfg (Index.constructor cfg)
             [Index.Run VNull 0 8589934592 None; Index.Resume 8589934592 None;
              Index.Resume 8589934592 None] in
  Index.trace s = [] /\ Index.pool s = [] /\ length (Index.waiting s) = Index.calls s.
Proof.
  intros cfg s.
  exact (@zero_poolSize_never_answers cfg s eq_refl
           (ex_intro _ [Index.Run VNull 0 8589934592 None; Index.Resume 8589934592 None;
                        Index.Resume 8589934592 None] eq_refl)).
Defined.

(** ** Building the pool, in the queued class *)

Lemma idle_pool_S (j : nat) : idle_pool (S j) = idle_pool j ++ [idle_item j].
Proof. unfold idle_pool. now rewrite seq_S, map_app. Qed.

Lemma idle_pool_length (j : nat) : length (idle_pool j) = j.
Proof. unfold idle_pool. now rewrite length_map, length_seq. Qed.

Lemma starting_constructor (cfg : Queued.Config) :
  (forall w, Queued.newWorker cfg w = None) ->
  starting cfg 0 (Queued.constructor cfg) /\
  Queued.taskQueue (Queued.constructor cfg) = [] /\
  dispatched (Queued.constructor cfg) = [] /\
  settlements (Queued.constructor cfg) = [].
Proof.
  intros Hnew. unfold starting, Queued.constructor, Queued.buildPool_from.
  destruct (0 <? Queued.poolSize cfg) eqn:E; [|repeat split].
  unfold Queued.addWorkerToPool. simpl. rewrite Hnew. unfold Queued.log.
  destruct (Queued.returnLog cfg); simpl; repeat split.
Qed.

Lemma starting_online (cfg : Queued.Config) (j : nat) (s : Queued.State) :
  (forall w, Queued.newWorker cfg w = None) ->
  starting cfg j s -> j < Queued.poolSize cfg ->
  starting cfg (S j) (Queued.on_online cfg j s).
Proof.
  intros Hnew (P & B & W) Hj.
  assert (E : (j <? Queued.poolSize cfg) = true) by (apply Nat.ltb_lt; exact Hj).
  rewrite E in B, W.
  unfold Queued.on_online. rewrite B. cbn [Queued.b_worker Queued.b_i Queued.b_workerId].
  rewrite Nat.eqb_refl. unfold Queued.buildPool_from, starting.
  destruct (S j <? Queued.poolSize cfg) eqn:E'.
  - unfold Queued.addWorkerToPool. cbn [Queued.workersMade Queued.set_pool].
    rewrite Hnew. unfold Queued.log.
    destruct (Queued.returnLog cfg);
      cbn [Queued.pool Queued.building Queued.workersMade Queued.emit Queued.set_pool];
      rewrite P, W, idle_pool_S, length_app, idle_pool_length; cbn [length];
      repeat split;
      replace (j + 1 + 1) with (S j + 1) by lia; reflexivity.
  - cbn [Queued.pool Queued.building Queued.workersMade Queued.set_building
         Queued.set_pool].
    rewrite P, W, idle_pool_S. repeat split.
Qed.

Lemma starting_onlines (cfg : Queued.Config) (m : nat) :
  (forall w, Queued.newWorker cfg w = None) ->
  forall (j : nat) (s : Queued.State),
    starting cfg j s -> j + m <= Queued.poolSize cfg ->
    let r := Queued.steps cfg s (map Queued.Online (seq j m)) in
    snd r = None /\
    starting cfg (j + m) (fst r) /\
    Queued.taskQueue (fst r) = Queued.taskQueue s /\
    Queued.promises (fst r) = Queued.promises s /\
    dispatched (fst r) = dispatched s /\
    settlements (fst r) = settlements s.
Proof.
  intros Hnew. induction m as [|m IH]; intros j s H Hm; cbv zeta.
  - simpl. rewrite Nat.add_0_r. split; [reflexivity|]. split; [exact H|]. repeat split.
  - simpl seq. simpl map. simpl Queued.steps.
    destruct (on_online_frame cfg j s) as (Q & Pr & t & T & D & _ & F).
    cbv zeta in Q, Pr, T.
    destruct (IH (S j) (Queued.on_online cfg j s)
                 (starting_online Hnew H ltac:(lia)) ltac:(lia))
      as (R1 & S1 & Q1 & P1 & D1 & Se1).
    cbv zeta in R1, S1, Q1, P1, D1, Se1.
    replace (j + S m) with (S j + m) by lia.
    rewrite Q1, P1, D1, Se1, Q, Pr.
    split; [exact R1|]. split; [exact S1|]. repeat split.
    + unfold dispatched. rewrite T. unfold dispatched_in in *.
      now rewrite flat_map_app, D, app_nil_r.
    + unfold settlements. rewrite T, flat_map_app.
      assert (Z0 : flat_map (fun e => match e with
                                      | Queued.Resolve p v => [(p, @inl jsval exn v)]
                                      | Queued.Reject p r => [(p, inr r)]
                                      | _ => []
                                      end) t = []).
      { clear -F. induction F as [|e t He _ IHt]; [reflexivity|].
        simpl. rewrite IHt. destruct e; simpl in *; try contradiction; reflexivity. }
      now rewrite Z0, app_nil_r.
Qed.

(** X15: when no [new Worker] throws, the queued class makes its workers
    one at a time, each after the one before came online; once [poolSize]
    workers are online the pool holds exactly these, idle, named
    "Worker-1" to "Worker-n" in that order, and [buildPool] is over. *)
Theorem queued_pool_is_built (cfg : Queued.Config) (j : nat) :
  (forall w, Queued.newWorker cfg w = None) ->
  j <= Queued.poolSize cfg ->
  let r := Queued.steps cfg (Queued.constructor cfg) (map Queued.Online (seq 0 j)) in
  snd r = None /\
  Queued.pool (fst r) = idle_pool j /\
  Queued.workersMade (fst r) = (if j <? Queued.poolSize cfg then S j else j) /\
  (j = Queued.poolSize cfg -> Queued.building (fst r) = None).
Proof.
  intros Hnew Hj.
  destruct (starting_constructor cfg Hnew) as (S0 & _).
  destruct (@starting_onlines cfg j Hnew 0 _ S0 Hj) as (R & (P & B & W) & _).
  cbv zeta in *. simpl in P, B, W. repeat split; try assumption.
  intros ->. rewrite Nat.ltb_irrefl in B. exact B.
Qed.

Lemma queued_pool_is_built_witness :
  map Queued.id
      (Queued.pool (fst (Queued.steps one_queued_worker
                                      (Queued.constructor one_queued_worker)
                                      [Queued.Online 0])))
  = ["Worker-1"%string].
Proof.
  destruct (@queued_pool_is_built one_queued_worker 1 (fun _ => eq_refl) (le_n 1))
    as (_ & P & _).
  exact (f_equal (map Queued.id) P).
Defined.

Lemma starting_submit (cfg : Queued.Config) (subs : list submission) :
  forall s : Queued.State,
    starting cfg 0 s ->
    let r := Queued.steps cfg s (map submit subs) in
    snd r = None /\
    starting cfg 0 (fst r) /\
    Queued.trace (fst r) = Queued.trace s /\
    queued (fst r) = queued s ++ map task_of subs /\
    Queued.promises (fst r) = Queued.promises s + length subs.
Proof.
  induction subs as [|[[[task taskId] now] post] subs IH]; intros s H; cbv zeta.
  - simpl. rewrite app_nil_r, Nat.add_0_r.
    split; [reflexivity|]. split; [exact H|]. repeat split.
  - simpl map. simpl Queued.steps.
    assert (Sat : saturated s).
    { destruct H as (P & _). unfold saturated. rewrite P. reflexivity. }
    rewrite (run_saturated cfg task taskId now post Sat).
    match goal with |- context [Queued.steps cfg ?s0 _] =>
      destruct (IH s0) as (R & S1 & T & Q & Pr); [exact H|] end.
    cbv zeta in R, S1, T, Q, Pr. simpl in T, Q, Pr.
    rewrite T, Q, Pr. split; [exact R|]. split; [exact S1|]. repeat split.
    + unfold queued. simpl. rewrite map_app, <- app_assoc. reflexivity.
    + simpl. lia.
Qed.

(** X16: a task submitted before the first worker is online is not started
    by the workers coming online: the 'online' listener does not call
    [assignTasks].  With every worker online and idle the tasks are still
    in the queue, in order, none posted and no promise settled; they wait
    for the next call of [run] or the next result. *)
Theorem early_tasks_wait_for_next_call (cfg : Queued.Config) (subs : list submission) :
  (forall w, Queued.newWorker cfg w = None) ->
  let r := Queued.steps cfg (Queued.constructor cfg)
                        (map submit subs
                         ++ map Queued.Online (seq 0 (Queued.poolSize cfg))) in
  snd r = None /\
  Queued.pool (fst r) = idle_pool (Queued.poolSize cfg) /\
  Queued.building (fst r) = None /\
  queued (fst r) = map task_of subs /\
  dispatched (fst r) = [] /\
  settlements (fst r) = [].
Proof.
  intros Hnew.
  destruct (starting_constructor cfg Hnew) as (S0 & Q0 & D0 & Se0).
  destruct (@starting_submit cfg subs _ S0) as (R1 & S1 & T1 & Q1 & _).
  cbv zeta in R1, S1, T1, Q1.
  cbv zeta. rewrite queued_steps_app.
  destruct (Queued.steps cfg (Queued.constructor cfg) (map submit subs)) as [s1 r1].
  simpl in R1, S1, T1, Q1. subst r1.
  destruct (@starting_onlines cfg (Queued.poolSize cfg) Hnew 0 s1 S1 (le_n _))
    as (R2 & (P2 & B2 & _) & Q2 & _ & D2 & Se2).
  cbv zeta in R2, P2, B2, Q2, D2, Se2. simpl in P2, B2.
  rewrite Nat.ltb_irrefl in B2.
  repeat split; try assumption.
  - unfold queued in *. rewrite Q2. unfold queued in Q0. rewrite Q1, Q0. reflexivity.
  - rewrite D2. unfold dispatched in *. rewrite T1. exact D0.
  - rewrite Se2. unfold settlements in *. rewrite T1. exact Se0.
Qed.

Lemma early_tasks_wait_for_next_call_witness :
  let r := Queued.steps one_queued_worker (Queued.constructor one_queued_worker)
             [Queued.Run (VStr "a") (VStr "1") 0 None; Queued.Online 0] in
  map Queued.busy (Queued.pool (fst r)) = [false] /\
  queued (fst r) = [(VStr "a", VStr "1")] /\
  dispatched (fst r) = [].
Proof.
  intros r.
  destruct (@early_tasks_wait_for_next_call
              one_queued_worker [(VStr "a", VStr "1", 0%Z, None)] (fun _ => eq_refl))
    as (_ & P & _ & Q & D & _).
  split; [exact (f_equal (map Queued.busy) P) | split; [exact Q | exact D]].
Defined.

(** ** Shutting the queued class down *)

Lemma queued_terminate_trace (cfg : Queued.Config) (l : list Queued.WorkerItem) :
  forall s : Queued.State,
    queued_terminations
      (fold_left (fun s it =>
                    Queued.emit (Queued.Terminate (Queued.worker it))
                      (Queued.log (Queued.returnLog cfg)
                                  (Queued.LogTerminating (Queued.id it)) s))
                 l s)
    = queued_terminations s ++ map Queued.worker l.
Proof.
  induction l as [|it l IH]; intros s; simpl; [now rewrite app_nil_r|].
  rewrite IH. unfold queued_terminations, Queued.log.
  destruct (Queued.returnLog cfg); simpl; rewrite !flat_map_app; simpl;
    rewrite ?app_nil_r, <- ?app_assoc; reflexivity.
Qed.

Lemma find_created (w : nat) (l : list (nat * string)) :
  In w (map fst l) ->
  exists workerId, find (fun c => Nat.eqb (fst c) w) l = Some (w, workerId).
Proof.
  induction l as [|[w' workerId] l IH]; simpl; [contradiction|].
  intros [->|H].
  - rewrite Nat.eqb_refl. eexists. reflexivity.
  - destruct (Nat.eqb w' w) eqn:E.
    + apply Nat.eqb_eq in E. subst. eexists. reflexivity.
    + exact (IH H).
Qed.

(** X17: after [terminateAllWorkers], a result that still arrives from a
    worker the pool had made finds no item for it: [handleWorkerResult]
    throws a TypeError out of the 'message' listener, and nothing else
    happens; the promise of the task is not settled. *)
Theorem message_after_shutdown_throws
        (cfg : Queued.Config) (s : Queued.State) (w : nat) result now post :
  In w (map fst (Queued.created s)) ->
  Queued.step cfg (Queued.terminateAllWorkers cfg s) (Queued.Message w result now post)
  = (Queued.terminateAllWorkers cfg s,
     Some (TypeError "Cannot set properties of undefined (setting 'busy')")).
Proof.
  intros H. simpl. unfold Queued.on_message.
  destruct (queued_terminate_fold cfg (Queued.pool s) s) as (_ & _ & _ & C & _).
  cbv zeta in C.
  unfold Queued.terminateAllWorkers at 1. cbn [Queued.created Queued.set_pool].
  rewrite C. destruct (find_created _ _ H) as [workerId ->].
  unfold Queued.handleWorkerResult, Queued.terminateAllWorkers at 1.
  cbn [Queued.pool Queued.set_pool find_index]. reflexivity.
Qed.

Lemma message_after_shutdown_throws_witness :
  let s := fst (Queued.steps one_queued_worker (Queued.constructor one_queued_worker)
                             [Queued.Online 0; Queued.Run (VStr "a") (VStr "1") 0 None;
                              Queued.Exit]) in
  snd (Queued.step one_queued_worker s (Queued.Message 0 VNull 5 None))
  = Some (TypeError "Cannot set properties of undefined (setting 'busy')").
Proof.
  intros s.
  exact (f_equal snd
           (@message_after_shutdown_throws
              one_queued_worker
              (fst (Queued.steps one_queued_worker (Queued.constructor one_queued_worker)
                                 [Queued.Online 0; Queued.Run (VStr "a") (VStr "1") 0 None]))
              0 VNull 5%Z None (or_introl eq_refl))).
Defined.

(** X18: [terminateAllWorkers] terminates the workers of the pool in pool
    order and settles nothing: the tasks in the queue stay there, and the
    promises of the tasks that were running stay pending.  Once no worker is
    starting any more, nothing but a result can change that: every later
    call of [run] is queued without being posted, and no promise is ever
    settled. *)
Theorem shutdown_leaves_tasks_pending (cfg : Queued.Config) (s : Queued.State) :
  Queued.building s = None ->
  let s0 := fst (Queued.step cfg s Queued.Exit) in
  queued_terminations s0 = queued_terminations s ++ workers s /\
  queued s0 = queued s /\
  forall es,
    let r := Queued.steps cfg s0 (filter not_message es) in
    snd r = None /\
    (forall p, Queued.settled p (fst r) = Queued.settled p s) /\
    dispatched (fst r) = dispatched s /\
    queued (fst r) = queued s ++ submitted (filter not_message es).
Proof.
  intros B s0. subst s0. simpl fst. unfold Queued.terminateAllWorkers.
  destruct (terminateAllWorkers_trace cfg (Queued.pool s) s) as (t & T & D & _ & F).
  destruct (queued_terminate_fold cfg (Queued.pool s) s) as (_ & Q & _ & _ & Bd & _).
  cbv zeta in Q, Bd.
  set (s1 := fold_left _ (Queued.pool s) s) in *.
  assert (Q0 : queued (Queued.set_pool [] s1) = queued s)
    by (unfold queued; simpl; now rewrite Q).
  assert (D0 : dispatched (Queued.set_pool [] s1) = dispatched s).
  { unfold dispatched. simpl. rewrite T. unfold dispatched_in in *.
    now rewrite flat_map_app, D, app_nil_r. }
  split; [unfold queued_terminations at 1; simpl; apply queued_terminate_trace|].
  split; [exact Q0|].
  intros es.
  destruct (@stuck_steps cfg es (Queued.set_pool [] s1)) as (R & S & D1);
    [reflexivity | simpl; now rewrite Bd |].
  cbv zeta in R, S, D1. cbv zeta.
  destruct (Queued.steps cfg (Queued.set_pool [] s1) (filter not_message es))
    as [s' r] eqn:E.
  simpl in R, S, D1. simpl. subst r.
  split; [reflexivity|]. split.
  - intros p. rewrite S. apply (@settled_unchanged p s (Queued.set_pool [] s1) t T F).
  - split; [now rewrite D1|].
    destruct (steps_fifo cfg _ _ E) as (_ & Hf). specialize (Hf eq_refl).
    rewrite D1, Q0 in Hf. apply app_inv_head in Hf. exact Hf.
Qed.

Lemma shutdown_leaves_tasks_pending_witness :
  let s := fst (Queued.steps one_queued_worker (Queued.constructor one_queued_worker)
                             [Queued.Online 0; Queued.Run (VStr "a") (VStr "1") 0 None;
                              Queued.Run (VStr "b") (VStr "2") 1 None]) in
  let s0 := fst (Queued.step one_queued_worker s Queued.Exit) in
  queued_terminations s0 = [0] /\ queued s0 = [(VStr "b", VStr "2")] /\
  Queued.settled 0 s0 = false /\ Queued.settled 1 s0 = false.
Proof.
  intros s s0.
  destruct (@shutdown_leaves_tasks_pending one_queued_worker s eq_refl)
    as (T & Q & H).
  destruct (H []) as (_ & S & _).
  split; [exact T|]. split; [exact Q|]. split; [exact (S 0)|exact (S 1)].
Defined.

(** ** A [postMessage] that throws, in the queued class *)

Lemma settlements_logs (t : list Queued.Effect) :
  Forall is_log t ->
  flat_map (fun e => match e with
                     | Queued.Resolve p v => [(p, @inl jsval exn v)]
                     | Queued.Reject p r => [(p, inr r)]
                     | _ => []
                     end) t = [].
Proof.
  induction 1 as [|e t He _ IH]; [reflexivity|].
  simpl. rewrite IH. destruct e; simpl in *; try contradiction; reflexivity.
Qed.

Lemma settled_logs (p : nat) (t : list Queued.Effect) :
  Forall is_log t ->
  existsb (fun e => match e with
                    | Queued.Resolve q _ | Queued.Reject q _ => Nat.eqb q p
                    | _ => false
                    end) t = false.
Proof.
  induction 1 as [|e t He _ IH]; [reflexivity|].
  simpl. rewrite IH. destruct e; simpl in *; try contradiction; reflexivity.
Qed.

(** X19: when [postMessage] throws inside a call of [run], the promise
    that is rejected is the caller's, whereas the task whose post threw is
    the oldest one in the queue, which can be another caller's.  That task
    leaves the queue and its worker is marked busy, its promise is not
    settled, and the caller's own task stays queued when it was not the
    oldest. *)
Theorem post_failure_rejects_the_caller
        (cfg : Queued.Config) (s : Queued.State) task taskId now message
        (i : nat) (e : Queued.Entry) (rest : list Queued.Entry) :
  find_index (fun w => negb (Queued.busy w)) (Queued.pool s) = Some i ->
  Queued.taskQueue s
  ++ [{| Queued.e_task := task; Queued.e_taskId := taskId;
         Queued.e_resolve := Queued.promises s; Queued.e_reject := Queued.promises s |}]
  = e :: rest ->
  Queued.settled (Queued.promises s) s = false ->
  let s' := Queued.run cfg task taskId now (Some message) s in
  Queued.taskQueue s' = rest /\
  Queued.pool s' = update i (assigned e now) (Queued.pool s) /\
  dispatched s' = dispatched s ++ [(Queued.e_task e, Queued.e_taskId e)] /\
  settlements s' = settlements s ++ [(Queued.promises s, inr (Error message))].
Proof.
  intros Hfind Hq Hfresh s'. subst s'. unfold Queued.run. cbv zeta.
  match goal with |- context [Queued.assignTasks cfg now (Some message) ?t] =>
    set (s0 := t)
  end.
  destruct (assignTasks_spec cfg now (Some message) s0) as [[_ [F|Q]]|H].
  - subst s0. simpl in F. congruence.
  - subst s0. simpl in Q. rewrite Hq in Q. discriminate.
  - destruct H as (i' & it & e' & rest' & logs & F & N & B & Q & R & P & Q' & _ & _ & _
                   & Pr & L & T).
    cbv zeta in R, P, Q', Pr, T.
    assert (i' = i) by (subst s0; simpl in F; congruence). subst i'.
    assert (He : e' = e /\ rest' = rest).
    { subst s0. simpl in Q. rewrite Hq in Q. injection Q as <- <-. auto. }
    destruct He as [-> ->].
    destruct (Queued.assignTasks cfg now (Some message) s0) as [s1 r].
    simpl in R, P, Q', Pr, T. subst r. simpl option_map. cbv iota beta.
    assert (Hs : Queued.settled (Queued.promises s) s1 = false).
    { unfold Queued.settled in *. rewrite T. subst s0. simpl.
      rewrite !existsb_app, Hfresh, (settled_logs _ L). reflexivity. }
    unfold Queued.call_reject. rewrite Hs.
    unfold dispatched, settlements, dispatched_in.
    cbn [Queued.taskQueue Queued.pool Queued.trace Queued.emit].
    rewrite Q', P, T. subst s0. simpl Queued.pool. simpl Queued.trace.
    rewrite !flat_map_app, (settlements_logs L).
    destruct (dispatched_in_no_post (is_log_no_post L)) as [D _].
    unfold dispatched_in in D. rewrite D. simpl. rewrite !app_nil_r.
    repeat split.
Qed.

Lemma post_failure_rejects_the_caller_witness :
  let s := fst (Queued.steps one_queued_worker (Queued.constructor one_queued_worker)
                             [Queued.Run (VStr "a") (VStr "1") 0 None; Queued.Online 0]) in
  let s' := Queued.run one_queued_worker (VStr "b") (VStr "2") 1 (Some "boom"%string) s in
  queued s' = [(VStr "b", VStr "2")] /\
  dispatched s' = [(VStr "a", VStr "1")] /\
  settlements s' = [(1, inr (Error "boom"))].
Proof.
  intros s s'.
  destruct (@post_failure_rejects_the_caller
              one_queued_worker s (VStr "b") (VStr "2") 1%Z "boom"%string 0
              {| Queued.e_task := VStr "a"; Queued.e_taskId := VStr "1";
                 Queued.e_resolve := 0; Queued.e_reject := 0 |}
              [{| Queued.e_task := VStr "b"; Queued.e_taskId := VStr "2";
                  Queued.e_resolve := 1; Queued.e_reject := 1 |}]
              eq_refl eq_refl eq_refl)
    as (Q & _ & D & S).
  split; [exact (f_equal (map (fun e => (Queued.e_task e, Queued.e_taskId e))) Q)|].
  split; [exact D | exact S].
Defined.

(** ** A task that succeeds, in the queued class *)

Lemma find_index_by_key {A : Type} (key : A -> nat) (l : list A) (i : nat) (x : A) :
  NoDup (map key l) -> nth_error l i = Some x ->
  find_index (fun y => Nat.eqb (key y) (key x)) l = Some i.
Proof.
  revert i. induction l as [|y l IH]; intros [|i]; simpl; try discriminate.
  - intros _ [= ->]. rewrite Nat.eqb_refl. reflexivity.
  - intros ND N. inversion ND as [|k ks Hnot ND']; subst.
    destruct (Nat.eqb (key y) (key x)) eqn:E.
    + apply Nat.eqb_eq in E. exfalso. apply Hnot. rewrite E.
      apply in_map. eapply nth_error_In; eauto.
    + rewrite (IH i ND' N). reflexivity.
Qed.

Lemma update_ext_at {A : Type} (i : nat) (f g : A -> A) (l : list A) (x : A) :
  nth_error l i = Some x -> f x = g x -> update i f l = update i g l.
Proof.
  revert i. induction l as [|y l IH]; intros [|i]; simpl; try discriminate.
  - intros [= ->] ->. reflexivity.
  - intros N E. now rewrite (IH i N E).
Qed.

Lemma assignTasks_empty_queue (cfg : Queued.Config) now post (s : Queued.State) :
  Queued.taskQueue s = [] -> Queued.assignTasks cfg now post s = (s, None).
Proof.
  intros H. unfold Queued.assignTasks. rewrite H.
  destruct (find_index _ (Queued.pool s)); reflexivity.
Qed.

Lemma queued_settled_emit_log (p : nat) (l : Queued.LogLine) (s : Queued.State) :
  Queued.settled p (Queued.emit (Queued.Log l) s) = Queued.settled p s.
Proof.
  unfold Queued.settled. simpl. rewrite existsb_app. simpl. now rewrite orb_false_r.
Qed.

Lemma queued_settled_set_pool (p : nat) l (s : Queued.State) :
  Queued.settled p (Queued.set_pool l s) = Queued.settled p s.
Proof. reflexivity. Qed.

(** [release] for a worker that holds the resolve function of promise [p],
    not settled yet. *)
Lemma release_resolves (cfg : Queued.Config) (i : nat) result workerId later
      (s : Queued.State) (x : Queued.WorkerItem) (p : nat) (t : Z) :
  nth_error (Queued.pool s) i = Some x ->
  Queued.resolve x = Some p ->
  Queued.startTime x = Some t ->
  Queued.settled p s = false ->
  let s' := Queued.release cfg i result workerId later s in
  Queued.pool s' = update i (released t (Queued.taskId x)) (Queued.pool s) /\
  Queued.taskQueue s' = Queued.taskQueue s /\
  exists logs1 logs2,
    Forall is_log logs1 /\ Forall is_log logs2 /\
    Queued.trace s'
    = Queued.trace s ++ logs1
      ++ [Queued.Resolve p (response_of cfg result workerId (Queued.taskId x) (later - t))]
      ++ logs2.
Proof.
  intros Hnth Hres Hstart Hfresh. unfold Queued.release, Queued.log, response_of.
  destruct (Queued.returnLog cfg); cbv zeta;
    cbn [Queued.pool Queued.set_pool Queued.emit];
    rewrite (update_nth _ _ _ _ Hnth);
    cbn [Queued.resolve Queued.startTime Queued.taskId]; rewrite Hres, ?Hstart;
    unfold Queued.call_resolve;
    rewrite ?queued_settled_emit_log, ?queued_settled_set_pool,
      ?queued_settled_emit_log, Hfresh;
    cbn [Queued.pool Queued.set_pool Queued.emit Queued.taskQueue Queued.trace];
    rewrite ?update_update;
    (split; [apply (@update_ext_at _ i _ _ _ x Hnth); unfold released;
             cbn [Queued.id Queued.worker Queued.busy Queued.startTime Queued.taskId];
             rewrite Hstart; reflexivity|]);
    (split; [reflexivity|]).
  - exists [Queued.Log (Queued.LogProcessingCompleted workerId);
            Queued.Log (Queued.LogCompleted workerId (Queued.taskId x)
                                            (Fin (inject_Z (later - t))))],
           [Queued.Log (Queued.LogResolved workerId)].
    rewrite <- !app_assoc. repeat split; repeat constructor.
  - exists [], []. rewrite <- ?app_assoc. repeat split; constructor.
Qed.

Lemma queued_log_frame (b : bool) (l : Queued.LogLine) (s : Queued.State) :
  Queued.pool (Queued.log b l s) = Queued.pool s /\
  Queued.taskQueue (Queued.log b l s) = Queued.taskQueue s /\
  Queued.created (Queued.log b l s) = Queued.created s /\
  exists logs, Forall is_log logs /\
               Queued.trace (Queued.log b l s) = Queued.trace s ++ logs.
Proof.
  destruct b; simpl; repeat split.
  - eexists. split; [|reflexivity]. repeat constructor.
  - exists []. rewrite app_nil_r. split; [constructor|reflexivity].
Qed.

(** X20: a call of [run] that finds the queue empty and a worker idle posts
    its task to the first idle worker; when that worker's result arrives,
    the call's promise is resolved with the result (and, when logs are
    returned, the worker's name, the task id and the time between the post
    and the result), and the worker is idle again, with the functions of the
    promise cleared. *)
Theorem queued_run_then_message_round_trip
        (cfg : Queued.Config) (s : Queued.State) task taskId now result later
        (i : nat) (it : Queued.WorkerItem) (workerId : string) :
  NoDup (workers s) ->
  find_index (fun w => negb (Queued.busy w)) (Queued.pool s) = Some i ->
  nth_error (Queued.pool s) i = Some it ->
  Queued.taskQueue s = [] ->
  find (fun c => Nat.eqb (fst c) (Queued.worker it)) (Queued.created s)
  = Some (Queued.worker it, workerId) ->
  Queued.settled (Queued.promises s) s = false ->
  let s1 := Queued.run cfg task taskId now None s in
  let r := Queued.on_message cfg (Queued.worker it) result later None s1 in
  snd r = None /\
  dispatched (fst r) = dispatched s ++ [(task, taskId)] /\
  posted_to (new_effects s (fst r)) = [Queued.worker it] /\
  settlements (fst r)
  = settlements s
    ++ [(Queued.promises s, inl (response_of cfg result workerId taskId (later - now)))] /\
  Queued.pool (fst r) = update i (released now taskId) (Queued.pool s) /\
  Queued.taskQueue (fst r) = [].
Proof.
  intros ND Hfind Hnth Hq Hc Hfresh s1 r.
  assert (E1 : s1 =
    Queued.emit (Queued.PostMessage (Queued.worker it) task taskId None)
      (Queued.log (Queued.returnLog cfg)
         (Queued.LogAssigning taskId (Queued.id it) 0)
         (Queued.set_pool
            (update i (assigned {| Queued.e_task := task; Queued.e_taskId := taskId;
                                   Queued.e_resolve := Queued.promises s;
                                   Queued.e_reject := Queued.promises s |} now)
                    (Queued.pool s))
            (Queued.set_taskQueue [] (Queued.set_promises (S (Queued.promises s)) s))))).
  { subst s1. unfold Queued.run, Queued.assignTasks.
    cbn [Queued.pool Queued.taskQueue Queued.set_taskQueue Queued.set_promises
         Queued.set_pool].
    rewrite Hfind, Hq. cbn [app].
    cbn [Queued.pool Queued.taskQueue Queued.set_taskQueue Queued.set_promises
         Queued.set_pool Queued.e_task Queued.e_taskId Queued.e_resolve option_map].
    rewrite (update_nth _ _ _ _ Hnth).
    reflexivity. }
  set (e := {| Queued.e_task := task; Queued.e_taskId := taskId;
               Queued.e_resolve := Queued.promises s;
               Queued.e_reject := Queued.promises s |}) in *.
  set (p1 := update i (assigned e now) (Queued.pool s)) in *.
  assert (N1 : nth_error p1 i = Some (assigned e now it))
    by (apply update_nth_error; exact Hnth).
  assert (F1 : find_index (fun x => Nat.eqb (Queued.worker x) (Queued.worker it)) p1
               = Some i).
  { refine (@find_index_by_key _ Queued.worker p1 i (assigned e now it) _ N1).
    unfold p1. rewrite update_map by reflexivity. exact ND. }
  set (s0 := Queued.set_pool p1 _) in E1.
  destruct (queued_log_frame (Queued.returnLog cfg)
              (Queued.LogAssigning taskId (Queued.id it) 0) s0)
    as (Pl & Ql & Cl & logs0 & L0 & Tl).
  set (sl := Queued.log _ _ s0) in *.
  set (sp := Queued.emit (Queued.PostMessage (Queued.worker it) task taskId None) sl) in *.
  assert (Hsp : Queued.settled (Queued.promises s) sp = false).
  { unfold Queued.settled, sp. cbn [Queued.trace Queued.emit]. rewrite Tl.
    unfold s0. cbn [Queued.trace Queued.set_pool Queued.set_taskQueue Queued.set_promises].
    rewrite !existsb_app. fold (Queued.settled (Queued.promises s) s).
    rewrite Hfresh, (settled_logs _ L0). reflexivity. }
  destruct (@release_resolves cfg i result workerId later sp (assigned e now it)
              (Queued.promises s) now)
    as (P2 & Q2 & logs1 & logs2 & L1 & L2 & T2);
    [unfold sp; cbn [Queued.pool Queued.emit]; rewrite Pl; exact N1
    | reflexivity | reflexivity | exact Hsp |].
  cbv zeta in P2, Q2, T2.
  subst r. rewrite E1. fold sp. unfold Queued.on_message.
  replace (Queued.created sp) with (Queued.created s)
    by (unfold sp; cbn [Queued.created Queued.emit]; rewrite Cl; reflexivity).
  rewrite Hc. unfold Queued.handleWorkerResult.
  replace (Queued.pool sp) with p1
    by (unfold sp; cbn [Queued.pool Queued.emit]; rewrite Pl; reflexivity).
  rewrite F1.
  rewrite assignTasks_empty_queue
    by (rewrite Q2; unfold sp; cbn [Queued.taskQueue Queued.emit]; rewrite Ql;
        reflexivity).
  cbn [fst snd].
  assert (T : Queued.trace (Queued.release cfg i result workerId later sp)
              = Queued.trace s
                ++ logs0 ++ [Queued.PostMessage (Queued.worker it) task taskId None]
                ++ logs1
                ++ [Queued.Resolve (Queued.promises s)
                      (response_of cfg result workerId taskId (later - now))]
                ++ logs2).
  { rewrite T2. unfold sp. cbn [Queued.trace Queued.emit]. rewrite Tl.
    unfold s0. cbn [Queued.trace Queued.set_pool Queued.set_taskQueue Queued.set_promises].
    rewrite <- !app_assoc. reflexivity. }
  destruct (dispatched_in_no_post (is_log_no_post L0)) as [D0 Po0].
  destruct (dispatched_in_no_post (is_log_no_post L1)) as [D1 Po1].
  destruct (dispatched_in_no_post (is_log_no_post L2)) as [D2 Po2].
  split; [reflexivity|].
  split.
  { rewrite (dispatched_app _ _ _ T). unfold dispatched_in in *.
    rewrite !flat_map_app, D0, D1, D2. reflexivity. }
  split.
  { rewrite (@new_effects_app _ _ _ T), !posted_to_app, Po0, Po1, Po2. reflexivity. }
  split.
  { unfold settlements. rewrite T, !flat_map_app.
    rewrite (settlements_logs L0), (settlements_logs L1), (settlements_logs L2).
    reflexivity. }
  split.
  { rewrite P2.
    replace (Queued.pool sp) with p1
      by (unfold sp; cbn [Queued.pool Queued.emit]; rewrite Pl; reflexivity).
    unfold p1. rewrite update_update. reflexivity. }
  rewrite Q2. unfold sp. cbn [Queued.taskQueue Queued.emit]. rewrite Ql. reflexivity.
Qed.

Lemma queued_run_then_message_round_trip_witness :
  let s := fst (Queued.steps one_queued_worker (Queued.constructor one_queued_worker)
                             [Queued.Online 0]) in
  let s1 := Queued.run one_queued_worker (VStr "a") (VStr "1") 10 None s in
  let r := Queued.on_message one_queued_worker 0 (VStr "done") 25 None s1 in
  snd r = None /\
  settlements (fst r) = [(0, inl (VObj [("result"%string, VStr "done")]))] /\
  map Queued.busy (Queued.pool (fst r)) = [false].
Proof.
  intros s s1 r.
  destruct (@queued_run_then_message_round_trip
              one_queued_worker s (VStr "a") (VStr "1") 10%Z (VStr "done") 25%Z 0
              (idle_item 0) "Worker-1"%string
              (@NoDup_cons nat 0 [] (fun H : In 0 [] => H) (@NoDup_nil nat))
              eq_refl eq_refl eq_refl eq_refl eq_refl)
    as (R & _ & _ & S & P & _).
  split; [exact R|]. split; [exact S | exact (f_equal (map Queued.busy) P)].
Defined.

(** ** No task is lost, in the queued class *)

Lemma In_update_keep {A : Type} (i : nat) (f : A -> A) (l : list A) (y : A) :
  In y l -> In y (update i f l) \/ nth_error l i = Some y.
Proof.
  revert i. induction l as [|x l IH]; intros [|i]; simpl; try contradiction.
  - intros [->|H]; [right; reflexivity|left; right; exact H].
  - intros [->|H]; [left; left; reflexivity|].
    destruct (IH i H) as [H'|H']; [left; right; exact H'|right; exact H'].
Qed.

Lemma Forall_update {A : Type} (P : A -> Prop) (i : nat) (f : A -> A) (l : list A) :
  Forall P l -> (forall x, nth_error l i = Some x -> P (f x)) ->
  Forall P (update i f l).
Proof.
  revert i. induction l as [|x l IH]; intros [|i] H Hf; simpl; [constructor..| |].
  - inversion H; subst. constructor; [apply Hf; reflexivity|assumption].
  - inversion H; subst. constructor; [assumption|]. apply IH; [assumption|exact Hf].
Qed.

Lemma queued_settled_mono (p : nat) (s s' : Queued.State) (t : list Queued.Effect) :
  Queued.trace s' = Queued.trace s ++ t ->
  Queued.settled p s = true -> Queued.settled p s' = true.
Proof.
  unfold Queued.settled. intros -> H. rewrite existsb_app, H. reflexivity.
Qed.

(** What [release] does to the item at index [i], whatever it holds. *)
Lemma release_accounts (cfg : Queued.Config) (i : nat) result workerId later
      (s : Queued.State) (x : Queued.WorkerItem) :
  nth_error (Queued.pool s) i = Some x ->
  let s' := Queued.release cfg i result workerId later s in
  (exists x', Queued.pool s' = update i (fun _ => x') (Queued.pool s) /\
              Queued.busy x' = false /\ Queued.resolve x' = None) /\
  Queued.taskQueue s' = Queued.taskQueue s /\
  Queued.promises s' = Queued.promises s /\
  (exists t, Queued.trace s' = Queued.trace s ++ t) /\
  (forall p, Queued.resolve x = Some p -> Queued.settled p s' = true).
Proof.
  intros Hnth. unfold Queued.release, Queued.log. cbv zeta.
  destruct (Queued.returnLog cfg);
    cbn [Queued.pool Queued.set_pool Queued.emit];
    rewrite (update_nth _ _ _ _ Hnth);
    cbn [Queued.resolve Queued.startTime Queued.taskId];
    destruct (Queued.resolve x) as [p|] eqn:Hres;
    unfold Queued.call_resolve;
    rewrite ?queued_settled_emit_log, ?queued_settled_set_pool,
      ?queued_settled_emit_log;
    try destruct (Queued.settled p s) eqn:Hset;
    cbn [Queued.pool Queued.set_pool Queued.emit Queued.taskQueue Queued.trace
         Queued.promises];
    rewrite ?update_update.
  all: split;
    [ eexists; split;
      [ apply (@update_ext_at _ i _ _ _ x Hnth); reflexivity
      | cbn [Queued.busy Queued.resolve]; rewrite ?Hres; split; reflexivity ] |].
  all: split; [reflexivity|]. all: split; [reflexivity|].
  all: split; [first [ rewrite <- ?app_assoc; eexists; reflexivity
                     | exists []; now rewrite app_nil_r ]|].
  all: intros q [= <-] || intros q ?; try discriminate.
  all: unfold Queued.settled in *;
    cbn [Queued.trace Queued.emit Queued.set_pool];
    rewrite ?existsb_app; cbn [existsb]; rewrite ?Nat.eqb_refl, ?Hset;
    rewrite ?orb_true_r, ?orb_true_l; reflexivity.
Qed.

Lemma accounted_trace (s s' : Queued.State) (t : list Queued.Effect) :
  Queued.pool s' = Queued.pool s -> Queued.taskQueue s' = Queued.taskQueue s ->
  Queued.promises s' = Queued.promises s ->
  Queued.trace s' = Queued.trace s ++ t ->
  accounted s -> accounted s'.
Proof.
  intros P Q Pr T [A I]. unfold accounted, in_queue, held. rewrite P, Q, Pr.
  split; [|exact I].
  intros p Hp. destruct (A p Hp) as [H|[H|H]]; [left|right; left|right; right]; auto.
  exact (@queued_settled_mono p s s' t T H).
Qed.

Lemma accounted_assignTasks (cfg : Queued.Config) now post (s : Queued.State) :
  accounted s -> accounted (fst (Queued.assignTasks cfg now post s)).
Proof.
  intros [A I].
  destruct (assignTasks_spec cfg now post s) as [[E _]|H]; cbv zeta in *.
  - rewrite E. split; assumption.
  - destruct H as (i & it & e & rest & logs & F & N & B & Q & _ & P & Q' & _ & _ & _
                   & Pr & L & T).
    unfold accounted, in_queue, held. rewrite P, Q', Pr. split.
    + intros p Hp. destruct (A p Hp) as [H|[H|H]].
      * left. exact (@queued_settled_mono p s _ _ T H).
      * unfold in_queue in H. rewrite Q in H. simpl in H. destruct H as [<-|H].
        -- right. right. exists (assigned e now it). repeat split.
           eapply nth_error_In. apply update_nth_error. exact N.
        -- right. left. exact H.
      * right. right. destruct H as (y & Hy & By & Ry).
        exists y. repeat split; try assumption.
        destruct (In_update_keep i (assigned e now) _ _ Hy) as [H|H]; [exact H|].
        congruence.
    + apply Forall_update; [exact I|]. intros x _. discriminate.
Qed.

Lemma accounted_release (cfg : Queued.Config) (i : nat) result workerId later
      (s : Queued.State) (x : Queued.WorkerItem) :
  nth_error (Queued.pool s) i = Some x ->
  accounted s -> accounted (Queued.release cfg i result workerId later s).
Proof.
  intros N [A I].
  destruct (@release_accounts cfg i result workerId later s x N)
    as ((x' & P & Bx & Rx) & Q & Pr & (t & T) & S).
  cbv zeta in *. unfold accounted, in_queue, held. rewrite P, Q, Pr. split.
  - intros p Hp. destruct (A p Hp) as [H|[H|H]].
    + left. exact (@queued_settled_mono p s _ _ T H).
    + right. left. exact H.
    + destruct H as (y & Hy & By & Ry).
      destruct (In_update_keep i (fun _ => x') _ _ Hy) as [H|H].
      * right. right. exists y. repeat split; assumption.
      * left. apply S. congruence.
  - apply Forall_update; [exact I|]. intros _ _ _. exact Rx.
Qed.

Lemma accounted_run (cfg : Queued.Config) task taskId now post (s : Queued.State) :
  accounted s -> accounted (Queued.run cfg task taskId now post s).
Proof.
  intros [A I]. unfold Queued.run. cbv zeta.
  match goal with |- context [Queued.assignTasks cfg now post ?t] => set (s0 := t) end.
  assert (A0 : accounted s0).
  { unfold accounted, in_queue, held, s0. simpl. split; [|exact I].
    intros p Hp. rewrite map_app, in_app_iff. simpl.
    destruct (Nat.eq_dec p (Queued.promises s)) as [->|Hne]; [right; left; auto|].
    destruct (A p ltac:(lia)) as [H|[H|H]]; auto. }
  pose proof (@accounted_assignTasks cfg now post s0 A0) as A1.
  destruct (Queued.assignTasks cfg now post s0) as [s1 [err|]]; simpl in A1;
    [|exact A1].
  destruct (call_reject_frame (Queued.promises s) err s1)
    as (P & Q & _ & _ & _ & Pr & t & T & _).
  exact (@accounted_trace s1 _ t P Q Pr T A1).
Qed.

Lemma accounted_on_online (cfg : Queued.Config) w (s : Queued.State) :
  accounted s -> accounted (Queued.on_online cfg w s).
Proof.
  intros [A I]. unfold Queued.on_online.
  destruct (Queued.building s) as [b|]; [|split; assumption].
  destruct (Nat.eqb (Queued.b_worker b) w); [|split; assumption].
  match goal with |- accounted (Queued.buildPool_from cfg _ ?t) => set (s0 := t) end.
  assert (A0 : accounted s0).
  { unfold accounted, in_queue, held, s0. simpl. split.
    - intros p Hp. destruct (A p Hp) as [H|[H|(y & Hy & By & Ry)]]; auto.
      right. right. exists y. rewrite in_app_iff. auto.
    - apply Forall_app. split; [exact I|]. constructor; [reflexivity|constructor]. }
  unfold Queued.buildPool_from, Queued.addWorkerToPool, Queued.log.
  destruct (_ <? Queued.poolSize cfg); [|exact A0].
  cbv zeta. cbn [Queued.workersMade].
  destruct (Queued.newWorker cfg (Queued.workersMade s0));
    [|destruct (Queued.returnLog cfg)];
    (eapply accounted_trace; [| | | |exact A0]);
    cbn [Queued.pool Queued.taskQueue Queued.promises Queued.trace Queued.emit];
    try reflexivity; rewrite <- ?app_assoc; try reflexivity.
Qed.

Lemma accounted_step (cfg : Queued.Config) (s : Queued.State) (e : Queued.Event) :
  is_exit e = false -> accounted s -> accounted (fst (Queued.step cfg s e)).
Proof.
  intros He A.
  destruct e as [task taskId now post|w|w result now post|w error|]; simpl;
    try discriminate.
  - apply accounted_run. exact A.
  - apply accounted_on_online. exact A.
  - unfold Queued.on_message.
    destruct (find _ (Queued.created s)) as [[w' workerId]|]; [|exact A].
    unfold Queued.handleWorkerResult.
    destruct (find_index _ (Queued.pool s)) as [i|] eqn:F; [|exact A].
    destruct (find_index_some _ _ F) as (x & N & _).
    apply accounted_assignTasks. exact (@accounted_release cfg i result workerId now s x N A).
  - unfold Queued.on_error.
    destruct (find _ (Queued.created s)) as [[w' workerId]|]; [|exact A].
    eapply accounted_trace; [| | | |exact A]; reflexivity.
Qed.

(** X21: no task is lost.  As long as the pool is not shut down, every
    promise a call of [run] has returned is, in every state, settled, or in
    the queue, or held by a worker marked busy; and a worker that is idle
    holds none.  This holds also in the state an exception leaves behind. *)
Theorem every_task_is_accounted_for (cfg : Queued.Config) (es : list Queued.Event) :
  forallb (fun e => negb (is_exit e)) es = true ->
  accounted (fst (Queued.steps cfg (Queued.constructor cfg) es)).
Proof.
  intros Hes.
  assert (A0 : accounted (Queued.constructor cfg)).
  { unfold Queued.constructor, Queued.buildPool_from, Queued.addWorkerToPool, Queued.log.
    destruct (0 <? Queued.poolSize cfg); simpl;
      [destruct (Queued.newWorker cfg 0); [|destruct (Queued.returnLog cfg)]|];
      (split; [intros p Hp; simpl in Hp; lia|constructor]). }
  revert A0 Hes. generalize (Queued.constructor cfg).
  induction es as [|e es IH]; intros s A Hes; simpl; [exact A|].
  simpl in Hes. apply andb_true_iff in Hes. destruct Hes as [He Hes].
  apply negb_true_iff in He.
  pose proof (@accounted_step cfg s e He A) as A1.
  destruct (Queued.step cfg s e) as [s1 [err|]]; simpl in A1; [exact A1|].
  exact (IH s1 A1 Hes).
Qed.

Lemma every_task_is_accounted_for_witness :
  accounted (fst (Queued.steps one_queued_worker (Queued.constructor one_queued_worker)
                               [Queued.Online 0;
                                Queued.Run (VStr "a") (VStr "1") 0 None;
                                Queued.Run (VStr "b") (VStr "2") 1 None;
                                Queued.WorkerError 0 "boom"])).
Proof.
  exact (@every_task_is_accounted_for one_queued_worker
           [Queued.Online 0; Queued.Run (VStr "a") (VStr "1") 0 None;
            Queued.Run (VStr "b") (VStr "2") 1 None; Queued.WorkerError 0 "boom"]
           eq_refl).
Defined.

(** * The round-robin class of src/unnamed/part_001 *)

(** ** [nextWorker] *)

Lemma succ_mod (a n : nat) :
  0 < n -> S a mod n = if n <=? S (a mod n) then 0 else S (a mod n).
Proof.
  intros Hn.
  pose proof (Nat.div_mod_eq a n) as E.
  pose proof (Nat.mod_upper_bound a n ltac:(lia)) as B.
  destruct (n <=? S (a mod n)) eqn:L.
  - apply Nat.leb_le in L. symmetry.
    apply (Nat.mod_unique (S a) n (S (a / n)) 0); lia.
  - apply Nat.leb_gt in L. symmetry.
    apply (Nat.mod_unique (S a) n (a / n) (S (a mod n))); lia.
Qed.

Lemma nextWorker_iter (k : nat) (s : RoundRobin.State) :
  0 < length (RoundRobin.pool s) ->
  RoundRobin.workerIndex s < length (RoundRobin.pool s) ->
  RoundRobin.pool (Nat.iter k RoundRobin.nextWorker s) = RoundRobin.pool s /\
  RoundRobin.workerIndex (Nat.iter k RoundRobin.nextWorker s)
  = (RoundRobin.workerIndex s + k) mod length (RoundRobin.pool s).
Proof.
  intros Hn Hi. induction k as [|k [IHp IHi]].
  - simpl. rewrite Nat.add_0_r, Nat.mod_small by exact Hi. auto.
  - simpl Nat.iter. unfold RoundRobin.nextWorker at 1 3.
    cbn [RoundRobin.pool RoundRobin.workerIndex RoundRobin.set_workerIndex].
    rewrite IHp, IHi. split; [reflexivity|].
    rewrite Nat.add_succ_r. symmetry. apply succ_mod. exact Hn.
Qed.

(** X22: [nextWorker] goes round the pool: from any index in the pool, as
    many calls as the pool has workers lead back to the index it started
    from, passing every worker on the way, and the index never leaves the
    pool. *)
Theorem nextWorker_visits_every_worker (s : RoundRobin.State) :
  RoundRobin.workerIndex s < length (RoundRobin.pool s) ->
  let n := length (RoundRobin.pool s) in
  RoundRobin.workerIndex (Nat.iter n RoundRobin.nextWorker s) = RoundRobin.workerIndex s /\
  (forall k, RoundRobin.workerIndex (Nat.iter k RoundRobin.nextWorker s) < n) /\
  forall j, j < n ->
            exists k, k < n /\
                      RoundRobin.workerIndex (Nat.iter k RoundRobin.nextWorker s) = j.
Proof.
  intros Hi n. assert (Hn : 0 < n) by (unfold n; lia).
  split; [|split].
  - destruct (nextWorker_iter n s Hn Hi) as [_ ->]. fold n.
    rewrite <- (Nat.mul_1_l n) at 1. rewrite Nat.Div0.mod_add.
    apply Nat.mod_small. exact Hi.
  - intros k. destruct (nextWorker_iter k s Hn Hi) as [_ ->]. fold n.
    apply Nat.mod_upper_bound. lia.
  - intros j Hj. exists ((j + n - RoundRobin.workerIndex s) mod n). split.
    + apply Nat.mod_upper_bound. lia.
    + destruct (nextWorker_iter ((j + n - RoundRobin.workerIndex s) mod n) s Hn Hi)
        as [_ ->]. fold n.
      rewrite Nat.Div0.add_mod_idemp_r.
      replace (RoundRobin.workerIndex s + (j + n - RoundRobin.workerIndex s))
        with (j + 1 * n) by lia.
      rewrite Nat.Div0.mod_add. apply Nat.mod_small. exact Hj.
Qed.

Lemma nextWorker_visits_every_worker_witness :
  let s := RoundRobin.set_pool
             [{| RoundRobin.id := "-1-"; RoundRobin.worker := 0 |};
              {| RoundRobin.id := "-2-"; RoundRobin.worker := 1 |};
              {| RoundRobin.id := "-3-"; RoundRobin.worker := 2 |}]
             (RoundRobin.set_workerIndex 1 RoundRobin.empty) in
  RoundRobin.workerIndex (Nat.iter 3 RoundRobin.nextWorker s) = 1.
Proof.
  intros s.
  exact (proj1 (@nextWorker_visits_every_worker s (@le_S 2 2 (le_n 2)))).
Defined.

(** ** The worker a call takes *)

Lemma rr_inv_same (s s' : RoundRobin.State) :
  RoundRobin.pool s' = RoundRobin.pool s ->
  RoundRobin.workerIndex s' = RoundRobin.workerIndex s ->
  RoundRobin.trace s' = RoundRobin.trace s ->
  in_range s /\ never_undefined s -> in_range s' /\ never_undefined s'.
Proof.
  unfold in_range, never_undefined. intros -> -> ->. auto.
Qed.

Lemma rr_inv_emit (e : RoundRobin.Effect) (s : RoundRobin.State) :
  match e with RoundRobin.Reject _ (TypeError _) => False | _ => True end ->
  in_range s /\ never_undefined s ->
  in_range (RoundRobin.emit e s) /\ never_undefined (RoundRobin.emit e s).
Proof.
  intros He [R N]. split; [exact R|].
  unfold never_undefined. simpl. apply Forall_app. split; [exact N|].
  constructor; [exact He|constructor].
Qed.

Lemma rr_inv_select (cfg : RoundRobin.Config) call task freemem (s : RoundRobin.State) :
  0 < length (RoundRobin.pool s) ->
  in_range s /\ never_undefined s ->
  in_range (RoundRobin.select cfg call task freemem s)
  /\ never_undefined (RoundRobin.select cfg call task freemem s).
Proof.
  intros Hn [R N]. unfold RoundRobin.select.
  destruct (nth_error (RoundRobin.pool s) (RoundRobin.workerIndex s)) eqn:E.
  - apply (@rr_inv_same s); auto.
  - exfalso. apply nth_error_None in E. destruct R as [R|R]; lia.
Qed.

Lemma rr_inv_rejected waiter (err : exn) (s : RoundRobin.State) :
  match err with TypeError _ => False | _ => True end ->
  in_range s /\ never_undefined s ->
  in_range (RoundRobin.rejected waiter err s)
  /\ never_undefined (RoundRobin.rejected waiter err s).
Proof.
  intros He H. unfold RoundRobin.rejected.
  destruct waiter; apply rr_inv_emit; auto.
Qed.

Lemma rr_inv_addWorkerToPool (cfg : RoundRobin.Config) waiter (s : RoundRobin.State) :
  in_range s /\ never_undefined s ->
  in_range (RoundRobin.addWorkerToPool cfg waiter s)
  /\ never_undefined (RoundRobin.addWorkerToPool cfg waiter s).
Proof.
  intros H. unfold RoundRobin.addWorkerToPool. cbv zeta.
  destruct (RoundRobin.newWorker cfg (RoundRobin.workersMade s)).
  - apply rr_inv_rejected; [exact I|]. apply (@rr_inv_same s); auto.
  - match goal with
    | |- in_range (RoundRobin.set_creations ?l ?t) /\ _ =>
        apply (@rr_inv_same t); try reflexivity
    end.
    apply rr_inv_emit; [exact I|]. apply (@rr_inv_same s); auto.
Qed.

Lemma rr_inv_buildPool_from (cfg : RoundRobin.Config) (i : nat) (s : RoundRobin.State) :
  in_range s /\ never_undefined s ->
  in_range (RoundRobin.buildPool_from cfg i s)
  /\ never_undefined (RoundRobin.buildPool_from cfg i s).
Proof.
  intros H. unfold RoundRobin.buildPool_from.
  destruct (i <? RoundRobin.poolSize cfg); [apply rr_inv_addWorkerToPool|]; exact H.
Qed.

Lemma rr_inv_executeWorker k post (s : RoundRobin.State) :
  in_range s /\ never_undefined s ->
  in_range (RoundRobin.executeWorker k post s)
  /\ never_undefined (RoundRobin.executeWorker k post s).
Proof.
  intros H. unfold RoundRobin.executeWorker. destruct post as [message|].
  - apply rr_inv_emit; [exact I|]. apply rr_inv_emit; [exact I|].
    apply (@rr_inv_same s); auto.
  - apply rr_inv_emit; [exact I|]. apply (@rr_inv_same s); auto.
Qed.

Lemma rr_inv_step (cfg : RoundRobin.Config) (s : RoundRobin.State)
      (e : RoundRobin.Event) :
  rr_is_exit e = false ->
  in_range s /\ never_undefined s ->
  in_range (RoundRobin.step cfg s e) /\ never_undefined (RoundRobin.step cfg s e).
Proof.
  intros He H.
  destruct e as [task freemem|call post|w data|call rss heapUsed|w freemem|w error|];
    simpl; try discriminate.
  - unfold RoundRobin.run. cbv zeta.
    cbn [RoundRobin.pool RoundRobin.set_calls].
    destruct (Nat.eqb (length (RoundRobin.pool s)) 0) eqn:E.
    + apply rr_inv_addWorkerToPool. apply (@rr_inv_same s); auto.
    + apply Nat.eqb_neq in E. apply rr_inv_select; [simpl; lia|].
      apply (@rr_inv_same s); auto.
  - unfold RoundRobin.continue.
    destruct (find _ (RoundRobin.suspended s)) as [k|]; [|exact H].
    destruct (RoundRobin.k_stage k); try exact H.
    + destruct (5 <=? _).
      * match goal with
        | |- in_range (RoundRobin.replace_call _ ?t) /\ _ =>
            apply (@rr_inv_same t); try reflexivity
        end.
        destruct H as [R N]. split; [|exact N].
        unfold in_range, RoundRobin.nextWorker. simpl.
        destruct (length (RoundRobin.pool s) <=? S (RoundRobin.workerIndex s)) eqn:L;
          [right; reflexivity|left; apply Nat.leb_gt in L; exact L].
      * apply rr_inv_executeWorker. exact H.
    + apply rr_inv_executeWorker. exact H.
  - unfold RoundRobin.on_message. cbv zeta.
    match goal with
    | |- in_range (RoundRobin.set_suspended _ ?t) /\ _ =>
        apply (@rr_inv_same t); try reflexivity
    end.
    destruct (find _ (RoundRobin.suspended s)) as [k|]; [|exact H].
    destruct (RoundRobin.maxListener <=? _); [|exact H].
    apply rr_inv_emit; [exact I|exact H].
  - unfold RoundRobin.finish.
    destruct (find _ (RoundRobin.suspended s)) as [k|]; [|exact H].
    destruct (RoundRobin.k_stage k); try exact H.
    apply rr_inv_emit; [exact I|]. apply (@rr_inv_same s); auto.
  - unfold RoundRobin.on_online.
    destruct (find _ (RoundRobin.creations s)) as [c|]; [|exact H].
    destruct (RoundRobin.c_online c); [|exact H]. cbv zeta.
    match goal with
    | |- context [RoundRobin.update_creation w ?f ?t] =>
        set (s1 := RoundRobin.update_creation w f t)
    end.
    assert (H1 : in_range s1 /\ never_undefined s1).
    { destruct H as [R N]. split; [|exact N].
      unfold in_range, s1. simpl. rewrite length_app. simpl.
      destruct R as [R|R]; [left; lia|right; exact R]. }
    assert (L1 : 0 < length (RoundRobin.pool s1))
      by (unfold s1; simpl; rewrite length_app; simpl; lia).
    destruct (RoundRobin.c_settled c); [exact H1|].
    unfold RoundRobin.resolved. destruct (RoundRobin.c_waiter c).
    + apply rr_inv_buildPool_from. exact H1.
    + apply rr_inv_select; assumption.
  - unfold RoundRobin.on_error.
    destruct (find _ (RoundRobin.creations s)) as [c|]; [|exact H].
    destruct (RoundRobin.c_settled c); [exact H|].
    apply rr_inv_rejected; [exact I|]. apply (@rr_inv_same s); auto.
Qed.

(** X23: as long as the pool is not shut down, [workerIndex] points into
    the pool whenever the pool holds a worker, so that
    [this.pool[this.workerIndex]] is a worker at every call of [run]: no
    call is rejected for destructuring undefined. *)
Theorem worker_index_stays_in_pool (cfg : RoundRobin.Config) (es : list RoundRobin.Event) :
  forallb (fun e => negb (rr_is_exit e)) es = true ->
  let s := RoundRobin.steps cfg (RoundRobin.constructor cfg) es in
  in_range s /\ never_undefined s.
Proof.
  intros Hes s. subst s.
  assert (H0 : in_range (RoundRobin.constructor cfg)
               /\ never_undefined (RoundRobin.constructor cfg)).
  { apply rr_inv_buildPool_from. split; [right; reflexivity|constructor]. }
  revert H0 Hes. generalize (RoundRobin.constructor cfg).
  induction es as [|e es IH]; intros s H Hes; simpl; [exact H|].
  simpl in Hes. apply andb_true_iff in Hes. destruct Hes as [He Hes].
  apply negb_true_iff in He.
  apply IH; [|exact Hes]. apply rr_inv_step; assumption.
Qed.

Lemma worker_index_stays_in_pool_witness :
  in_range (RoundRobin.steps two_round_robin (RoundRobin.constructor two_round_robin)
              [RoundRobin.Online 0 1000; RoundRobin.Run VNull 1000;
               RoundRobin.Continue 0 None]).
Proof.
  exact (proj1 (@worker_index_stays_in_pool two_round_robin
                  [RoundRobin.Online 0 1000; RoundRobin.Run VNull 1000;
                   RoundRobin.Continue 0 None] eq_refl)).
Defined.

(** ** Calls that share a worker *)

Arguments RoundRobin.createLog : simpl never.
Arguments RoundRobin.checkMemCapacity : simpl never.

(** X24: two calls of [run] made before the worker at [workerIndex] has
    answered are both posted to that worker, and the first answer of the
    worker resolves both: the second call gets the result of the first
    call's task. *)
Theorem concurrent_calls_get_the_first_answer
        (cfg : RoundRobin.Config) (s : RoundRobin.State) (wo : RoundRobin.WorkerObject)
        t1 t2 f1 f2 data r1 h1 r2 h2 :
  RoundRobin.suspended s = [] ->
  nth_error (RoundRobin.pool s) (RoundRobin.workerIndex s) = Some wo ->
  let c := RoundRobin.calls s in
  let s' := RoundRobin.steps cfg s
              [RoundRobin.Run t1 f1; RoundRobin.Run t2 f2;
               RoundRobin.Continue c None; RoundRobin.Continue (S c) None;
               RoundRobin.Message (RoundRobin.worker wo) data;
               RoundRobin.Finish c r1 h1; RoundRobin.Finish (S c) r2 h2] in
  rr_posts s' = rr_posts s ++ [(RoundRobin.worker wo, t1); (RoundRobin.worker wo, t2)] /\
  exists v1 v2,
    rr_settlements s' = rr_settlements s ++ [(c, v1); (S c, v2)] /\
    result_of v1 = Some data /\ result_of v2 = Some data.
Proof.
  intros Hs Hw c s'. subst s' c.
  assert (Hlen : Nat.eqb (length (RoundRobin.pool s)) 0 = false).
  { apply Nat.eqb_neq. intros E. apply length_zero_iff_nil in E.
    rewrite E in Hw. destruct (RoundRobin.workerIndex s); discriminate. }
  assert (N1 : Nat.eqb (RoundRobin.calls s) (S (RoundRobin.calls s)) = false)
    by (apply Nat.eqb_neq; lia).
  assert (N2 : Nat.eqb (S (RoundRobin.calls s)) (RoundRobin.calls s) = false)
    by (apply Nat.eqb_neq; lia).
  destruct s as [pool idx made creations susp calls trace].
  cbn [RoundRobin.pool RoundRobin.workerIndex RoundRobin.suspended RoundRobin.calls] in *.
  subst susp.
  pose (St := fun L n T =>
                {| RoundRobin.pool := pool; RoundRobin.workerIndex := idx;
                   RoundRobin.workersMade := made; RoundRobin.creations := creations;
                   RoundRobin.suspended := L; RoundRobin.calls := n;
                   RoundRobin.trace := T |}).
  pose (K := fun c t f st =>
               {| RoundRobin.k_call := c; RoundRobin.k_task := t;
                  RoundRobin.k_id := RoundRobin.id wo;
                  RoundRobin.k_worker := RoundRobin.worker wo;
                  RoundRobin.k_freeMemPercentage := RoundRobin.checkMemCapacity cfg f;
                  RoundRobin.k_stage := st |}).
  unfold RoundRobin.steps. cbn [fold_left RoundRobin.step].
  change {| RoundRobin.pool := pool; RoundRobin.workerIndex := idx;
            RoundRobin.workersMade := made; RoundRobin.creations := creations;
            RoundRobin.suspended := []; RoundRobin.calls := calls;
            RoundRobin.trace := trace |} with (St [] calls trace).
  assert (E1 : RoundRobin.run cfg t1 f1 (St [] calls trace)
               = St [K calls t1 f1 RoundRobin.AfterMem] (S calls) trace).
  { unfold RoundRobin.run, RoundRobin.select, St, K. cbn -[Nat.eqb].
    rewrite Hlen, Hw. reflexivity. }
  rewrite E1. clear E1.
  assert (E2 : RoundRobin.run cfg t2 f2
                 (St [K calls t1 f1 RoundRobin.AfterMem] (S calls) trace)
               = St [K calls t1 f1 RoundRobin.AfterMem;
                     K (S calls) t2 f2 RoundRobin.AfterMem] (S (S calls)) trace).
  { unfold RoundRobin.run, RoundRobin.select, St, K. cbn -[Nat.eqb].
    rewrite Hlen, Hw. reflexivity. }
  rewrite E2. clear E2.
  assert (E3 : RoundRobin.continue calls None
                 (St [K calls t1 f1 RoundRobin.AfterMem;
                      K (S calls) t2 f2 RoundRobin.AfterMem] (S (S calls)) trace)
               = St [K calls t1 f1 RoundRobin.Executing;
                     K (S calls) t2 f2 RoundRobin.AfterMem] (S (S calls))
                    (trace ++ [RoundRobin.PostMessage (RoundRobin.worker wo) t1])).
  { unfold RoundRobin.continue, RoundRobin.listenerCount, RoundRobin.is_executing,
      RoundRobin.executeWorker, RoundRobin.replace_call, St, K.
    repeat (progress (cbn -[Nat.eqb]; rewrite ?Nat.eqb_refl, ?N1, ?N2, ?andb_false_r)).
    reflexivity. }
  rewrite E3. clear E3.
  assert (E4 : RoundRobin.continue (S calls) None
                 (St [K calls t1 f1 RoundRobin.Executing;
                      K (S calls) t2 f2 RoundRobin.AfterMem] (S (S calls))
                     (trace ++ [RoundRobin.PostMessage (RoundRobin.worker wo) t1]))
               = St [K calls t1 f1 RoundRobin.Executing;
                     K (S calls) t2 f2 RoundRobin.Executing] (S (S calls))
                    ((trace ++ [RoundRobin.PostMessage (RoundRobin.worker wo) t1])
                       ++ [RoundRobin.PostMessage (RoundRobin.worker wo) t2])).
  { unfold RoundRobin.continue, RoundRobin.listenerCount, RoundRobin.is_executing,
      RoundRobin.executeWorker, RoundRobin.replace_call, St, K.
    repeat (progress (cbn -[Nat.eqb]; rewrite ?Nat.eqb_refl, ?N1, ?N2, ?andb_false_r)).
    reflexivity. }
  rewrite E4. clear E4.
  assert (E5 : RoundRobin.on_message (RoundRobin.worker wo) data
                 (St [K calls t1 f1 RoundRobin.Executing;
                      K (S calls) t2 f2 RoundRobin.Executing] (S (S calls))
                     ((trace ++ [RoundRobin.PostMessage (RoundRobin.worker wo) t1])
                        ++ [RoundRobin.PostMessage (RoundRobin.worker wo) t2]))
               = St [K calls t1 f1 (RoundRobin.Resolved data);
                     K (S calls) t2 f2 (RoundRobin.Resolved data)] (S (S calls))
                    ((trace ++ [RoundRobin.PostMessage (RoundRobin.worker wo) t1])
                       ++ [RoundRobin.PostMessage (RoundRobin.worker wo) t2])).
  { unfold RoundRobin.on_message, RoundRobin.listenerCount, RoundRobin.is_executing,
      RoundRobin.maxListener, St, K.
    repeat (progress (cbn -[Nat.eqb]; rewrite ?Nat.eqb_refl, ?N1, ?N2, ?andb_false_r)).
    reflexivity. }
  rewrite E5. clear E5.
  unfold RoundRobin.finish, RoundRobin.remove_call, St, K, rr_posts, rr_settlements.
  repeat (progress (cbn -[Nat.eqb]; rewrite ?Nat.eqb_refl, ?N1, ?N2, ?andb_false_r)).
  rewrite !flat_map_app. cbn -[Nat.eqb]. rewrite ?app_nil_r, <- ?app_assoc.
  split; [reflexivity|].
  eexists _, _. split; [reflexivity|].
  destruct (RoundRobin.returnLog cfg); split; reflexivity.
Qed.

Lemma concurrent_calls_get_the_first_answer_witness :
  let s := RoundRobin.steps two_round_robin (RoundRobin.constructor two_round_robin)
             [RoundRobin.Online 0 1000; RoundRobin.Online 1 1000] in
  let s' := RoundRobin.steps two_round_robin s
              [RoundRobin.Run (VStr "a") 1000; RoundRobin.Run (VStr "b") 1000;
               RoundRobin.Continue 0 None; RoundRobin.Continue 1 None;
               RoundRobin.Message 0 (VStr "answer to a");
               RoundRobin.Finish 0 0 0; RoundRobin.Finish 1 0 0] in
  rr_posts s' = [(0, VStr "a"); (0, VStr "b")] /\
  exists v1 v2,
    rr_settlements s' = [(0, v1); (1, v2)] /\
    result_of v1 = Some (VStr "answer to a") /\
    result_of v2 = Some (VStr "answer to a").
Proof.
  intros s s'.
  exact (@concurrent_calls_get_the_first_answer
           two_round_robin s {| RoundRobin.id := "-1-"; RoundRobin.worker := 0 |}
           (VStr "a") (VStr "b") 1000%Z 1000%Z (VStr "answer to a") 0%Z 0%Z 0%Z 0%Z
           eq_refl eq_refl).
Defined.

(** ** A worker that fails during a task, in the round-robin class *)

Arguments RoundRobin.terminateAllWorkers : simpl never.

Lemma rr_terminateAllWorkers_unfold (s : RoundRobin.State) :
  RoundRobin.terminateAllWorkers s =
  match pop (RoundRobin.pool s) with
  | None => s
  | Some (w, rest) =>
      RoundRobin.terminateAllWorkers
        (RoundRobin.emit (RoundRobin.Terminate (RoundRobin.worker w))
                         (RoundRobin.set_pool rest s))
  end.
Proof.
  funelim (RoundRobin.terminateAllWorkers s); loop_case.
Qed.

Lemma rr_terminateAllWorkers_frame (s : RoundRobin.State) :
  let s' := RoundRobin.terminateAllWorkers s in
  RoundRobin.pool s' = [] /\ RoundRobin.creations s' = RoundRobin.creations s.
Proof.
  remember (length (RoundRobin.pool s)) as n eqn:Hn. revert s Hn.
  induction n as [n IH] using lt_wf_ind. intros s Hn.
  rewrite rr_terminateAllWorkers_unfold.
  destruct (pop (RoundRobin.pool s)) as [[w rest]|] eqn:E.
  - pose proof (pop_length _ E) as L.
    match goal with |- context [RoundRobin.terminateAllWorkers ?t] =>
      destruct (IH (length rest) ltac:(lia) t eq_refl) as (P & C) end.
    simpl in C. split; assumption.
  - apply pop_nil in E. simpl. auto.
Qed.

Lemma find_app_some {A : Type} (f : A -> bool) (l l' : list A) (x : A) :
  find f l = Some x -> find f (l ++ l') = Some x.
Proof.
  induction l as [|y l IH]; simpl; [discriminate|].
  destruct (f y); [auto|exact IH].
Qed.

Lemma find_updated_creation (w w' : nat) (f : RoundRobin.Creation -> RoundRobin.Creation)
      (l : list RoundRobin.Creation) :
  (forall c, RoundRobin.c_worker (f c) = RoundRobin.c_worker c) ->
  find (fun c => Nat.eqb (RoundRobin.c_worker c) w')
       (map (fun c => if Nat.eqb (RoundRobin.c_worker c) w then f c else c) l)
  = option_map (fun c => if Nat.eqb (RoundRobin.c_worker c) w then f c else c)
               (find (fun c => Nat.eqb (RoundRobin.c_worker c) w') l).
Proof.
  intros Hf. induction l as [|c l IH]; simpl; [reflexivity|].
  destruct (Nat.eqb (RoundRobin.c_worker c) w) eqn:E1; rewrite ?Hf;
    destruct (Nat.eqb (RoundRobin.c_worker c) w') eqn:E2; simpl; rewrite ?E1; auto.
Qed.

Lemma pool_created_same (s s' : RoundRobin.State) :
  RoundRobin.pool s' = RoundRobin.pool s ->
  RoundRobin.creations s' = RoundRobin.creations s ->
  pool_created s -> pool_created s'.
Proof. unfold pool_created. intros -> ->. auto. Qed.

Lemma pool_created_more (s s' : RoundRobin.State) l :
  RoundRobin.pool s' = RoundRobin.pool s ->
  RoundRobin.creations s' = RoundRobin.creations s ++ l ->
  pool_created s -> pool_created s'.
Proof.
  unfold pool_created. intros -> -> H wo Hwo.
  destruct (H wo Hwo) as (c & F & S). exists c. split; [|exact S].
  apply find_app_some. exact F.
Qed.

Lemma pool_created_update (w : nat) f (s : RoundRobin.State) :
  (forall c, RoundRobin.c_worker (f c) = RoundRobin.c_worker c) ->
  (forall c, RoundRobin.c_settled c = true -> RoundRobin.c_settled (f c) = true) ->
  pool_created s -> pool_created (RoundRobin.update_creation w f s).
Proof.
  intros Hw Hs H wo Hwo. destruct (H wo Hwo) as (c & F & S).
  unfold RoundRobin.update_creation. cbn [RoundRobin.creations RoundRobin.set_creations].
  rewrite (find_updated_creation w (RoundRobin.worker wo) f _ Hw), F. simpl.
  eexists. split; [reflexivity|].
  destruct (Nat.eqb (RoundRobin.c_worker c) w); auto.
Qed.

Lemma pool_created_rejected waiter err (s : RoundRobin.State) :
  pool_created s -> pool_created (RoundRobin.rejected waiter err s).
Proof.
  intros H. unfold RoundRobin.rejected.
  destruct waiter; apply (@pool_created_same s); auto.
Qed.

Lemma pool_created_addWorkerToPool (cfg : RoundRobin.Config) waiter (s : RoundRobin.State) :
  pool_created s -> pool_created (RoundRobin.addWorkerToPool cfg waiter s).
Proof.
  intros H. unfold RoundRobin.addWorkerToPool. cbv zeta.
  destruct (RoundRobin.newWorker cfg (RoundRobin.workersMade s)).
  - apply pool_created_rejected. apply (@pool_created_same s); auto.
  - eapply (@pool_created_more s); [| |exact H]; reflexivity.
Qed.

Lemma pool_created_select (cfg : RoundRobin.Config) call task freemem
      (s : RoundRobin.State) :
  pool_created s -> pool_created (RoundRobin.select cfg call task freemem s).
Proof.
  intros H. unfold RoundRobin.select.
  destruct (nth_error _ _); apply (@pool_created_same s); auto.
Qed.

Lemma pool_created_executeWorker k post (s : RoundRobin.State) :
  pool_created s -> pool_created (RoundRobin.executeWorker k post s).
Proof.
  intros H. unfold RoundRobin.executeWorker.
  destruct post; apply (@pool_created_same s); auto.
Qed.

Lemma pool_created_step (cfg : RoundRobin.Config) (s : RoundRobin.State)
      (e : RoundRobin.Event) :
  pool_created s -> pool_created (RoundRobin.step cfg s e).
Proof.
  intros H.
  destruct e as [task freemem|call post|w data|call rss heapUsed|w freemem|w error|];
    simpl.
  - unfold RoundRobin.run. cbv zeta.
    destruct (Nat.eqb _ 0);
      [apply pool_created_addWorkerToPool|apply pool_created_select];
      apply (@pool_created_same s); auto.
  - unfold RoundRobin.continue.
    destruct (find _ (RoundRobin.suspended s)) as [k|]; [|exact H].
    destruct (RoundRobin.k_stage k); try exact H.
    + destruct (5 <=? _); [apply (@pool_created_same s); auto|].
      apply pool_created_executeWorker. exact H.
    + apply pool_created_executeWorker. exact H.
  - unfold RoundRobin.on_message. cbv zeta.
    destruct (find _ (RoundRobin.suspended s)) as [k|];
      [destruct (RoundRobin.maxListener <=? _)|]; apply (@pool_created_same s); auto.
  - unfold RoundRobin.finish.
    destruct (find _ (RoundRobin.suspended s)) as [k|]; [|exact H].
    destruct (RoundRobin.k_stage k); exact H.
  - unfold RoundRobin.on_online.
    destruct (find _ (RoundRobin.creations s)) as [c|] eqn:F; [|exact H].
    destruct (RoundRobin.c_online c); [|exact H]. cbv zeta.
    match goal with
    | |- context [RoundRobin.update_creation w ?f ?t] =>
        set (s1 := RoundRobin.update_creation w f t)
    end.
    assert (H1 : pool_created s1).
    { intros wo Hwo. unfold s1 in *.
      cbn [RoundRobin.pool RoundRobin.update_creation RoundRobin.set_creations
           RoundRobin.set_pool RoundRobin.creations] in *.
      rewrite find_updated_creation by reflexivity.
      apply in_app_iff in Hwo. destruct Hwo as [Hwo|[<-|[]]].
      - destruct (H wo Hwo) as (c' & F' & S'). rewrite F'. simpl.
        eexists. split; [reflexivity|].
        destruct (Nat.eqb (RoundRobin.c_worker c') w); auto.
      - cbn [RoundRobin.worker]. rewrite F. simpl.
        destruct (find_some _ _ F) as [_ E]. rewrite E.
        eexists. split; reflexivity. }
    destruct (RoundRobin.c_settled c); [exact H1|].
    unfold RoundRobin.resolved. destruct (RoundRobin.c_waiter c).
    + unfold RoundRobin.buildPool_from.
      destruct (_ <? _); [apply pool_created_addWorkerToPool|]; exact H1.
    + apply pool_created_select. exact H1.
  - unfold RoundRobin.on_error.
    destruct (find _ (RoundRobin.creations s)) as [c|]; [|exact H].
    destruct (RoundRobin.c_settled c); [exact H|].
    apply pool_created_rejected. apply pool_created_update; auto.
  - destruct (rr_terminateAllWorkers_frame s) as [P _]. cbv zeta in P.
    intros wo Hwo. rewrite P in Hwo. contradiction.
Qed.

(** X25: once a worker is in the pool, an 'error' event of that worker
    changes nothing: the only 'error' listener is the one of
    [addWorkerToPool], whose promise is settled by then, and
    [executeWorker] registers none.  The calls that wait for an answer of
    the worker are not settled. *)
Theorem worker_error_after_online_is_ignored
        (cfg : RoundRobin.Config) (es : list RoundRobin.Event)
        (wo : RoundRobin.WorkerObject) (error : string) :
  let s := RoundRobin.steps cfg (RoundRobin.constructor cfg) es in
  In wo (RoundRobin.pool s) ->
  RoundRobin.step cfg s (RoundRobin.WorkerError (RoundRobin.worker wo) error) = s.
Proof.
  intros s Hwo.
  assert (H : pool_created s).
  { subst s. clear Hwo.
    assert (H0 : pool_created (RoundRobin.constructor cfg)).
    { unfold RoundRobin.constructor, RoundRobin.buildPool_from.
      destruct (0 <? _); [apply pool_created_addWorkerToPool|];
        intros wo' [].  }
    revert H0. generalize (RoundRobin.constructor cfg).
    induction es as [|e es IH]; intros s0 H0; simpl; [exact H0|].
    apply IH. apply pool_created_step. exact H0. }
  destruct (H wo Hwo) as (c & F & S).
  simpl. unfold RoundRobin.on_error. rewrite F, S. reflexivity.
Qed.

Lemma worker_error_after_online_is_ignored_witness :
  let s := RoundRobin.steps two_round_robin (RoundRobin.constructor two_round_robin)
             [RoundRobin.Online 0 1000; RoundRobin.Run (VStr "a") 1000;
              RoundRobin.Continue 0 None] in
  RoundRobin.step two_round_robin s (RoundRobin.WorkerError 0 "boom") = s /\
  RoundRobin.listenerCount 0 s = 1 /\ rr_settlements s = [].
Proof.
  intros s. split; [|split; reflexivity].
  exact (@worker_error_after_online_is_ignored
           two_round_robin
           [RoundRobin.Online 0 1000; RoundRobin.Run (VStr "a") 1000;
            RoundRobin.Continue 0 None]
           {| RoundRobin.id := "-1-"; RoundRobin.worker := 0 |} "boom"%string
           (or_introl eq_refl)).
Defined.

(** ** Calls made before the first worker is online *)

Lemma find_in_numbered (P : nat -> RoundRobin.Creation -> Prop)
      (a m p : nat) (l : list RoundRobin.Creation) :
  Forall2 (fun j c => RoundRobin.c_worker c = j /\ P j c) (seq a m) l ->
  a <= p < a + m ->
  exists c, find (fun c => Nat.eqb (RoundRobin.c_worker c) p) l = Some c /\
            RoundRobin.c_worker c = p /\ P p c.
Proof.
  revert a l. induction m as [|m IH]; intros a l H Hp; [lia|].
  simpl in H. inversion H as [|j c js cs [Hw HP] Hrest]; subst. simpl.
  destruct (Nat.eqb (RoundRobin.c_worker c) p) eqn:E.
  - apply Nat.eqb_eq in E. exists c. rewrite <- E. auto.
  - apply Nat.eqb_neq in E. apply (IH (S (RoundRobin.c_worker c)) cs Hrest). lia.
Qed.

Lemma Forall2_numbered_update (P Q : nat -> RoundRobin.Creation -> Prop)
      (f : RoundRobin.Creation -> RoundRobin.Creation)
      (a m p : nat) (l : list RoundRobin.Creation) :
  Forall2 (fun j c => RoundRobin.c_worker c = j /\ P j c) (seq a m) l ->
  (forall c, RoundRobin.c_worker (f c) = RoundRobin.c_worker c) ->
  (forall c, P p c -> Q p (f c)) ->
  (forall j c, j <> p -> P j c -> Q j c) ->
  Forall2 (fun j c => RoundRobin.c_worker c = j /\ Q j c) (seq a m)
          (map (fun c => if Nat.eqb (RoundRobin.c_worker c) p then f c else c) l).
Proof.
  intros H Hf Hp Hq. revert a l H. induction m as [|m IH]; intros a l H.
  - inversion H. constructor.
  - simpl in H. inversion H as [|j c js cs [Hw HP] Hrest]; subst. simpl.
    constructor; [|apply IH; exact Hrest].
    destruct (Nat.eqb (RoundRobin.c_worker c) p) eqn:E.
    + apply Nat.eqb_eq in E. rewrite Hf. split; [reflexivity|].
      rewrite E in *. apply Hp. exact HP.
    + apply Nat.eqb_neq in E. split; [reflexivity|]. apply Hq; assumption.
Qed.

Lemma rr_steps_app (cfg : RoundRobin.Config) (s : RoundRobin.State)
      (es fs : list RoundRobin.Event) :
  RoundRobin.steps cfg s (es ++ fs)
  = RoundRobin.steps cfg (RoundRobin.steps cfg s es) fs.
Proof. unfold RoundRobin.steps. apply fold_left_app. Qed.

Lemma early_runs (cfg : RoundRobin.Config) (k : nat) task freemem :
  0 < RoundRobin.poolSize cfg ->
  (forall w, RoundRobin.newWorker cfg w = None) ->
  forall i, i <= k ->
    let s := RoundRobin.steps cfg (RoundRobin.constructor cfg)
                              (repeat (RoundRobin.Run task freemem) i) in
    RoundRobin.pool s = [] /\
    RoundRobin.workersMade s = i + 1 /\
    Forall2 (fun j c => RoundRobin.c_worker c = j /\ early_waits k j c /\
                        RoundRobin.c_online c = true /\
                        RoundRobin.c_settled c = false)
            (seq 0 (i + 1)) (RoundRobin.creations s).
Proof.
  intros Hn Hnew. induction i as [|i IH]; intros Hi; cbv zeta.
  - simpl. unfold RoundRobin.constructor, RoundRobin.buildPool_from.
    assert (E : (0 <? RoundRobin.poolSize cfg) = true) by (apply Nat.ltb_lt; exact Hn).
    rewrite E. unfold RoundRobin.addWorkerToPool. simpl. rewrite Hnew. simpl.
    repeat split. constructor; [|constructor].
    repeat split. unfold early_waits. simpl. left. auto.
  - replace (repeat (RoundRobin.Run task freemem) (S i))
      with (repeat (RoundRobin.Run task freemem) i ++ [RoundRobin.Run task freemem])
      by (symmetry; apply repeat_cons).
    rewrite rr_steps_app.
    destruct (IH ltac:(lia)) as (P & W & F). cbv zeta in P, W, F.
    set (s := RoundRobin.steps cfg (RoundRobin.constructor cfg)
                               (repeat (RoundRobin.Run task freemem) i)) in *.
    unfold RoundRobin.steps at 1 2 3. cbn [fold_left RoundRobin.step].
    unfold RoundRobin.run, RoundRobin.addWorkerToPool. cbv zeta.
    cbn [RoundRobin.pool RoundRobin.set_calls RoundRobin.workersMade
         RoundRobin.set_workersMade].
    rewrite P, Hnew. cbn [length Nat.eqb].
    cbn [RoundRobin.pool RoundRobin.workersMade RoundRobin.creations
         RoundRobin.set_creations RoundRobin.emit RoundRobin.set_workersMade
         RoundRobin.set_calls].
    rewrite P, W. split; [reflexivity|]. split; [lia|].
    replace (S i + 1) with (S (i + 1)) by lia. rewrite seq_S.
    apply Forall2_app; [exact F|]. constructor; [|constructor].
    cbn [RoundRobin.c_worker RoundRobin.c_online RoundRobin.c_settled].
    repeat split. unfold early_waits. cbn [RoundRobin.c_waiter]. lia. lia.
Qed.

Lemma early_made_gt (cfg : RoundRobin.Config) (k p : nat) :
  p < k + RoundRobin.poolSize cfg -> p < early_made cfg k p.
Proof.
  unfold early_made. destruct (Nat.eqb p 0) eqn:E.
  - apply Nat.eqb_eq in E. lia.
  - lia.
Qed.

Lemma early_online (cfg : RoundRobin.Config) (k p : nat) freemem (s : RoundRobin.State) :
  0 < RoundRobin.poolSize cfg ->
  (forall w, RoundRobin.newWorker cfg w = None) ->
  early cfg k p s -> p < early_made cfg k p ->
  early cfg k (S p) (RoundRobin.on_online cfg p freemem s).
Proof.
  intros Hn Hnew (L & W & F) Hp.
  destruct (@find_in_numbered
              (fun j c => early_waits k j c /\
                          RoundRobin.c_online c = negb (j <? p) /\
                          RoundRobin.c_settled c = (j <? p))
              0 (early_made cfg k p) p _ F ltac:(lia))
    as (c & Fc & Wc & Ec & Oc & Sc).
  rewrite Nat.ltb_irrefl in Oc, Sc. simpl in Oc.
  unfold RoundRobin.on_online. rewrite Fc, Oc, Sc. cbv zeta.
  match goal with
  | |- context [RoundRobin.update_creation p ?f ?t] =>
      set (s1 := RoundRobin.update_creation p f t)
  end.
  assert (L1 : length (RoundRobin.pool s1) = S p)
    by (unfold s1; simpl; rewrite length_app, L; simpl; lia).
  assert (W1 : RoundRobin.workersMade s1 = early_made cfg k p) by exact W.
  assert (F1 : Forall2 (fun j c => RoundRobin.c_worker c = j /\ early_waits k j c /\
                                   RoundRobin.c_online c = negb (j <? S p) /\
                                   RoundRobin.c_settled c = (j <? S p))
                       (seq 0 (early_made cfg k p)) (RoundRobin.creations s1)).
  { unfold s1, RoundRobin.update_creation.
    cbn [RoundRobin.creations RoundRobin.set_creations RoundRobin.set_pool].
    refine (@Forall2_numbered_update _
              (fun j c => early_waits k j c /\
                          RoundRobin.c_online c = negb (j <? S p) /\
                          RoundRobin.c_settled c = (j <? S p))
              _ 0 _ p _ F _ _ _).
    - reflexivity.
    - intros c' (Wc' & _ & _). cbn [RoundRobin.c_online RoundRobin.c_settled].
      assert (E : (p <? S p) = true) by (apply Nat.ltb_lt; lia). rewrite E.
      repeat split. exact Wc'.
    - intros j c' Hj (Wc' & Oc' & Sc').
      assert (E : (j <? S p) = (j <? p)).
      { destruct (j <? p) eqn:E1.
        - apply Nat.ltb_lt in E1. apply Nat.ltb_lt. lia.
        - apply Nat.ltb_ge in E1. apply Nat.ltb_ge. lia. }
      rewrite E. auto. }
  unfold RoundRobin.resolved, early_waits in *.
  destruct (RoundRobin.c_waiter c) as [i|call task].
  - unfold RoundRobin.buildPool_from.
    destruct (S i <? RoundRobin.poolSize cfg) eqn:B.
    + apply Nat.ltb_lt in B.
      assert (M : early_made cfg k (S p) = S (early_made cfg k p) /\
                  early_made cfg k p = p + 1 + (if Nat.eqb p 0 then k else 0) /\
                  k < early_made cfg k p /\ S i = early_made cfg k p - k).
      { unfold early_made in *. simpl Nat.eqb.
        destruct (Nat.eqb p 0) eqn:E0;
          [apply Nat.eqb_eq in E0|apply Nat.eqb_neq in E0]; lia. }
      destruct M as (M1 & _ & M3 & M4).
      unfold RoundRobin.addWorkerToPool. cbv zeta.
      cbn [RoundRobin.workersMade RoundRobin.set_workersMade]. rewrite Hnew.
      unfold early.
      cbn [RoundRobin.pool RoundRobin.workersMade RoundRobin.creations
           RoundRobin.set_creations RoundRobin.emit RoundRobin.set_workersMade].
      rewrite L1, W1, M1. split; [reflexivity|]. split; [reflexivity|].
      rewrite seq_S. apply Forall2_app; [exact F1|]. constructor; [|constructor].
      cbn [RoundRobin.c_worker RoundRobin.c_online RoundRobin.c_settled
           RoundRobin.c_waiter].
      assert (E : (early_made cfg k p <? S p) = false) by (apply Nat.ltb_ge; lia).
      cbn [Nat.add]. rewrite E. unfold early_waits. cbn [RoundRobin.c_waiter].
      repeat split. right. split; lia.
    + apply Nat.ltb_ge in B.
      assert (M : early_made cfg k (S p) = early_made cfg k p).
      { unfold early_made in *. simpl Nat.eqb.
        destruct (Nat.eqb p 0) eqn:E0;
          [apply Nat.eqb_eq in E0|apply Nat.eqb_neq in E0]; lia. }
      unfold early. rewrite M. auto.
  - assert (M : early_made cfg k (S p) = early_made cfg k p).
    { unfold early_made in *. simpl Nat.eqb.
      destruct (Nat.eqb p 0) eqn:E0;
        [apply Nat.eqb_eq in E0|apply Nat.eqb_neq in E0]; lia. }
    unfold early, RoundRobin.select. rewrite M.
    destruct (nth_error _ _); auto.
Qed.

Lemma early_onlines (cfg : RoundRobin.Config) (k : nat) freemem :
  0 < RoundRobin.poolSize cfg ->
  (forall w, RoundRobin.newWorker cfg w = None) ->
  forall j p (s : RoundRobin.State),
    early cfg k p s -> p + j <= k + RoundRobin.poolSize cfg ->
    early cfg k (p + j)
          (RoundRobin.steps cfg s (map (fun w => RoundRobin.Online w freemem) (seq p j))).
Proof.
  intros Hn Hnew. induction j as [|j IH]; intros p s H Hj.
  - simpl. rewrite Nat.add_0_r. exact H.
  - simpl seq. simpl map. unfold RoundRobin.steps. simpl fold_left.
    replace (p + S j) with (S p + j) by lia.
    apply IH; [|lia].
    apply early_online; try assumption. apply early_made_gt. lia.
Qed.

(** X26: the pool of the round-robin class is not bounded by [poolSize].  A
    call of [run] that finds the pool empty makes a worker of its own, also
    while the workers of [buildPool] are starting, and every worker that
    comes online is pushed: after [k] calls made before the first worker is
    online, the pool ends with [poolSize + k] workers. *)
Theorem early_calls_grow_the_pool (cfg : RoundRobin.Config) (k : nat) task freemem :
  0 < RoundRobin.poolSize cfg ->
  (forall w, RoundRobin.newWorker cfg w = None) ->
  let s := RoundRobin.steps cfg (RoundRobin.constructor cfg)
             (repeat (RoundRobin.Run task freemem) k
              ++ map (fun w => RoundRobin.Online w freemem)
                     (seq 0 (k + RoundRobin.poolSize cfg))) in
  length (RoundRobin.pool s) = RoundRobin.poolSize cfg + k /\
  RoundRobin.workersMade s = RoundRobin.poolSize cfg + k.
Proof.
  intros Hn Hnew s. subst s. rewrite rr_steps_app.
  destruct (@early_runs cfg k task freemem Hn Hnew k (le_n k)) as (P & W & F).
  cbv zeta in P, W, F.
  set (s0 := RoundRobin.steps cfg (RoundRobin.constructor cfg)
                              (repeat (RoundRobin.Run task freemem) k)) in *.
  assert (E0 : early cfg k 0 s0).
  { unfold early, early_made. simpl Nat.eqb. rewrite P, W.
    split; [reflexivity|]. split; [reflexivity|].
    refine (Forall2_impl _ _ F). intros j c (A & B & C & D). auto. }
  destruct (@early_onlines cfg k freemem Hn Hnew (k + RoundRobin.poolSize cfg) 0 s0 E0
              ltac:(lia)) as (L & M & _).
  simpl in L, M. split; [lia|].
  rewrite M. unfold early_made.
  destruct (Nat.eqb (k + RoundRobin.poolSize cfg) 0) eqn:E;
    [apply Nat.eqb_eq in E|apply Nat.eqb_neq in E]; lia.
Qed.

Lemma early_calls_grow_the_pool_witness :
  length (RoundRobin.pool
            (RoundRobin.steps two_round_robin (RoundRobin.constructor two_round_robin)
               [RoundRobin.Run VNull 1000; RoundRobin.Online 0 1000;
                RoundRobin.Online 1 1000; RoundRobin.Online 2 1000])) = 3.
Proof.
  exact (proj1 (@early_calls_grow_the_pool two_round_robin 1 VNull 1000%Z
                  (Nat.lt_0_succ 1) (fun _ => eq_refl))).
Defined.

(** * The capacity check of src/unnamed/part_000 *)



